(** * agentic-chat-ui: the streaming chat turn and the session refresh

    A shallow embedding of the two pieces of the client that carry protocol
    logic:

    - [src/services/auth.service.ts]: [AuthService], the credential store
      kept in [localStorage] and the refresh-and-retry of [getCurrentUser];
    - [src/components/ChatWindow.tsx]: [handleSendMessage], the loop that
      reads the response body chunk by chunk, cuts it into lines and
      appends the content of every [data: ] line to the assistant message.

    The browser is modelled only as far as the code observes it: JavaScript
    strings are sequences of UTF-16 code units, [TextDecoder] is the WHATWG
    UTF-8 decoder, [JSON.parse] is the ECMA-404 grammar, [localStorage] is a
    finite map from keys to strings, and [fetch] answers from a script of
    outcomes while every request is recorded in a trace. *)

From Stdlib Require Import ZArith List Bool Lia String Ascii DecimalNat.
From Stdlib.Strings Require Import Byte.
From stdpp Require Import base option gmap strings list fin_maps.
Import ListNotations.

Open Scope Z_scope.
Set Warnings "-register-all".

(* ===================================================================== *)
(** * The JavaScript host *)
(* ===================================================================== *)

Module JS.

(** ** Strings *)

(** A JavaScript string is a finite sequence of 16-bit code units. *)
Definition jschar := Z.
Definition jsstring := list jschar.

(** ASCII literals of the source, as code units. *)
Definition js (s : string) : jsstring :=
  List.map (fun a => Z.of_N (N_of_ascii a)) (list_ascii_of_string s).

(** The same with every apostrophe read as a quotation mark, to write JSON
    texts as literals: [jq "{'content':'Hel'}"] is the text
    [{"content":"Hel"}]. *)
Definition jq (s : string) : jsstring :=
  List.map (fun c => if c =? 39 then 34 else c) (js s).

Fixpoint jsstring_eqb (a b : jsstring) : bool :=
  match a, b with
  | [], [] => true
  | x :: a', y :: b' => (x =? y) && jsstring_eqb a' b'
  | _, _ => false
  end.

(** [s.startsWith(p)] *)
Fixpoint startsWith (s p : jsstring) {struct p} : bool :=
  match p, s with
  | [], _ => true
  | c :: p', d :: s' => (c =? d) && startsWith s' p'
  | _ :: _, [] => false
  end.

(** [s.slice(n)] for a non-negative [n]: the string without its first [n]
    code units, empty when the string is shorter. *)
Definition slice (n : nat) (s : jsstring) : jsstring := skipn n s.

(** ECMAScript [WhiteSpace] and [LineTerminator] code points, the set that
    [String.prototype.trim] strips. *)
Definition is_js_whitespace (c : jschar) : bool :=
  ((9 <=? c) && (c <=? 13))
  || (c =? 32) || (c =? 160) || (c =? 5760)
  || ((8192 <=? c) && (c <=? 8202))
  || (c =? 8232) || (c =? 8233) || (c =? 8239) || (c =? 8287)
  || (c =? 12288) || (c =? 65279).

Fixpoint trimStart (s : jsstring) : jsstring :=
  match s with
  | [] => []
  | c :: s' => if is_js_whitespace c then trimStart s' else s
  end.

Definition trimEnd (s : jsstring) : jsstring := rev (trimStart (rev s)).

(** [s.trim()] *)
Definition trim (s : jsstring) : jsstring := trimEnd (trimStart s).

(** [s.split('\n')]: the pieces between line feeds. The result is never
    empty: a string without a line feed is its own single piece, and the
    empty string gives one empty piece. *)
Definition LF : jschar := 10.

Fixpoint split_lf (s : jsstring) : list jsstring :=
  match s with
  | [] => [[]]
  | c :: s' =>
      if c =? LF then [] :: split_lf s'
      else match split_lf s' with
           | [] => [[c]]
           | piece :: pieces => (c :: piece) :: pieces
           end
  end.

(** The last piece of the split: the line that is not finished yet. *)
Definition carry (s : jsstring) : jsstring := default [] (last (split_lf s)).

(** A string is truthy when it is not empty. *)
Definition truthy_string (s : jsstring) : bool :=
  match s with [] => false | _ :: _ => true end.

(** ** TextDecoder *)

(** The WHATWG UTF-8 decoder, one byte at a time. The state is the one of
    the Encoding Standard: the code point under construction, the number of
    continuation bytes seen and needed, and the bounds of the next byte. The
    [TextDecoder] adds the flag that tells whether the byte order mark has
    been dealt with. *)
Record Utf8Decoder : Type := mkUtf8Decoder {
  code_point : Z;
  bytes_seen : Z;
  bytes_needed : Z;
  lower_boundary : Z;
  upper_boundary : Z;
  bom_seen : bool
}.

Definition new_TextDecoder : Utf8Decoder :=
  mkUtf8Decoder 0 0 0 128 191 false.

Definition reset_sequence (d : Utf8Decoder) : Utf8Decoder :=
  mkUtf8Decoder 0 0 0 128 191 (bom_seen d).

Definition REPLACEMENT : Z := 65533.

(** A byte met when no sequence is open. *)
Definition utf8_lead (d : Utf8Decoder) (b : Z) : Utf8Decoder * list Z :=
  if b <=? 127 then (d, [b])
  else if (194 <=? b) && (b <=? 223) then
    (mkUtf8Decoder (Z.land b 31) 0 1 128 191 (bom_seen d), [])
  else if (224 <=? b) && (b <=? 239) then
    (mkUtf8Decoder (Z.land b 15) 0 2
       (if b =? 224 then 160 else 128)
       (if b =? 237 then 159 else 191) (bom_seen d), [])
  else if (240 <=? b) && (b <=? 244) then
    (mkUtf8Decoder (Z.land b 7) 0 3
       (if b =? 240 then 144 else 128)
       (if b =? 244 then 143 else 191) (bom_seen d), [])
  else (d, [REPLACEMENT]).

(** The handler of the decoder: the new state and the code points emitted
    for one byte. A byte outside the expected bounds closes the open
    sequence with U+FFFD and is then read again as a first byte. *)
Definition utf8_handler (d : Utf8Decoder) (b : Z) : Utf8Decoder * list Z :=
  if bytes_needed d =? 0 then utf8_lead d b
  else if negb ((lower_boundary d <=? b) && (b <=? upper_boundary d)) then
    let '(d', out) := utf8_lead (reset_sequence d) b in
    (d', REPLACEMENT :: out)
  else
    let cp := Z.lor (Z.shiftl (code_point d) 6) (Z.land b 63) in
    let seen := bytes_seen d + 1 in
    if seen =? bytes_needed d then (reset_sequence d, [cp])
    else (mkUtf8Decoder cp seen (bytes_needed d) 128 191 (bom_seen d), []).

(** A code point as UTF-16 code units. *)
Definition utf16 (cp : Z) : jsstring :=
  if cp <=? 65535 then [cp]
  else [55296 + Z.shiftr (cp - 65536) 10; 56320 + Z.land (cp - 65536) 1023].

(** The first code point that leaves the decoder is dropped when it is the
    byte order mark U+FEFF ([ignoreBOM] is false by default). *)
Fixpoint serialize (bom : bool) (cps : list Z) : bool * jsstring :=
  match cps with
  | [] => (bom, [])
  | cp :: cps' =>
      if bom then let '(b', s) := serialize true cps' in (b', utf16 cp ++ s)
      else if cp =? 65279 then serialize true cps'
      else let '(b', s) := serialize true cps' in (b', utf16 cp ++ s)
  end.

Definition byte_value (b : byte) : Z := Z.of_N (Byte.to_N b).

Definition decode_byte (d : Utf8Decoder) (b : byte) : Utf8Decoder * jsstring :=
  let '(d1, cps) := utf8_handler d (byte_value b) in
  let '(bom, s) := serialize (bom_seen d1) cps in
  (mkUtf8Decoder (code_point d1) (bytes_seen d1) (bytes_needed d1)
     (lower_boundary d1) (upper_boundary d1) bom, s).

(** [decoder.decode(value, { stream: true })]: the bytes of [value] go
    through the decoder, which keeps an unfinished sequence for the next
    call instead of flushing it. *)
Fixpoint decode_stream (d : Utf8Decoder) (value : list byte)
  : Utf8Decoder * jsstring :=
  match value with
  | [] => (d, [])
  | b :: value' =>
      let '(d1, s1) := decode_byte d b in
      let '(d2, s2) := decode_stream d1 value' in
      (d2, s1 ++ s2)
  end.

(** ** Values *)

(** The values the code handles: what [JSON.parse] and [response.json()]
    produce, and [undefined] for a property that is not there. A number is
    kept as the JSON literal it was read from; what an IEEE double does with
    it is left to the host (see [HostNumber]). An object is the list of its
    own properties in source order, a later duplicate key overriding an
    earlier one. *)
Inductive JSValue : Type :=
| VUndefined
| VNull
| VBoolean (b : bool)
| VNumber (literal : jsstring)
| VString (s : jsstring)
| VArray (elements : list JSValue)
| VObject (properties : list (jsstring * JSValue)).

(** The two conversions of a number the code can trigger: its truthiness
    (false for [0], [-0] and [NaN]) and [Number::toString]. Both are
    floating-point matters of the host, so they are an interface. *)
Class HostNumber : Type := {
  Number_ToBoolean : jsstring -> bool;
  Number_ToString : jsstring -> jsstring
}.

Definition ToBoolean `{HostNumber} (v : JSValue) : bool :=
  match v with
  | VUndefined | VNull => false
  | VBoolean b => b
  | VNumber n => Number_ToBoolean n
  | VString s => truthy_string s
  | VArray _ | VObject _ => true
  end.

(** The own property [key] of an object, the last one when the key was
    given more than once. *)
Fixpoint own_property (properties : list (jsstring * JSValue)) (key : jsstring)
  : option JSValue :=
  match properties with
  | [] => None
  | (k, v) :: properties' =>
      match own_property properties' key with
      | Some v' => Some v'
      | None => if jsstring_eqb k key then Some v else None
      end
  end.

(** The conversion to a string, as the [+] operator applies it next to a
    string, [new Error(message)] to its message and [localStorage.setItem]
    to its argument. An array joins its elements with commas, [null] and
    [undefined] elements being empty. An object of [JSON.parse] inherits
    [Object.prototype.toString] and gives [[object Object]], unless it has
    a property [toString] of its own: that one is a JSON value, so it cannot
    be called, [valueOf] gives the object back, and the conversion throws a
    [TypeError]: [None]. *)
Fixpoint ToString `{HostNumber} (v : JSValue) : option jsstring :=
  match v with
  | VUndefined => Some (js "undefined")
  | VNull => Some (js "null")
  | VBoolean true => Some (js "true")
  | VBoolean false => Some (js "false")
  | VNumber n => Some (Number_ToString n)
  | VString s => Some s
  | VArray elements =>
      (fix join (l : list JSValue) : option jsstring :=
         match l with
         | [] => Some []
         | e :: l' =>
             match (match e with
                    | VUndefined | VNull => Some []
                    | _ => ToString e
                    end) with
             | None => None
             | Some s =>
                 match l' with
                 | [] => Some s
                 | _ :: _ =>
                     match join l' with
                     | Some t => Some (s ++ js "," ++ t)
                     | None => None
                     end
                 end
             end
         end) elements
  | VObject properties =>
      match own_property properties (js "toString") with
      | Some _ => None
      | None => Some (js "[object Object]")
      end
  end.

(** [v.key] for the property names the code reads ([content], [metadata],
    [finish_reason], [access_token], [refresh_token]); none of them is a
    built-in property of a string, number, boolean or array, so only an
    object can answer something else than [undefined]. Reading a property
    of [null] or [undefined] throws a [TypeError]: [None]. *)
Definition Get (v : JSValue) (key : jsstring) : option JSValue :=
  match v with
  | VUndefined | VNull => None
  | VObject properties =>
      Some (match own_property properties key with
            | Some v' => v'
            | None => VUndefined
            end)
  | _ => Some VUndefined
  end.

(** [v?.key]: [undefined] instead of the [TypeError]. *)
Definition OptionalGet (v : JSValue) (key : jsstring) : JSValue :=
  match Get v key with
  | Some v' => v'
  | None => VUndefined
  end.

(** ** JSON.parse *)

Definition is_json_whitespace (c : jschar) : bool :=
  (c =? 32) || (c =? 9) || (c =? 10) || (c =? 13).

Fixpoint skip_ws (s : jsstring) : jsstring :=
  match s with
  | [] => []
  | c :: s' => if is_json_whitespace c then skip_ws s' else s
  end.

Definition is_digit (c : jschar) : bool := (48 <=? c) && (c <=? 57).

Definition hex_value (c : jschar) : option Z :=
  if is_digit c then Some (c - 48)
  else if (97 <=? c) && (c <=? 102) then Some (c - 87)
  else if (65 <=? c) && (c <=? 70) then Some (c - 55)
  else None.

Definition hex4 (a b c d : jschar) : option jschar :=
  match hex_value a, hex_value b, hex_value c, hex_value d with
  | Some x, Some y, Some z, Some w => Some (((x * 16 + y) * 16 + z) * 16 + w)
  | _, _, _, _ => None
  end.

(** The character an escape letter stands for. *)
Definition simple_escape (e : jschar) : option jschar :=
  if e =? 34 then Some 34            (* quotation mark *)
  else if e =? 92 then Some 92       (* reverse solidus *)
  else if e =? 47 then Some 47       (* solidus *)
  else if e =? 98 then Some 8        (* b: backspace *)
  else if e =? 102 then Some 12      (* f: form feed *)
  else if e =? 110 then Some 10      (* n: line feed *)
  else if e =? 114 then Some 13      (* r: carriage return *)
  else if e =? 116 then Some 9       (* t: tab *)
  else None.

Definition push_char (c : jschar) (r : option (jsstring * jsstring))
  : option (jsstring * jsstring) :=
  match r with
  | Some (str, rest) => Some (c :: str, rest)
  | None => None
  end.

(** The characters of a string literal after its opening quote, up to the
    closing quote, and what follows it. *)
Fixpoint lex_string (s : jsstring) : option (jsstring * jsstring) :=
  match s with
  | [] => None
  | c :: rest =>
      if c =? 34 then Some ([], rest)
      else if c =? 92 then
        match rest with
        | [] => None
        | e :: rest1 =>
            if e =? 117 then
              match rest1 with
              | h1 :: h2 :: h3 :: h4 :: rest2 =>
                  match hex4 h1 h2 h3 h4 with
                  | Some u => push_char u (lex_string rest2)
                  | None => None
                  end
              | _ => None
              end
            else
              match simple_escape e with
              | Some u => push_char u (lex_string rest1)
              | None => None
              end
        end
      else if c <? 32 then None
      else push_char c (lex_string rest)
  end.

Fixpoint span_digits (s : jsstring) : jsstring * jsstring :=
  match s with
  | [] => ([], [])
  | c :: s' =>
      if is_digit c then let '(ds, rest) := span_digits s' in (c :: ds, rest)
      else ([], s)
  end.

(** One or more digits. *)
Definition lex_digits1 (s : jsstring) : option (jsstring * jsstring) :=
  match span_digits s with
  | ([], _) => None
  | (ds, rest) => Some (ds, rest)
  end.

(** The integer part: [0], or a non-zero digit followed by digits. *)
Definition lex_int (s : jsstring) : option (jsstring * jsstring) :=
  match s with
  | [] => None
  | c :: s' =>
      if c =? 48 then Some ([c], s')
      else if is_digit c then
        let '(ds, rest) := span_digits s' in Some (c :: ds, rest)
      else None
  end.

Definition lex_frac (s : jsstring) : option (jsstring * jsstring) :=
  match s with
  | c :: s' =>
      if c =? 46 then
        match lex_digits1 s' with
        | Some (ds, rest) => Some (c :: ds, rest)
        | None => None
        end
      else Some ([], s)
  | [] => Some ([], s)
  end.

Definition lex_exp (s : jsstring) : option (jsstring * jsstring) :=
  match s with
  | c :: s' =>
      if (c =? 101) || (c =? 69) then
        let '(sign, s'') :=
          match s' with
          | g :: t => if (g =? 43) || (g =? 45) then ([g], t) else ([], s')
          | [] => ([], s')
          end in
        match lex_digits1 s'' with
        | Some (ds, rest) => Some (c :: sign ++ ds, rest)
        | None => None
        end
      else Some ([], s)
  | [] => Some ([], s)
  end.

(** A number literal and what follows it. *)
Definition lex_number (s : jsstring) : option (jsstring * jsstring) :=
  let '(minus, s1) :=
    match s with
    | c :: s' => if c =? 45 then ([c], s') else ([], s)
    | [] => ([], s)
    end in
  match lex_int s1 with
  | None => None
  | Some (i, s2) =>
      match lex_frac s2 with
      | None => None
      | Some (f, s3) =>
          match lex_exp s3 with
          | None => None
          | Some (e, s4) => Some (minus ++ i ++ f ++ e, s4)
          end
      end
  end.

(** Recursive descent over the grammar. Every call either has consumed a
    character since the call two levels up or is the first one, so
    [2 * length s + 2] levels are enough for any text [s]. *)
Fixpoint parse_value (fuel : nat) (s : jsstring) : option (JSValue * jsstring) :=
  match fuel with
  | O => None
  | S fuel' =>
      match skip_ws s with
      | [] => None
      | c :: rest =>
          if c =? 123 then                       (* { *)
            match skip_ws rest with
            | [] => None
            | d :: rest' =>
                if d =? 125 then Some (VObject [], rest')
                else parse_members fuel' [] (d :: rest')
            end
          else if c =? 91 then                   (* [ *)
            match skip_ws rest with
            | [] => None
            | d :: rest' =>
                if d =? 93 then Some (VArray [], rest')
                else parse_elements fuel' [] (d :: rest')
            end
          else if c =? 34 then                   (* string *)
            match lex_string rest with
            | Some (str, rest') => Some (VString str, rest')
            | None => None
            end
          else if startsWith (c :: rest) (js "true") then
            Some (VBoolean true, skipn 4 (c :: rest))
          else if startsWith (c :: rest) (js "false") then
            Some (VBoolean false, skipn 5 (c :: rest))
          else if startsWith (c :: rest) (js "null") then
            Some (VNull, skipn 4 (c :: rest))
          else
            match lex_number (c :: rest) with
            | Some (n, rest') => Some (VNumber n, rest')
            | None => None
            end
      end
  end

with parse_elements (fuel : nat) (acc : list JSValue) (s : jsstring)
  : option (JSValue * jsstring) :=
  match fuel with
  | O => None
  | S fuel' =>
      match parse_value fuel' s with
      | None => None
      | Some (v, rest) =>
          match skip_ws rest with
          | [] => None
          | c :: rest' =>
              if c =? 44 then parse_elements fuel' (v :: acc) rest'
              else if c =? 93 then Some (VArray (rev (v :: acc)), rest')
              else None
          end
      end
  end

with parse_members (fuel : nat) (acc : list (jsstring * JSValue)) (s : jsstring)
  : option (JSValue * jsstring) :=
  match fuel with
  | O => None
  | S fuel' =>
      match skip_ws s with
      | [] => None
      | q :: s1 =>
          if negb (q =? 34) then None
          else
            match lex_string s1 with
            | None => None
            | Some (key, s2) =>
                match skip_ws s2 with
                | [] => None
                | colon :: s3 =>
                    if negb (colon =? 58) then None
                    else
                      match parse_value fuel' s3 with
                      | None => None
                      | Some (v, rest) =>
                          match skip_ws rest with
                          | [] => None
                          | c :: rest' =>
                              if c =? 44 then
                                parse_members fuel' ((key, v) :: acc) rest'
                              else if c =? 125 then
                                Some (VObject (rev ((key, v) :: acc)), rest')
                              else None
                          end
                      end
                end
            end
      end
  end.

(** A text that is one JSON value between optional white space. *)
Definition parse_text (fuel : nat) (text : jsstring) : option JSValue :=
  match parse_value fuel text with
  | Some (v, rest) =>
      match skip_ws rest with
      | [] => Some v
      | _ :: _ => None
      end
  | None => None
  end.

(** [JSON.parse(text)]: the value of the text, [None] where [JSON.parse]
    throws a [SyntaxError]. *)
Definition JSON_parse (text : jsstring) : option JSValue :=
  parse_text (2 * length text + 2) text.

End JS.

(* ===================================================================== *)
(** * src/services/auth.service.ts *)
(* ===================================================================== *)

Module AuthService.
Import JS.

(** ** Requests, responses and exceptions *)

Inductive Exception : Type :=
| Error (message : string)          (* [new Error(message)] *)
| TypeError                         (* property of null; [fetch] failing *)
| SyntaxError                       (* a body that is not JSON *)
| AbortError.                       (* an aborted request *)

(** A request as [fetch] receives it. The body is the value handed to
    [JSON.stringify]. *)
Record Request : Type := mkRequest {
  url : string;
  method : string;
  headers : list (string * jsstring);
  body : option JSValue
}.

(** A response as far as the service reads it: the status, and what
    [response.json()] resolves to ([None] when it rejects). *)
Record Response : Type := mkResponse {
  status : Z;
  json : option JSValue
}.

(** [response.ok] *)
Definition ok (r : Response) : bool := (200 <=? status r) && (status r <=? 299).

Inductive FetchOutcome : Type :=
| Resolved (r : Response)
| Rejected (e : Exception).

(** ** Asynchronous code *)

(** The body of an [async] function as a tree of its effects: reads and
    writes of [localStorage], which are synchronous, and the places where
    the function is suspended: [await fetch(...)], [await response.json()],
    and [Tick], the suspension of a caller between the moment an [async]
    method it awaits has settled and the moment it goes on with the result
    (see [await]). [OutOfFuel] stands for a recursion that was cut off. *)
Inductive Prog (A : Type) : Type :=
| Ret (a : A)
| Throw (e : Exception)
| OutOfFuel
| GetItem (key : string) (k : option jsstring -> Prog A)
| SetItem (key : string) (value : jsstring) (k : Prog A)
| RemoveItem (key : string) (k : Prog A)
| Fetch (req : Request) (k : FetchOutcome -> Prog A)
| ReadJson (r : Response) (k : option JSValue -> Prog A)
| Tick (k : Prog A).

Arguments Ret {A} a.
Arguments Throw {A} e.
Arguments OutOfFuel {A}.
Arguments GetItem {A} key k.
Arguments SetItem {A} key value k.
Arguments RemoveItem {A} key k.
Arguments Fetch {A} req k.
Arguments ReadJson {A} r k.
Arguments Tick {A} k.

Fixpoint bind {A B : Type} (p : Prog A) (f : A -> Prog B) : Prog B :=
  match p with
  | Ret a => f a
  | Throw e => Throw e
  | OutOfFuel => OutOfFuel
  | GetItem key k => GetItem key (fun v => bind (k v) f)
  | SetItem key value k => SetItem key value (bind k f)
  | RemoveItem key k => RemoveItem key (bind k f)
  | Fetch req k => Fetch req (fun o => bind (k o) f)
  | ReadJson r k => ReadJson r (fun v => bind (k v) f)
  | Tick k => Tick (bind k f)
  end.

Notation "'let*' x ':=' p 'in' q" := (bind p (fun x => q))
  (at level 10, x name, p at level 100, q at level 200).

(** [try { p } catch { h }] *)
Fixpoint try_catch {A : Type} (p : Prog A) (h : Exception -> Prog A) : Prog A :=
  match p with
  | Ret a => Ret a
  | Throw e => h e
  | OutOfFuel => OutOfFuel
  | GetItem key k => GetItem key (fun v => try_catch (k v) h)
  | SetItem key value k => SetItem key value (try_catch k h)
  | RemoveItem key k => RemoveItem key (try_catch k h)
  | Fetch req k => Fetch req (fun o => try_catch (k o) h)
  | ReadJson r k => ReadJson r (fun v => try_catch (k v) h)
  | Tick k => Tick (try_catch k h)
  end.

(** [await p] where [p] is the call of another [async] method, and
    [return p] at the end of an [async] function: the callee runs at once,
    in place, up to its own first suspension; when it has returned or
    thrown, the caller is suspended once more before it goes on with the
    value or the exception, so other calls can run in between. *)
Fixpoint await {A : Type} (p : Prog A) : Prog A :=
  match p with
  | Ret a => Tick (Ret a)
  | Throw e => Tick (Throw e)
  | OutOfFuel => OutOfFuel
  | GetItem key k => GetItem key (fun v => await (k v))
  | SetItem key value k => SetItem key value (await k)
  | RemoveItem key k => RemoveItem key (await k)
  | Fetch req k => Fetch req (fun o => await (k o))
  | ReadJson r k => ReadJson r (fun v => await (k v))
  | Tick k => Tick (await k)
  end.

(** [await fetch(...)]: the response, or the rejection thrown. *)
Definition fetch (req : Request) : Prog Response :=
  Fetch req (fun o =>
    match o with
    | Resolved r => Ret r
    | Rejected e => Throw e
    end).

(** [await response.json()] *)
Definition response_json (r : Response) : Prog JSValue :=
  ReadJson r (fun v =>
    match v with
    | Some v' => Ret v'
    | None => Throw SyntaxError
    end).

(** [v.key], throwing on [null] and [undefined]. *)
Definition get (v : JSValue) (key : string) : Prog JSValue :=
  match Get v (js key) with
  | Some v' => Ret v'
  | None => Throw TypeError
  end.

(** ** The service *)

Definition API_BASE_URL : string := "http://localhost:8000".
Definition TOKEN_KEY : string := "access_token".
Definition REFRESH_TOKEN_KEY : string := "refresh_token".

Section Service.
Context `{HostNumber}.

(** The conversion of a value to a string where the code needs one,
    throwing the [TypeError] of a value that cannot be converted. *)
Definition to_string (v : JSValue) : Prog jsstring :=
  match ToString v with
  | Some s => Ret s
  | None => Throw TypeError
  end.

(** The two statements of [setTokens], in order: the second field is read
    and converted after the first has been stored. *)
Definition setTokens (token : JSValue) : Prog unit :=
  let* access := get token "access_token" in
  let* access_text := to_string access in
  SetItem TOKEN_KEY access_text
    (let* refresh := get token "refresh_token" in
     let* refresh_text := to_string refresh in
     SetItem REFRESH_TOKEN_KEY refresh_text (Ret tt)).

Definition getToken : Prog (option jsstring) := GetItem TOKEN_KEY Ret.

Definition getRefreshToken : Prog (option jsstring) :=
  GetItem REFRESH_TOKEN_KEY Ret.

Definition clearTokens : Prog unit :=
  RemoveItem TOKEN_KEY (RemoveItem REFRESH_TOKEN_KEY (Ret tt)).

(** The truthiness of a [string | null]: neither [null] nor empty. *)
Definition present (t : option jsstring) : bool :=
  match t with
  | Some s => truthy_string s
  | None => false
  end.

Definition bearer (t : option jsstring) : jsstring :=
  js "Bearer " ++ default (js "null") t.

Definition refreshAccessToken : Prog bool :=
  let* refreshToken := getRefreshToken in
  if negb (present refreshToken) then Ret false
  else
    try_catch
      (let* response := fetch
         {| url := (API_BASE_URL +:+ "/auth/refresh")%string;
            method := "POST";
            headers := [("Content-Type", js "application/json")];
            body := Some (VObject [(js "refresh_token",
                                    VString (default [] refreshToken))]) |} in
       if negb (ok response) then
         let* _ := clearTokens in Ret false
       else
         let* token := response_json response in
         let* _ := setTokens token in
         Ret true)
      (fun _ => let* _ := clearTokens in Ret false).

(** [getCurrentUser] calls itself after a successful refresh; [fuel] bounds
    the depth of that recursion. The refresh is awaited, and so is the
    inner call, whose promise is the one that is returned. *)
Fixpoint getCurrentUser (fuel : nat) : Prog JSValue :=
  match fuel with
  | O => OutOfFuel
  | S fuel' =>
      let* token := getToken in
      if negb (present token) then Throw (Error "No authentication token")
      else
        let* response := fetch
          {| url := (API_BASE_URL +:+ "/auth/me")%string;
             method := "GET";
             headers := [("Authorization", bearer token)];
             body := None |} in
        if negb (ok response) then
          if status response =? 401 then
            let* refreshed := await refreshAccessToken in
            if refreshed then await (getCurrentUser fuel')
            else Throw (Error "Failed to fetch user")
          else Throw (Error "Failed to fetch user")
        else response_json response
  end.

Definition isAuthenticated : Prog bool :=
  let* token := getToken in Ret (present token).

Definition getAuthHeader : Prog (list (string * jsstring)) :=
  let* token := getToken in
  Ret (if present token then [("Authorization", bearer token)] else []).

End Service.

(** ** Running a call *)

(** What all calls share: the store, and the requests sent so far, oldest
    first. *)
Record World : Type := mkWorld {
  localStorage : gmap string jsstring;
  requests : list Request
}.

Inductive Outcome (A : Type) : Type :=
| Returned (a : A)
| Thrown (e : Exception)
| Diverged.

Arguments Returned {A} a.
Arguments Thrown {A} e.
Arguments Diverged {A}.

Definition storage_get (key : string) (w : World) : option jsstring :=
  localStorage w !! key.

Definition storage_set (key : string) (value : jsstring) (w : World) : World :=
  mkWorld (<[key := value]> (localStorage w)) (requests w).

Definition storage_remove (key : string) (w : World) : World :=
  mkWorld (delete key (localStorage w)) (requests w).

Definition send (req : Request) (w : World) : World :=
  mkWorld (localStorage w) (requests w ++ [req]).

(** The next answer of the server. A server that has nothing more to say
    does not answer: [fetch] fails with its network error. *)
Definition answer (script : list FetchOutcome) : FetchOutcome * list FetchOutcome :=
  match script with
  | o :: script' => (o, script')
  | [] => (Rejected TypeError, [])
  end.

(** One call run to its end on its own: every [fetch] is sent and answered
    at once by the next outcome of the script. *)
Fixpoint run {A : Type} (p : Prog A) (script : list FetchOutcome) (w : World)
  : Outcome A * list FetchOutcome * World :=
  match p with
  | Ret a => (Returned a, script, w)
  | Throw e => (Thrown e, script, w)
  | OutOfFuel => (Diverged, script, w)
  | GetItem key k => run (k (storage_get key w)) script w
  | SetItem key value k => run k script (storage_set key value w)
  | RemoveItem key k => run k script (storage_remove key w)
  | Fetch req k =>
      let '(o, script') := answer script in
      run (k o) script' (send req w)
  | ReadJson r k => run (k (json r)) script w
  | Tick k => run k script w
  end.

(** ** Several calls at once *)

(** JavaScript runs one call at a time and switches only where a call
    awaits. A call is either about to run or to go on, waiting for the
    answer to a request it has sent, waiting for a body to be read, or
    over. *)
Inductive Call (A : Type) : Type :=
| Ready (p : Prog A)
| Waiting (k : FetchOutcome -> Prog A)
| Reading (p : Prog A)
| Finished (o : Outcome A).

Arguments Ready {A} p.
Arguments Waiting {A} k.
Arguments Reading {A} p.
Arguments Finished {A} o.

(** The synchronous stretch of a call, up to its next suspension. The
    request of a [fetch] is sent before the call is suspended; a call
    suspended by [Tick] is ready to go on when the loop comes back to
    it. *)
Fixpoint advance {A : Type} (p : Prog A) (w : World) : Call A * World :=
  match p with
  | Ret a => (Finished (Returned a), w)
  | Throw e => (Finished (Thrown e), w)
  | OutOfFuel => (Finished Diverged, w)
  | GetItem key k => advance (k (storage_get key w)) w
  | SetItem key value k => advance k (storage_set key value w)
  | RemoveItem key k => advance k (storage_remove key w)
  | Fetch req k => (Waiting k, send req w)
  | ReadJson r k => (Reading (k (json r)), w)
  | Tick k => (Ready k, w)
  end.

(** A call with the answers its own requests will get. *)
Definition Task (A : Type) : Type := Call A * list FetchOutcome.

(** The event loop resumes one call. *)
Definition resume {A : Type} (t : Task A) (w : World) : Task A * World :=
  match t with
  | (Ready p, script) =>
      let '(c, w') := advance p w in ((c, script), w')
  | (Waiting k, script) =>
      let '(o, script') := answer script in
      let '(c, w') := advance (k o) w in ((c, script'), w')
  | (Reading p, script) =>
      let '(c, w') := advance p w in ((c, script), w')
  | (Finished o, script) => ((Finished o, script), w)
  end.

(** One turn of the loop over all the calls, in order. *)
Fixpoint round {A : Type} (pool : list (Task A)) (w : World)
  : list (Task A) * World :=
  match pool with
  | [] => ([], w)
  | t :: pool' =>
      let '(t', w1) := resume t w in
      let '(pool'', w2) := round pool' w1 in
      (t' :: pool'', w2)
  end.

Fixpoint rounds {A : Type} (n : nat) (pool : list (Task A)) (w : World)
  : list (Task A) * World :=
  match n with
  | O => (pool, w)
  | S n' => let '(pool', w') := round pool w in rounds n' pool' w'
  end.

(** The event loop resumes the call at place [i] and leaves the others
    alone. *)
Fixpoint resume_nth {A : Type} (i : nat) (pool : list (Task A)) (w : World)
  : list (Task A) * World :=
  match pool with
  | [] => ([], w)
  | t :: pool' =>
      match i with
      | O => let '(t', w') := resume t w in (t' :: pool', w')
      | S i' =>
          let '(pool'', w') := resume_nth i' pool' w in (t :: pool'', w')
      end
  end.

(** The calls resumed one after the other in the order given, each place
    as often as it is named. *)
Fixpoint deliveries {A : Type} (order : list nat) (pool : list (Task A))
  (w : World) : list (Task A) * World :=
  match order with
  | [] => (pool, w)
  | i :: order' =>
      let '(pool', w') := resume_nth i pool w in deliveries order' pool' w'
  end.

(** The same call made once for each of the scripts, all of them about to
    run: the calls are in flight together. *)
Definition calls {A : Type} (p : Prog A) (scripts : list (list FetchOutcome))
  : list (Task A) :=
  List.map (fun script => (Ready p, script)) scripts.

(** A synchronous method called on the spot: its result, when it returns
    without awaiting. *)
Definition sync {A : Type} (p : Prog A) (w : World) : option A :=
  match advance p w with
  | (Finished (Returned a), _) => Some a
  | _ => None
  end.

(** The calls to the refresh endpoint among the requests sent. *)
Definition is_refresh (req : Request) : bool :=
  String.eqb (url req) (API_BASE_URL +:+ "/auth/refresh").

Definition refresh_calls (w : World) : nat :=
  length (List.filter is_refresh (requests w)).

Definition is_me (req : Request) : bool :=
  String.eqb (url req) (API_BASE_URL +:+ "/auth/me").

Definition me_calls (w : World) : nat :=
  length (List.filter is_me (requests w)).

(** ** The requests of the service, for the statements *)

(** The request of [getCurrentUser] under the access token [token]. *)
Definition me_request (token : jsstring) : Request :=
  {| url := "http://localhost:8000/auth/me";
     method := "GET";
     headers := [("Authorization", js "Bearer " ++ token)];
     body := None |}.

(** The request of [refreshAccessToken] for the refresh token
    [refreshToken]. *)
Definition refresh_request (refreshToken : jsstring) : Request :=
  {| url := "http://localhost:8000/auth/refresh";
     method := "POST";
     headers := [("Content-Type", js "application/json")];
     body := Some (VObject [(js "refresh_token", VString refreshToken)]) |}.

(** The refresh does not go through: the call is rejected, the endpoint
    answers with a status that is not a success, or the [try] block throws
    on the answer, because its body cannot be read as JSON or is [null]. *)
Definition refresh_fails (o : FetchOutcome) : Prop :=
  match o with
  | Rejected _ => True
  | Resolved r =>
      ok r = false \/ json r = None \/
      exists token, json r = Some token /\ Get token (js "access_token") = None
  end.

(** The store with both credentials removed. *)
Definition signed_out (w : World) : gmap string jsstring :=
  delete REFRESH_TOKEN_KEY (delete TOKEN_KEY (localStorage w)).

(** The store after [setTokens] on a pair of credentials. *)
Definition signed_in (access refresh : jsstring) (w : World)
  : gmap string jsstring :=
  <[REFRESH_TOKEN_KEY := refresh]> (<[TOKEN_KEY := access]> (localStorage w)).

End AuthService.

(* ===================================================================== *)
(** * src/components/ChatWindow.tsx *)
(* ===================================================================== *)

Module ChatWindow.
Import JS.

(** ** The state of the component *)

Inductive MessageType : Type := human | ai.

Record ChatMessage : Type := mkChatMessage {
  id : jsstring;
  type : MessageType;
  content : jsstring
}.

(** [rag_k] and [rag_threshold] are numbers, kept as literals. *)
Record ChatSettings : Type := mkChatSettings {
  use_rag : bool;
  rag_k : jsstring;
  rag_threshold : jsstring
}.

(** The pieces of React state that [handleSendMessage] writes. *)
Record State : Type := mkState {
  messages : list ChatMessage;
  isStreaming : bool;
  isWaitingForResponse : bool
}.

Definition setMessages (update : list ChatMessage -> list ChatMessage)
  (st : State) : State :=
  mkState (update (messages st)) (isStreaming st) (isWaitingForResponse st).

Definition setIsStreaming (b : bool) (st : State) : State :=
  mkState (messages st) b (isWaitingForResponse st).

Definition setIsWaitingForResponse (b : bool) (st : State) : State :=
  mkState (messages st) (isStreaming st) b.

(** ** The transport *)

(** The body of a response as its reader delivers it: the chunks, in order,
    and then either [done] ([None]) or a rejected [read()]. *)
Record Body : Type := mkBody {
  chunks : list (list byte);
  failure : option AuthService.Exception
}.

(** [body] is [None] for a response without a body. *)
Record Response : Type := mkResponse {
  status : Z;
  body : option Body
}.

Definition ok (r : Response) : bool := (200 <=? status r) && (status r <=? 299).

Inductive FetchOutcome : Type :=
| Resolved (r : Response)
| Rejected (e : AuthService.Exception).

Section Component.
Context `{HostNumber}.

(** ** One line *)

(** The updater [prev => prev.map(msg => msg.id === aiMessageId ?
    { ...msg, content: msg.content + text } : msg)]. *)
Definition append_content (aiMessageId text : jsstring)
  (prev : list ChatMessage) : list ChatMessage :=
  List.map
    (fun msg =>
       if jsstring_eqb (id msg) aiMessageId
       then mkChatMessage (id msg) (type msg) (content msg ++ text)
       else msg)
    prev.

(** The updater [prev => prev.map(msg => msg.id === aiMessageId ?
    { ...msg, content: msg.content + chunk.content } : msg)], where
    [chunk.content] is any value: the [+] converts it to a string at every
    message that carries the identifier, and throws there when it cannot be
    converted ([None]); the other messages are passed on untouched. *)
Fixpoint append_value (aiMessageId : jsstring) (chunk_content : JSValue)
  (prev : list ChatMessage) : option (list ChatMessage) :=
  match prev with
  | [] => Some []
  | msg :: prev' =>
      match (if jsstring_eqb (id msg) aiMessageId
             then match ToString chunk_content with
                  | Some text =>
                      Some (mkChatMessage (id msg) (type msg)
                              (content msg ++ text))
                  | None => None
                  end
             else Some msg) with
      | None => None
      | Some msg' =>
          match append_value aiMessageId chunk_content prev' with
          | Some rest => Some (msg' :: rest)
          | None => None
          end
      end
  end.

(** [setMessages(updater)] for an updater that can throw. React runs the
    updater when it renders the component, not inside the call, so the
    exception is not caught by a [try] around the call; the component has
    no error boundary, and React unmounts the tree. [None] is the
    component that is no longer there. *)
Definition setMessages_or_unmount
  (update : list ChatMessage -> option (list ChatMessage)) (st : State)
  : option State :=
  match update (messages st) with
  | Some ms => Some (mkState ms (isStreaming st) (isWaitingForResponse st))
  | None => None
  end.

(** The [try] block of a line: [None] when it throws, which [JSON.parse]
    does on a text that is not JSON and [chunk.content] does on [null];
    otherwise what is left of the component. *)
Definition try_chunk (aiMessageId data : jsstring) (st : State)
  : option (option State) :=
  match JSON_parse data with
  | None => None
  | Some chunk =>
      match Get chunk (js "content") with
      | None => None
      | Some chunk_content =>
          if ToBoolean chunk_content
             && negb (ToBoolean
                        (OptionalGet (OptionalGet chunk (js "metadata"))
                           (js "finish_reason")))
          then Some (setMessages_or_unmount
                       (append_value aiMessageId chunk_content) st)
          else Some (Some st)
      end
  end.

(** The body of [for (const line of lines)] on a mounted component. *)
Definition on_line (aiMessageId : jsstring) (st : State) (line : jsstring)
  : option State :=
  if startsWith line (js "data: ") then
    let data := trim (slice 6 line) in
    if truthy_string data then
      let st1 := setIsWaitingForResponse false st in
      match try_chunk aiMessageId data st1 with
      | Some view => view
      | None => Some (setMessages (append_content aiMessageId data) st1)
      end
    else Some st
  else Some st.

(** The same on what is left of the component: the setters of a component
    that was unmounted do nothing. *)
Definition on_line_of_view (aiMessageId : jsstring) (view : option State)
  (line : jsstring) : option State :=
  match view with
  | Some st => on_line aiMessageId st line
  | None => None
  end.

(** ** The reading loop *)

(** What the loop carries from one [read()] to the next. *)
Record Reader : Type := mkReader {
  decoder : Utf8Decoder;
  buffer : jsstring
}.

(** [lines.pop() || '']: the last piece, which is the unfinished line. *)
Definition pop_or_empty (lines : list jsstring) : jsstring :=
  match last lines with
  | Some l => if truthy_string l then l else []
  | None => []
  end.

(** One pass through the loop for a chunk [value]; [handle] is the body
    of the inner [for], run on every finished line. *)
Definition on_chunk {S : Type} (handle : S -> jsstring -> S)
  (rs : Reader * S) (value : list byte) : Reader * S :=
  let '(r, st) := rs in
  let '(d, text) := decode_stream (decoder r) value in
  let buffer1 := buffer r ++ text in
  let lines := split_lf buffer1 in
  let buffer2 := pop_or_empty lines in
  (mkReader d buffer2, fold_left handle (removelast lines) st).

(** [while (true)] up to [done], from a fresh decoder and an empty
    buffer. *)
Definition read_loop {S : Type} (handle : S -> jsstring -> S)
  (values : list (list byte)) (st : S) : Reader * S :=
  fold_left (on_chunk handle) values (mkReader new_TextDecoder [], st).

Definition read_all (aiMessageId : jsstring) (values : list (list byte))
  (st : State) : Reader * option State :=
  read_loop (on_line_of_view aiMessageId) values (Some st).

(** ** The events of a stream *)

(** What [on_line] appends for a line, if it appends anything: the content
    of the chunk, or the payload itself, a string, when the [try] block
    throws. *)
Definition delta_of_line (line : jsstring) : option JSValue :=
  if startsWith line (js "data: ") then
    let data := trim (slice 6 line) in
    if truthy_string data then
      match JSON_parse data with
      | None => Some (VString data)
      | Some chunk =>
          match Get chunk (js "content") with
          | None => Some (VString data)
          | Some chunk_content =>
              if ToBoolean chunk_content
                 && negb (ToBoolean
                            (OptionalGet (OptionalGet chunk (js "metadata"))
                               (js "finish_reason")))
              then Some chunk_content
              else None
          end
      end
    else None
  else None.

Definition log_delta (log : list JSValue) (line : jsstring) : list JSValue :=
  log ++ match delta_of_line line with
         | Some v => [v]
         | None => []
         end.

(** What is appended while the chunks [values] are read, in order: the
    same loop, keeping a log instead of the transcript. *)
Definition deltas (values : list (list byte)) : list JSValue :=
  snd (read_loop log_delta values []).

(** The transcript after the updaters of the deltas [vs], run in order. *)
Definition append_values (aiMessageId : jsstring) (vs : list JSValue)
  (prev : list ChatMessage) : option (list ChatMessage) :=
  fold_left
    (fun view v =>
       match view with
       | Some ms => append_value aiMessageId v ms
       | None => None
       end)
    vs (Some prev).

(** ** handleSendMessage *)

(** The request of the turn: [requestData] as the body, and the header of
    [getAuthHeader] next to the content type. *)
Definition stream_request (apiBaseUrl : string) (threadId content : jsstring)
  (chatSettings : ChatSettings) (w : AuthService.World) : AuthService.Request :=
  let requestData :=
    VObject [(js "thread_id", VString threadId);
             (js "message", VString content);
             (js "use_rag", VBoolean (use_rag chatSettings));
             (js "rag_k", VNumber (rag_k chatSettings));
             (js "rag_threshold", VNumber (rag_threshold chatSettings))] in
  AuthService.mkRequest (apiBaseUrl +:+ "/stream") "POST"
    (("Content-Type", js "application/json")
       :: default [] (AuthService.sync AuthService.getAuthHeader w))
    (Some requestData).

(** The end of a turn: [setIsStreaming(false)] and
    [setIsWaitingForResponse(false)], on what is left of the component. *)
Definition release (view : option State) : option State :=
  option_map (fun st => setIsWaitingForResponse false (setIsStreaming false st))
    view.

(** The [try] block: what it leaves of the component, and the exception
    if it was left by one. The request is recorded in the world. *)
Definition try_stream (apiBaseUrl : string) (aiMessageId : jsstring)
  (threadId content : jsstring)
  (chatSettings : ChatSettings) (outcome : FetchOutcome)
  (w : AuthService.World) (st : State)
  : option State * option AuthService.Exception * AuthService.World :=
  let w1 :=
    AuthService.send (stream_request apiBaseUrl threadId content chatSettings w)
      w in
  match outcome with
  | Rejected e => (Some st, Some e, w1)
  | Resolved response =>
      if negb (ok response) then
        (Some st, Some (AuthService.Error "Failed to start streaming"), w1)
      else
        match body response with
        | None => (Some st, Some (AuthService.Error "No response body"), w1)
        | Some b =>
            let '(_, view) := read_all aiMessageId (chunks b) st in
            match failure b with
            | Some e => (view, Some e, w1)
            | None => (release view, None, w1)
            end
        end
  end.

(** [handleSendMessage(content)]. [apiBaseUrl] and [threadId] are the
    props of the component. The two identifiers are the results of the two
    calls of [generateMessageId], which draws them from the clock and the
    random generator. The result is what is left of the component: its
    state, or [None] when an updater has thrown and the tree was
    unmounted. *)
Definition handleSendMessage (apiBaseUrl : string)
  (userMessageId aiMessageId : jsstring)
  (threadId content : jsstring) (chatSettings : ChatSettings)
  (outcome : FetchOutcome) (w : AuthService.World) (st : State)
  : option State * AuthService.World :=
  let userMessage := mkChatMessage userMessageId human content in
  let st1 := setMessages (fun prev => prev ++ [userMessage]) st in
  let st2 := setIsStreaming true st1 in
  let st3 := setIsWaitingForResponse true st2 in
  let aiMessage := mkChatMessage aiMessageId ai [] in
  let st4 := setMessages (fun prev => prev ++ [aiMessage]) st3 in
  match try_stream apiBaseUrl aiMessageId threadId content chatSettings
          outcome w st4 with
  | (view, None, w1) => (view, w1)
  | (view, Some _, w1) => (release view, w1)
  end.

(** ** The wire format, for the statements *)

(** The events a line of the stream can stand for. *)
Inductive ContentEvent : Type :=
| delta (text : jsstring)
| done.

(** [payload] is a wire form of the event [e]: a JSON object whose
    [content] is the text of a delta, or whose [metadata] carries a truthy
    [finish_reason] for a completion. *)
Definition encodes (payload : jsstring) (e : ContentEvent) : Prop :=
  exists chunk chunk_content,
    JSON_parse (trim payload) = Some chunk /\
    Get chunk (js "content") = Some chunk_content /\
    match e with
    | delta text =>
        chunk_content = VString text /\
        ToBoolean (OptionalGet (OptionalGet chunk (js "metadata"))
                     (js "finish_reason")) = false
    | done =>
        ToBoolean (OptionalGet (OptionalGet chunk (js "metadata"))
                     (js "finish_reason")) = true
    end.

(** What a line of the stream stands for: an event, when it is the marker
    followed by a payload of that event, or nothing, when it does not start
    with the marker (a blank line between events, for one). *)
Definition line_means (line : jsstring) (e : option ContentEvent) : Prop :=
  ~ In LF line /\
  match e with
  | Some e' => exists payload, line = js "data: " ++ payload /\ encodes payload e'
  | None => startsWith line (js "data: ") = false
  end.

(** The text of a stream: its lines, each ended by a line feed. *)
Definition stream_text (lines : list jsstring) : jsstring :=
  concat (List.map (fun line => line ++ [LF]) lines).

Definition event_text (e : option ContentEvent) : jsstring :=
  match e with
  | Some (delta text) => text
  | _ => []
  end.

(** [new] is [old] but for its content, which may have grown, and is [old]
    itself when [old] is not a message of the assistant turn [aiMessageId]. *)
Definition same_but_content (aiMessageId : jsstring) (old new : ChatMessage)
  : Prop :=
  id new = id old /\
  type new = type old /\
  (id old <> aiMessageId -> new = old) /\
  exists text, content new = content old ++ text.

End Component.

(** The bytes of an ASCII text, with every apostrophe read as a quotation
    mark. *)
Definition wire (s : string) : list byte :=
  List.map
    (fun a => byte_of_ascii (if Ascii.eqb a "'"%char then ascii_of_nat 34 else a))
    (list_ascii_of_string s).

End ChatWindow.

(* ===================================================================== *)
(** * Sample runs *)
(* ===================================================================== *)

Module Samples.
Import JS.

(** The digits of a number literal before its exponent. *)
Fixpoint significand (literal : jsstring) : jsstring :=
  match literal with
  | [] => []
  | c :: literal' =>
      if (c =? 101) || (c =? 69) then [] else c :: significand literal'
  end.

(** A host that prints a number the way it was written and finds it
    truthy when one of the digits of its significand is not zero. It
    stands in where no number is involved. *)
Definition literal_numbers : HostNumber :=
  {| Number_ToBoolean :=
       fun literal =>
         existsb (fun c => (49 <=? c) && (c <=? 57)) (significand literal);
     Number_ToString := fun literal => literal |}.

(** A store that holds the access token [access] and the refresh token
    [refresh], and no request sent yet. *)
Definition stored (access refresh : string) : AuthService.World :=
  AuthService.mkWorld
    (<[AuthService.TOKEN_KEY := js access]>
       (<[AuthService.REFRESH_TOKEN_KEY := js refresh]> ∅)) [].

Definition refusal : AuthService.Response :=
  AuthService.mkResponse 401
    (Some (VObject [(js "detail", VString (js "Could not validate credentials"))])).

Definition breakdown : AuthService.Response :=
  AuthService.mkResponse 500 None.

Definition token_pair (access refresh : string) : JSValue :=
  VObject [(js "access_token", VString (js access));
           (js "refresh_token", VString (js refresh));
           (js "token_type", VString (js "bearer"))].

Definition granted (access refresh : string) : AuthService.Response :=
  AuthService.mkResponse 200 (Some (token_pair access refresh)).

Definition profile : JSValue :=
  VObject [(js "id", VString (js "u1")); (js "username", VString (js "ada"))].

Definition whoami : AuthService.Response :=
  AuthService.mkResponse 200 (Some profile).

(** The line feed that ends a line of the stream. *)
Definition NL : list byte := [byte_of_ascii (ascii_of_nat 10)].

(** The stream of the specification: two deltas and the completion. *)
Definition hello_stream : list byte :=
  ChatWindow.wire "data: {'content':'Hel'}" ++ NL ++
  ChatWindow.wire "data: {'content':'lo'}" ++ NL ++
  ChatWindow.wire "data: {'content':'','metadata':{'finish_reason':'stop'}}" ++ NL.

Definition default_settings : ChatWindow.ChatSettings :=
  ChatWindow.mkChatSettings true (js "5") (js "0.7").

(** A conversation with one earlier exchange. *)
Definition history : ChatWindow.State :=
  ChatWindow.mkState
    [ChatWindow.mkChatMessage (js "m1") ChatWindow.human (js "hi");
     ChatWindow.mkChatMessage (js "m2") ChatWindow.ai (js "hello!")]
    false false.

End Samples.

(* ===================================================================== *)
(** * Integers of the host *)
(* ===================================================================== *)

Module JSGlobals.
Import JS.

(** The decimal digits of a natural number, most significant first: what
    [String(index)] and a template literal give for an array index. *)
Fixpoint uint_chars (d : Decimal.uint) : jsstring :=
  match d with
  | Decimal.Nil => []
  | Decimal.D0 d' => 48 :: uint_chars d'
  | Decimal.D1 d' => 49 :: uint_chars d'
  | Decimal.D2 d' => 50 :: uint_chars d'
  | Decimal.D3 d' => 51 :: uint_chars d'
  | Decimal.D4 d' => 52 :: uint_chars d'
  | Decimal.D5 d' => 53 :: uint_chars d'
  | Decimal.D6 d' => 54 :: uint_chars d'
  | Decimal.D7 d' => 55 :: uint_chars d'
  | Decimal.D8 d' => 56 :: uint_chars d'
  | Decimal.D9 d' => 57 :: uint_chars d'
  end.

Definition decimal (n : nat) : jsstring := uint_chars (Nat.to_uint n).

(** The value of a digit in the radix, 10 or 16. *)
Definition digit_of (radix : Z) (c : jschar) : option Z :=
  match hex_value c with
  | Some d => if d <? radix then Some d else None
  | None => None
  end.

(** The digits at the head of [s], read in the radix on top of [acc];
    [None] when there is no digit at all. *)
Fixpoint parse_digits (radix : Z) (s : jsstring) (acc : Z) (seen : bool)
  : option Z :=
  match s with
  | [] => if seen then Some acc else None
  | c :: s' =>
      match digit_of radix c with
      | Some d => parse_digits radix s' (acc * radix + d) true
      | None => if seen then Some acc else None
      end
  end.

(** [parseInt(string)] with no radix given: leading white space is
    skipped, then a sign, then [0x] or [0X] for radix 16, then the digits
    up to the first character that is none. [None] is [NaN]. The result
    is the mathematical integer; the double it is rounded to, and the
    sign of a zero, play no part where this is used. *)
Definition parseInt (string : jsstring) : option Z :=
  let s1 := trimStart string in
  let '(negative, s2) :=
    match s1 with
    | c :: rest =>
        if c =? 45 then (true, rest)
        else if c =? 43 then (false, rest)
        else (false, s1)
    | [] => (false, s1)
    end in
  let '(radix, s3) :=
    match s2 with
    | z :: x :: rest =>
        if (z =? 48) && ((x =? 120) || (x =? 88)) then (16, rest)
        else (10, s2)
    | _ => (10, s2)
    end in
  match parse_digits radix s3 0 false with
  | Some n => Some (if negative then - n else n)
  | None => None
  end.

End JSGlobals.

(* ===================================================================== *)
(** * src/services/auth.service.ts, the account methods *)
(* ===================================================================== *)

Module Account.
Import JS AuthService.

(** How a method settles when the outcome is its own: fulfilled with a
    value, or rejected with [new Error(message)] for a message that comes
    from the body of the response and is a JavaScript string. What [fetch]
    and [response.json()] reject with stays an exception of [Prog]. *)
Inductive Settled (A : Type) : Type :=
| Fulfilled (a : A)
| Failed (message : jsstring).

Arguments Fulfilled {A} a.
Arguments Failed {A} message.

Record LoginRequest : Type := mkLoginRequest {
  username : jsstring;
  password : jsstring
}.

Section Methods.
Context `{HostNumber}.

(** The message of [new Error(error.detail || fallback)]: the constructor
    converts its argument to a string, and throws when it cannot. *)
Definition detail_or (error : JSValue) (fallback : string) : Prog jsstring :=
  let* detail := get error "detail" in
  if ToBoolean detail then to_string detail else Ret (js fallback).

(** The request of [login]; the body stands for the two fields of the
    form data. *)
Definition login_request (credentials : LoginRequest) : Request :=
  {| url := (API_BASE_URL +:+ "/auth/login")%string;
     method := "POST";
     headers := [];
     body := Some (VObject [(js "username", VString (username credentials));
                            (js "password", VString (password credentials))]) |}.

Definition login (credentials : LoginRequest) : Prog (Settled JSValue) :=
  let* response := fetch (login_request credentials) in
  if negb (ok response) then
    let* error := response_json response in
    let* message := detail_or error "Login failed" in
    Ret (Failed message)
  else
    let* token := response_json response in
    let* _ := setTokens token in
    Ret (Fulfilled token).

Definition signup_request (userData : JSValue) : Request :=
  {| url := (API_BASE_URL +:+ "/auth/signup")%string;
     method := "POST";
     headers := [("Content-Type", js "application/json")];
     body := Some userData |}.

Definition signup (userData : JSValue) : Prog (Settled JSValue) :=
  let* response := fetch (signup_request userData) in
  if negb (ok response) then
    let* error := response_json response in
    let* message := detail_or error "Signup failed" in
    Ret (Failed message)
  else
    let* user := response_json response in
    Ret (Fulfilled user).

Definition update_request (token : option jsstring) (userData : JSValue)
  : Request :=
  {| url := (API_BASE_URL +:+ "/auth/me")%string;
     method := "PATCH";
     headers := [("Authorization", bearer token);
                 ("Content-Type", js "application/json")];
     body := Some userData |}.

Definition updateUser (userData : JSValue) : Prog (Settled JSValue) :=
  let* token := getToken in
  if negb (present token) then Throw (Error "No authentication token")
  else
    let* response := fetch (update_request token userData) in
    if negb (ok response) then
      let* error := response_json response in
      let* message := detail_or error "Update failed" in
      Ret (Failed message)
    else
      let* user := response_json response in
      Ret (Fulfilled user).

End Methods.

End Account.

(* ===================================================================== *)
(** * The requests of a call, in order *)
(* ===================================================================== *)

Module SessionTrace.
Import JS AuthService.

(** Requests that go to [/auth/me] and to [/auth/refresh] in turn,
    starting with the one named by [expect_me]. *)
Fixpoint alternating (expect_me : bool) (sent : list Request) : bool :=
  match sent with
  | [] => true
  | req :: sent' =>
      (if expect_me then is_me req else is_refresh req)
      && alternating (negb expect_me) sent'
  end.

Definition returned {A : Type} (o : Outcome A) : bool :=
  match o with
  | Returned _ => true
  | _ => false
  end.

End SessionTrace.

(* ===================================================================== *)
(** * src/contexts/AuthContext.tsx *)
(* ===================================================================== *)

Module AuthContext.
Import JS AuthService.

(** The state of the provider; [user] is [VNull] for [null]. *)
Record State : Type := mkState {
  user : JSValue;
  isLoading : bool
}.

Definition setUser (u : JSValue) (st : State) : State :=
  mkState u (isLoading st).

Definition setIsLoading (b : bool) (st : State) : State :=
  mkState (user st) b.

Section Provider.
Context `{HostNumber}.

(** [isAuthenticated: !!user] *)
Definition isAuthenticated (st : State) : bool := ToBoolean (user st).

Definition refreshUser (fuel : nat) (st : State) : Prog State :=
  try_catch
    (let* userData := await (getCurrentUser fuel) in
     Ret (setUser userData st))
    (fun _ => Ret (setUser VNull st)).

Definition initAuth (fuel : nat) (st : State) : Prog State :=
  let* authenticated := AuthService.isAuthenticated in
  let* st1 :=
    if authenticated then
      try_catch (await (refreshUser fuel st))
        (fun _ => let* _ := clearTokens in Ret st)
    else Ret st in
  Ret (setIsLoading false st1).

Definition login (fuel : nat) (credentials : Account.LoginRequest) (st : State)
  : Prog (Account.Settled State) :=
  let* logged := await (Account.login credentials) in
  match logged with
  | Account.Failed message => Ret (Account.Failed message)
  | Account.Fulfilled _ =>
      let* st1 := await (refreshUser fuel st) in
      Ret (Account.Fulfilled st1)
  end.

Definition logout (st : State) : Prog State :=
  let* _ := clearTokens in
  Ret (setUser VNull st).

Definition updateUser (userData : JSValue) (st : State)
  : Prog (Account.Settled State) :=
  let* updated := await (Account.updateUser userData) in
  match updated with
  | Account.Failed message => Ret (Account.Failed message)
  | Account.Fulfilled updatedUser => Ret (Account.Fulfilled (setUser updatedUser st))
  end.

End Provider.

End AuthContext.

(* ===================================================================== *)
(** * ChatInput and ChatSettingsModal *)
(* ===================================================================== *)

Module ChatInput.
Import JS.

(** [handleSubmit]: the argument of [onSendMessage] when it is called, and
    the text left in the input. *)
Definition handleSubmit (message : jsstring) (disabled : bool)
  : option jsstring * jsstring :=
  if truthy_string (trim message) && negb disabled
  then (Some (trim message), [])
  else (None, message).

End ChatInput.

Module ChatSettingsModal.
Import JS JSGlobals ChatWindow.

(** The [onChange] of the number of results:
    [Math.max(1, Math.min(20, parseInt(e.target.value) || 5))]. *)
Definition rag_k_of (value : jsstring) : Z :=
  Z.max 1 (Z.min 20 (match parseInt value with
                     | Some n => if n =? 0 then 5 else n
                     | None => 5
                     end)).

Definition with_rag_k (n : Z) (s : ChatSettings) : ChatSettings :=
  mkChatSettings (use_rag s) (decimal (Z.to_nat n)) (rag_threshold s).

(** The chat window with its settings modal: the settings in use, the
    settings being edited, and whether the modal is shown. *)
Record Component : Type := mkComponent {
  chatSettings : ChatSettings;
  localSettings : ChatSettings;
  showSettings : bool
}.

Definition defaults : ChatSettings :=
  mkChatSettings true (decimal 5) (js "0.7").

Definition initial : Component := mkComponent defaults defaults false.

(** What the user can do. [ChangeThreshold] carries the number that
    [parseFloat] has read from the slider, as a literal. *)
Inductive Action : Type :=
| Open
| ToggleRag (checked : bool)
| ChangeK (value : jsstring)
| ChangeThreshold (number : jsstring)
| Precise
| Balanced
| Broad
| handleReset
| handleSave
| Cancel.

Definition setLocalSettings (s : ChatSettings) (c : Component) : Component :=
  mkComponent (chatSettings c) s (showSettings c).

(** One action. The modal renders nothing while it is not shown, and the
    two inputs of the retrieval only while it is enabled. *)
Definition act (c : Component) (a : Action) : Component :=
  match a with
  | Open => mkComponent (chatSettings c) (localSettings c) true
  | _ =>
      if negb (showSettings c) then c
      else
        match a with
        | Open => c
        | ToggleRag checked =>
            setLocalSettings
              (mkChatSettings checked (rag_k (localSettings c))
                 (rag_threshold (localSettings c))) c
        | ChangeK value =>
            if use_rag (localSettings c)
            then setLocalSettings
                   (with_rag_k (rag_k_of value) (localSettings c)) c
            else c
        | ChangeThreshold number =>
            if use_rag (localSettings c)
            then setLocalSettings
                   (mkChatSettings (use_rag (localSettings c))
                      (rag_k (localSettings c)) number) c
            else c
        | Precise =>
            setLocalSettings (mkChatSettings true (decimal 3) (js "0.8")) c
        | Balanced =>
            setLocalSettings (mkChatSettings true (decimal 5) (js "0.7")) c
        | Broad =>
            setLocalSettings (mkChatSettings true (decimal 10) (js "0.5")) c
        | handleReset =>
            setLocalSettings (mkChatSettings true (decimal 5) (js "0.7")) c
        | handleSave => mkComponent (localSettings c) (localSettings c) false
        | Cancel => mkComponent (chatSettings c) (localSettings c) false
        end
  end.

(** A number of results within the bounds of the input. *)
Definition rag_k_in_range (s : ChatSettings) : Prop :=
  exists n : nat, (1 <= n <= 20)%nat /\ rag_k s = decimal n.

End ChatSettingsModal.

(* ===================================================================== *)
(** * src/components/ChatWindow.tsx, the history of the session *)
(* ===================================================================== *)

Module SessionHistory.
Import JS JSGlobals ChatWindow.

(** The response as far as [fetchSessionHistory] reads it: the status and
    [data.messages], [None] when the body cannot be read or holds no
    list of messages. A message without identifier has the empty one. *)
Record Response : Type := mkResponse {
  status : Z;
  data_messages : option (list ChatMessage)
}.

Definition ok (r : Response) : bool := (200 <=? status r) && (status r <=? 299).

Inductive FetchOutcome : Type :=
| Resolved (r : Response)
| Rejected (e : AuthService.Exception).

(** [{ ...msg, id: msg.id || generateMessageId() + `-${index}` }];
    [generated] is what [generateMessageId] returns for this message. *)
Definition with_unique_id (generated : nat -> jsstring) (index : nat)
  (msg : ChatMessage) : ChatMessage :=
  mkChatMessage
    (if truthy_string (id msg) then id msg
     else generated index ++ js "-" ++ decimal index)
    (type msg) (content msg).

Section History.
Context `{HostNumber}.

Definition history_request (apiBaseUrl threadId : string)
  (w : AuthService.World) : AuthService.Request :=
  AuthService.mkRequest (apiBaseUrl +:+ "/session/" +:+ threadId) "GET"
    (default [] (AuthService.sync AuthService.getAuthHeader w)) None.

(** [fetchSessionHistory]; every exception is caught and logged. *)
Definition fetchSessionHistory (apiBaseUrl threadId : string)
  (generated : nat -> jsstring) (outcome : FetchOutcome)
  (w : AuthService.World) (st : State) : State * AuthService.World :=
  let w1 := AuthService.send (history_request apiBaseUrl threadId w) w in
  match outcome with
  | Rejected _ => (st, w1)
  | Resolved response =>
      if ok response then
        match data_messages response with
        | Some msgs =>
            (setMessages (fun _ => imap (with_unique_id generated) msgs) st, w1)
        | None => (st, w1)
        end
      else (st, w1)
  end.

End History.

End SessionHistory.

(* ===================================================================== *)
(** * More sample data *)
(* ===================================================================== *)

Module Visits.
Import JS ChatWindow.

(** A store without credentials, and one with an access token only. *)
Definition signed_out_store : AuthService.World := AuthService.mkWorld ∅ [].

Definition access_only : AuthService.World :=
  AuthService.mkWorld (<[AuthService.TOKEN_KEY := js "a0"]> ∅) [].

(** A refresh that grants an access token and no refresh token. *)
Definition access_granted : AuthService.Response :=
  AuthService.mkResponse 200
    (Some (VObject [(js "access_token", VString (js "a1"))])).

Definition ada : Account.LoginRequest :=
  Account.mkLoginRequest (js "ada") (js "secret").

(** A saved session whose last two messages come without identifier. *)
Definition saved : SessionHistory.Response :=
  SessionHistory.mkResponse 200
    (Some [mkChatMessage (js "m1") human (js "hi");
           mkChatMessage [] ai (js "hello!");
           mkChatMessage [] human (js "bye")]).

(** A generator that returns the same identifier every time. *)
Definition stuck (_ : nat) : jsstring := js "msg-1".

(** A pair of credentials whose refresh token cannot be converted to a
    string: it is an object with a property [toString] of its own. *)
Definition unstorable : JSValue :=
  VObject [(js "access_token", VString (js "a1"));
           (js "refresh_token", VObject [(js "toString", VNumber (js "1"))])].

Definition unstorable_granted : AuthService.Response :=
  AuthService.mkResponse 200 (Some unstorable).

(** A stream of one delta whose content cannot be converted to a string. *)
Definition poisoned_stream : list byte :=
  wire "data: {'content':{'toString':1}}" ++ Samples.NL.

(** A stream of one line whose payload is not JSON. *)
Definition raw_stream : list byte :=
  wire "data:  not-json " ++ Samples.NL.

(** A stream that ends in the middle of its second event. *)
Definition cut_stream : list byte :=
  wire "data: {'content':'Hel'}" ++ Samples.NL ++ wire "data: {'content':'lo'}".

End Visits.

(* ===================================================================== *)
(** * The parser does not depend on its fuel *)
(* ===================================================================== *)

Section Fuel.
Import JS.

Lemma skip_ws_length (s : jsstring) : (length (skip_ws s) <= length s)%nat.
Proof.
  induction s as [|c s IH]; cbn; [lia|].
  destruct (is_json_whitespace c); cbn; lia.
Qed.

Lemma push_char_length (c : jschar) (r : option (jsstring * jsstring))
  (n : nat) (str rest : jsstring) :
  (forall str' rest', r = Some (str', rest') -> (length rest' <= n)%nat) ->
  push_char c r = Some (str, rest) -> (length rest <= n)%nat.
Proof.
  intros Hr. destruct r as [[str' rest']|]; cbn; [|discriminate].
  intros E. inversion E; subst. now apply (Hr str').
Qed.

Lemma lex_string_length (s str rest : jsstring) :
  lex_string s = Some (str, rest) -> (length rest < length s)%nat.
Proof.
  revert str rest.
  induction s as [s IH] using (induction_ltof1 _ (@length jschar)).
  unfold ltof in IH. intros str rest.
  destruct s as [|c s]; cbn [lex_string]; [discriminate|].
  destruct (c =? 34).
  { intros E. inversion E; subst. cbn. lia. }
  destruct (c =? 92).
  - destruct s as [|e s1]; [discriminate|].
    destruct (e =? 117).
    + destruct s1 as [|h1 [|h2 [|h3 [|h4 s2]]]]; try discriminate.
      destruct (hex4 h1 h2 h3 h4); [|discriminate].
      intros E. cbn [length].
      enough (length rest <= length s2)%nat by lia.
      eapply push_char_length; [|exact E].
      intros str' rest' E'. apply IH in E'; cbn [length] in *; lia.
    + destruct (simple_escape e); [|discriminate].
      intros E. cbn [length].
      enough (length rest <= length s1)%nat by lia.
      eapply push_char_length; [|exact E].
      intros str' rest' E'. apply IH in E'; cbn [length] in *; lia.
  - destruct (c <? 32); [discriminate|].
    intros E. cbn [length].
    enough (length rest <= length s)%nat by lia.
    eapply push_char_length; [|exact E].
    intros str' rest' E'. apply IH in E'; cbn [length] in *; lia.
Qed.

Lemma span_digits_length (s ds rest : jsstring) :
  span_digits s = (ds, rest) -> (length rest <= length s)%nat.
Proof.
  revert ds rest. induction s as [|c s IH]; intros ds rest; cbn.
  - intros E. inversion E. cbn. lia.
  - destruct (is_digit c).
    + destruct (span_digits s) as [ds' rest'] eqn:Es.
      intros E. inversion E; subst. specialize (IH _ _ eq_refl). lia.
    + intros E. inversion E; subst. cbn. lia.
Qed.

Lemma lex_digits1_length (s ds rest : jsstring) :
  lex_digits1 s = Some (ds, rest) -> (length rest <= length s)%nat.
Proof.
  unfold lex_digits1. destruct (span_digits s) as [[|d ds'] rest'] eqn:Es;
    [discriminate|].
  intros E. inversion E; subst. now apply span_digits_length in Es.
Qed.

Lemma lex_number_length (s n rest : jsstring) :
  lex_number s = Some (n, rest) -> (length rest <= length s)%nat.
Proof.
  unfold lex_number.
  set (m := match s with
            | c :: s' => if c =? 45 then ([c], s') else ([], s)
            | [] => ([], s)
            end).
  assert (Hm : (length (snd m) <= length s)%nat).
  { subst m. destruct s as [|c s']; cbn; [lia|].
    destruct (c =? 45); cbn; lia. }
  destruct m as [minus s1]. cbn [snd] in Hm.
  destruct (lex_int s1) as [[i s2]|] eqn:Ei; [|discriminate].
  assert (H2 : (length s2 <= length s1)%nat).
  { unfold lex_int in Ei. destruct s1 as [|c s1']; [discriminate|].
    destruct (c =? 48).
    - inversion Ei; subst. cbn. lia.
    - destruct (is_digit c); [|discriminate].
      destruct (span_digits s1') as [ds r] eqn:Es. inversion Ei; subst.
      apply span_digits_length in Es. cbn. lia. }
  destruct (lex_frac s2) as [[f s3]|] eqn:Ef; [|discriminate].
  assert (H3 : (length s3 <= length s2)%nat).
  { unfold lex_frac in Ef. destruct s2 as [|c s2'].
    - inversion Ef; subst. cbn. lia.
    - destruct (c =? 46).
      + destruct (lex_digits1 s2') as [[ds r]|] eqn:Ed; [|discriminate].
        inversion Ef; subst. apply lex_digits1_length in Ed. cbn. lia.
      + inversion Ef; subst. cbn. lia. }
  destruct (lex_exp s3) as [[e s4]|] eqn:Ee; [|discriminate].
  assert (H4 : (length s4 <= length s3)%nat).
  { unfold lex_exp in Ee. destruct s3 as [|c s3'].
    - inversion Ee; subst. cbn. lia.
    - destruct ((c =? 101) || (c =? 69)).
      + set (g := match s3' with
                  | g :: t => if (g =? 43) || (g =? 45) then ([g], t) else ([], s3')
                  | [] => ([], s3')
                  end) in Ee.
        assert (Hg : (length (snd g) <= length s3')%nat).
        { subst g. destruct s3' as [|g t]; cbn; [lia|].
          destruct ((g =? 43) || (g =? 45)); cbn; lia. }
        destruct g as [sign s'']. cbn [snd] in Hg.
        destruct (lex_digits1 s'') as [[ds r]|] eqn:Ed; [|discriminate].
        inversion Ee; subst. apply lex_digits1_length in Ed. cbn. lia.
      + inversion Ee; subst. cbn. lia. }
  intros E. inversion E; subst. lia.
Qed.

Lemma parse_length (fuel : nat) :
  (forall s v r, parse_value fuel s = Some (v, r) ->
     (length r <= length s)%nat) /\
  (forall acc s v r, parse_elements fuel acc s = Some (v, r) ->
     (length r <= length s)%nat) /\
  (forall acc s v r, parse_members fuel acc s = Some (v, r) ->
     (length r <= length s)%nat).
Proof.
  induction fuel as [|fuel (IHv & IHe & IHm)];
    [repeat split; intros; discriminate|].
  split; [|split].
  - intros s v r. cbn [parse_value].
    pose proof (skip_ws_length s) as Hs.
    destruct (skip_ws s) as [|c rest]; [discriminate|]. cbn [length] in Hs.
    destruct (c =? 123).
    { pose proof (skip_ws_length rest) as Hr.
      destruct (skip_ws rest) as [|d rest']; [discriminate|].
      destruct (d =? 125).
      - intros E. inversion E; subst. cbn [length] in Hr. lia.
      - intros E. apply IHm in E. lia. }
    destruct (c =? 91).
    { pose proof (skip_ws_length rest) as Hr.
      destruct (skip_ws rest) as [|d rest']; [discriminate|].
      destruct (d =? 93).
      - intros E. inversion E; subst. cbn [length] in Hr. lia.
      - intros E. apply IHe in E. lia. }
    destruct (c =? 34).
    { destruct (lex_string rest) as [[str rest']|] eqn:El; [|discriminate].
      intros E. inversion E; subst. apply lex_string_length in El. lia. }
    destruct (startsWith (c :: rest) (js "true")).
    { intros E. inversion E; subst. rewrite length_skipn. cbn [length]. lia. }
    destruct (startsWith (c :: rest) (js "false")).
    { intros E. inversion E; subst. rewrite length_skipn. cbn [length]. lia. }
    destruct (startsWith (c :: rest) (js "null")).
    { intros E. inversion E; subst. rewrite length_skipn. cbn [length]. lia. }
    destruct (lex_number (c :: rest)) as [[n rest']|] eqn:En; [|discriminate].
    intros E. inversion E; subst. apply lex_number_length in En.
    cbn [length] in En. lia.
  - intros acc s v r. cbn [parse_elements].
    destruct (parse_value fuel s) as [[v' rest]|] eqn:Ev; [|discriminate].
    apply IHv in Ev.
    pose proof (skip_ws_length rest) as Hr.
    destruct (skip_ws rest) as [|c rest']; [discriminate|]. cbn [length] in Hr.
    destruct (c =? 44).
    { intros E. apply IHe in E. lia. }
    destruct (c =? 93); [|discriminate].
    intros E. inversion E; subst. lia.
  - intros acc s v r. cbn [parse_members].
    pose proof (skip_ws_length s) as Hs.
    destruct (skip_ws s) as [|q s1]; [discriminate|]. cbn [length] in Hs.
    destruct (negb (q =? 34)); [discriminate|].
    destruct (lex_string s1) as [[key s2]|] eqn:El; [|discriminate].
    apply lex_string_length in El.
    pose proof (skip_ws_length s2) as Hs2.
    destruct (skip_ws s2) as [|colon s3]; [discriminate|]. cbn [length] in Hs2.
    destruct (negb (colon =? 58)); [discriminate|].
    destruct (parse_value fuel s3) as [[v' rest]|] eqn:Ev; [|discriminate].
    apply IHv in Ev.
    pose proof (skip_ws_length rest) as Hr.
    destruct (skip_ws rest) as [|c rest']; [discriminate|]. cbn [length] in Hr.
    destruct (c =? 44).
    { intros E. apply IHm in E. lia. }
    destruct (c =? 125); [|discriminate].
    intros E. inversion E; subst. lia.
Qed.

(** One more unit of fuel changes nothing once the fuel is twice the
    length of the text and two (three inside an array or an object, which
    are entered after a bracket has been read). *)
Lemma parse_fuel_step (fuel : nat) :
  (forall s, (2 * length s + 2 <= fuel)%nat ->
     parse_value (S fuel) s = parse_value fuel s) /\
  (forall acc s, (2 * length s + 3 <= fuel)%nat ->
     parse_elements (S fuel) acc s = parse_elements fuel acc s) /\
  (forall acc s, (2 * length s + 3 <= fuel)%nat ->
     parse_members (S fuel) acc s = parse_members fuel acc s).
Proof.
  induction fuel as [|fuel (IHv & IHe & IHm)];
    [repeat split; intros; lia|].
  split; [|split].
  - intros s Hf.
    change (parse_value (S (S fuel)) s) with
      (match skip_ws s with
       | [] => None
       | c :: rest =>
           if c =? 123 then
             match skip_ws rest with
             | [] => None
             | d :: rest' =>
                 if d =? 125 then Some (VObject [], rest')
                 else parse_members (S fuel) [] (d :: rest')
             end
           else if c =? 91 then
             match skip_ws rest with
             | [] => None
             | d :: rest' =>
                 if d =? 93 then Some (VArray [], rest')
                 else parse_elements (S fuel) [] (d :: rest')
             end
           else if c =? 34 then
             match lex_string rest with
             | Some (str, rest') => Some (VString str, rest')
             | None => None
             end
           else if startsWith (c :: rest) (js "true") then
             Some (VBoolean true, skipn 4 (c :: rest))
           else if startsWith (c :: rest) (js "false") then
             Some (VBoolean false, skipn 5 (c :: rest))
           else if startsWith (c :: rest) (js "null") then
             Some (VNull, skipn 4 (c :: rest))
           else
             match lex_number (c :: rest) with
             | Some (n, rest') => Some (VNumber n, rest')
             | None => None
             end
       end).
    cbn [parse_value].
    pose proof (skip_ws_length s) as Hs.
    destruct (skip_ws s) as [|c rest]; [reflexivity|]. cbn [length] in Hs.
    destruct (c =? 123).
    { pose proof (skip_ws_length rest) as Hr.
      destruct (skip_ws rest) as [|d rest']; [reflexivity|].
      destruct (d =? 125); [reflexivity|]. apply IHm. lia. }
    destruct (c =? 91); [|reflexivity].
    pose proof (skip_ws_length rest) as Hr.
    destruct (skip_ws rest) as [|d rest']; [reflexivity|].
    destruct (d =? 93); [reflexivity|]. apply IHe. lia.
  - intros acc s Hf.
    change (parse_elements (S (S fuel)) acc s) with
      (match parse_value (S fuel) s with
       | None => None
       | Some (v, rest) =>
           match skip_ws rest with
           | [] => None
           | c :: rest' =>
               if c =? 44 then parse_elements (S fuel) (v :: acc) rest'
               else if c =? 93 then Some (VArray (rev (v :: acc)), rest')
               else None
           end
       end).
    cbn [parse_elements].
    rewrite IHv by lia.
    destruct (parse_value fuel s) as [[v rest]|] eqn:Ev; [|reflexivity].
    apply (proj1 (parse_length fuel)) in Ev.
    pose proof (skip_ws_length rest) as Hr.
    destruct (skip_ws rest) as [|c rest']; [reflexivity|]. cbn [length] in Hr.
    destruct (c =? 44); [|reflexivity]. apply IHe. lia.
  - intros acc s Hf.
    change (parse_members (S (S fuel)) acc s) with
      (match skip_ws s with
       | [] => None
       | q :: s1 =>
           if negb (q =? 34) then None
           else
             match lex_string s1 with
             | None => None
             | Some (key, s2) =>
                 match skip_ws s2 with
                 | [] => None
                 | colon :: s3 =>
                     if negb (colon =? 58) then None
                     else
                       match parse_value (S fuel) s3 with
                       | None => None
                       | Some (v, rest) =>
                           match skip_ws rest with
                           | [] => None
                           | c :: rest' =>
                               if c =? 44 then
                                 parse_members (S fuel) ((key, v) :: acc) rest'
                               else if c =? 125 then
                                 Some (VObject (rev ((key, v) :: acc)), rest')
                               else None
                           end
                       end
                 end
             end
       end).
    cbn [parse_members].
    pose proof (skip_ws_length s) as Hs.
    destruct (skip_ws s) as [|q s1]; [reflexivity|]. cbn [length] in Hs.
    destruct (negb (q =? 34)); [reflexivity|].
    destruct (lex_string s1) as [[key s2]|] eqn:El; [|reflexivity].
    apply lex_string_length in El.
    pose proof (skip_ws_length s2) as Hs2.
    destruct (skip_ws s2) as [|colon s3]; [reflexivity|]. cbn [length] in Hs2.
    destruct (negb (colon =? 58)); [reflexivity|].
    rewrite IHv by lia.
    destruct (parse_value fuel s3) as [[v rest]|] eqn:Ev; [|reflexivity].
    apply (proj1 (parse_length fuel)) in Ev.
    pose proof (skip_ws_length rest) as Hr.
    destruct (skip_ws rest) as [|c rest']; [reflexivity|]. cbn [length] in Hr.
    destruct (c =? 44); [|reflexivity]. apply IHm. lia.
Qed.

(** [JSON.parse] is the parser with any fuel from its own upwards: a text
    is never rejected for a lack of fuel. *)
Lemma JSON_parse_fuel (text : jsstring) (fuel : nat) :
  (2 * length text + 2 <= fuel)%nat ->
  parse_text fuel text = JSON_parse text.
Proof.
  intros Hf. unfold JSON_parse.
  induction Hf as [|fuel Hf IH]; [reflexivity|].
  unfold parse_text in *.
  now rewrite (proj1 (parse_fuel_step fuel) text Hf).
Qed.

End Fuel.

(* ===================================================================== *)
(** * Properties of the reading loop *)
(* ===================================================================== *)

Section Decoding.
Import JS.

Lemma decode_stream_app (d : Utf8Decoder) (a b : list byte) :
  decode_stream d (a ++ b) =
  let '(d1, s1) := decode_stream d a in
  let '(d2, s2) := decode_stream d1 b in
  (d2, s1 ++ s2).
Proof.
  revert d. induction a as [|x a IH]; intros d; simpl.
  - destruct (decode_stream d b); reflexivity.
  - destruct (decode_byte d x) as [d1 s1].
    rewrite IH.
    destruct (decode_stream d1 a) as [d2 s2].
    destruct (decode_stream d2 b) as [d3 s3].
    now rewrite app_assoc.
Qed.

Lemma split_lf_not_nil (s : jsstring) : split_lf s <> [].
Proof.
  destruct s as [|c s]; simpl; [discriminate|].
  destruct (c =? LF); [discriminate|].
  destruct (split_lf s); discriminate.
Qed.

Lemma split_lf_no_lf (s : jsstring) : ~ In LF s -> split_lf s = [s].
Proof.
  induction s as [|c s IH]; intros Hs; simpl; [reflexivity|].
  destruct (Z.eqb_spec c LF) as [->|Hc].
  - exfalso. apply Hs. now left.
  - rewrite IH; [reflexivity|]. intros Hin. apply Hs. now right.
Qed.

Lemma split_lf_pieces (s : jsstring) :
  Forall (fun piece => ~ In LF piece) (split_lf s).
Proof.
  induction s as [|c s IH]; simpl.
  - constructor; [intros []|constructor].
  - destruct (Z.eqb_spec c LF) as [->|Hc].
    + constructor; [intros []|exact IH].
    + destruct (split_lf s) as [|piece pieces].
      * constructor; [|constructor]. intros [->|[]]. now apply Hc.
      * inversion IH as [|? ? Hp Hps]; subst.
        constructor; [|exact Hps].
        intros [->|Hin]; [now apply Hc|now apply Hp].
Qed.

Lemma carry_no_lf (s : jsstring) : ~ In LF (carry s).
Proof.
  unfold carry.
  pose proof (split_lf_pieces s) as HF.
  destruct (last (split_lf s)) as [l|] eqn:Hl; simpl; [|intros []].
  rewrite Forall_forall in HF. apply HF.
  apply last_Some_elem_of. exact Hl.
Qed.

Lemma removelast_cons2 {A : Type} (x y : A) (l : list A) :
  removelast (x :: y :: l) = x :: removelast (y :: l).
Proof. reflexivity. Qed.

Lemma split_lf_app (a b : jsstring) :
  split_lf (a ++ b) = removelast (split_lf a) ++ split_lf (carry a ++ b).
Proof.
  unfold carry.
  induction a as [|c a IH]; [reflexivity|].
  cbn [app split_lf].
  destruct (Z.eqb_spec c LF) as [->|Hc].
  - rewrite IH.
    destruct (split_lf a) as [|p ps] eqn:Ha; [now destruct (split_lf_not_nil a)|].
    reflexivity.
  - rewrite IH.
    destruct (split_lf a) as [|p ps] eqn:Ha; [now destruct (split_lf_not_nil a)|].
    destruct ps as [|p2 ps].
    + cbn. destruct (Z.eqb_spec c LF) as [->|_]; [now destruct Hc|]. reflexivity.
    + rewrite !removelast_cons2. cbn [app].
      rewrite !last_cons_cons. reflexivity.
Qed.

End Decoding.

Section ReadingLoop.
Import JS ChatWindow.
Context `{HostNumber}.

Lemma pop_or_empty_last (lines : list jsstring) :
  pop_or_empty lines = default [] (last lines).
Proof.
  unfold pop_or_empty. destruct (last lines) as [[|c l]|]; reflexivity.
Qed.

Lemma last_app_cons {A : Type} (l1 l2 : list A) :
  l2 <> [] -> last (l1 ++ l2) = last l2.
Proof.
  intros Hne. destruct l2 as [|x l2]; [now destruct Hne|].
  induction l1 as [|y l1 IH]; [reflexivity|].
  cbn [app]. destruct (l1 ++ x :: l2) eqn:E.
  - destruct l1; discriminate.
  - rewrite last_cons_cons. exact IH.
Qed.

Lemma carry_app (a b : jsstring) : carry (a ++ b) = carry (carry a ++ b).
Proof.
  unfold carry at 1 2. rewrite split_lf_app.
  now rewrite last_app_cons by apply split_lf_not_nil.
Qed.

(** The loop, started anywhere between two reads, does to the state what
    the inner [for] does on the finished lines of the whole text, and is
    left with the unfinished one. *)
Lemma read_loop_from {S : Type} (handle : S -> jsstring -> S)
  (values : list (list byte)) (d : Utf8Decoder) (buf : jsstring) (st : S) :
  ~ In LF buf ->
  fold_left (on_chunk handle) values (mkReader d buf, st) =
  let '(d', text) := decode_stream d (concat values) in
  (mkReader d' (carry (buf ++ text)),
   fold_left handle (removelast (split_lf (buf ++ text))) st).
Proof.
  revert d buf st. induction values as [|v values IH]; intros d buf st Hbuf.
  - cbn. rewrite app_nil_r. unfold carry.
    rewrite (split_lf_no_lf buf Hbuf). reflexivity.
  - cbn [fold_left concat]. unfold on_chunk at 2. cbn [decoder buffer].
    rewrite decode_stream_app.
    destruct (decode_stream d v) as [d1 t1].
    rewrite pop_or_empty_last. fold (carry (buf ++ t1)).
    rewrite IH by apply carry_no_lf.
    destruct (decode_stream d1 (concat values)) as [d2 t2].
    rewrite (app_assoc buf t1 t2).
    rewrite (split_lf_app (buf ++ t1) t2).
    rewrite (carry_app (buf ++ t1) t2).
    f_equal.
    rewrite removelast_app by apply split_lf_not_nil.
    now rewrite fold_left_app.
Qed.

Lemma read_loop_text {S : Type} (handle : S -> jsstring -> S)
  (values : list (list byte)) (st : S) :
  read_loop handle values st =
  let '(d, text) := decode_stream new_TextDecoder (concat values) in
  (mkReader d (carry text), fold_left handle (removelast (split_lf text)) st).
Proof.
  unfold read_loop. rewrite read_loop_from by (intros []). reflexivity.
Qed.

(** Only the bytes count, not the way they are cut. *)
Lemma read_loop_concat {S : Type} (handle : S -> jsstring -> S)
  (values : list (list byte)) (st : S) :
  read_loop handle values st = read_loop handle [concat values] st.
Proof.
  rewrite !read_loop_text. cbn [concat]. now rewrite app_nil_r.
Qed.

Lemma fold_log_delta (lines : list jsstring) (log : list JSValue) :
  fold_left log_delta lines log = log ++ omap delta_of_line lines.
Proof.
  revert log. induction lines as [|l lines IH]; intros log; cbn.
  - now rewrite app_nil_r.
  - rewrite IH. unfold log_delta.
    destruct (delta_of_line l); cbn; [|now rewrite app_nil_r].
    now rewrite <- app_assoc.
Qed.

Lemma deltas_concat (values : list (list byte)) :
  deltas values = deltas [concat values].
Proof. unfold deltas. now rewrite (read_loop_concat log_delta values). Qed.

Lemma deltas_text (values : list (list byte)) :
  deltas values =
  omap delta_of_line
    (removelast (split_lf (snd (decode_stream new_TextDecoder (concat values))))).
Proof.
  unfold deltas. rewrite read_loop_text.
  destruct (decode_stream new_TextDecoder (concat values)) as [d text].
  cbn [snd]. now rewrite fold_log_delta.
Qed.

(** *** The transcript under a line *)

Lemma jsstring_eqb_eq (a b : jsstring) : jsstring_eqb a b = true <-> a = b.
Proof.
  revert b. induction a as [|x a IH]; intros [|y b]; cbn; try easy.
  rewrite andb_true_iff, Z.eqb_eq, IH. split.
  - now intros [-> ->].
  - intros E. now inversion E.
Qed.

Lemma append_content_nil (aid : jsstring) (ms : list ChatMessage) :
  append_content aid [] ms = ms.
Proof.
  unfold append_content. induction ms as [|[i t c] ms IH]; cbn; [reflexivity|].
  rewrite IH. destruct (jsstring_eqb i aid); [|reflexivity].
  now rewrite app_nil_r.
Qed.

Lemma append_content_app (aid t1 t2 : jsstring) (ms : list ChatMessage) :
  append_content aid t2 (append_content aid t1 ms) =
  append_content aid (t1 ++ t2) ms.
Proof.
  unfold append_content. rewrite map_map. apply map_ext. intros [i t c]. cbn.
  destruct (jsstring_eqb i aid) eqn:E; cbn; rewrite E; [|reflexivity].
  now rewrite app_assoc.
Qed.

(** The updater of a value that can be converted is the updater of its
    text. *)
Lemma append_value_text (aid : jsstring) (v : JSValue) (text : jsstring)
  (ms : list ChatMessage) :
  ToString v = Some text ->
  append_value aid v ms = Some (append_content aid text ms).
Proof.
  intros Hv. unfold append_content.
  induction ms as [|m ms IH]; cbn; [reflexivity|].
  rewrite IH, Hv. destruct (jsstring_eqb (id m) aid); reflexivity.
Qed.

(** It converts nothing where no message carries the identifier. *)
Lemma append_value_absent (aid : jsstring) (v : JSValue) (ms : list ChatMessage) :
  List.Forall (fun m => id m <> aid) ms -> append_value aid v ms = Some ms.
Proof.
  induction 1 as [|m ms Hm _ IH]; cbn; [reflexivity|].
  rewrite IH. destruct (jsstring_eqb (id m) aid) eqn:E; [|reflexivity].
  apply jsstring_eqb_eq in E. contradiction.
Qed.

(** It throws where a message carries the identifier and the value
    cannot be converted. *)
Lemma append_value_throws (aid : jsstring) (v : JSValue) (ms : list ChatMessage) :
  ToString v = None -> List.Exists (fun m => id m = aid) ms ->
  append_value aid v ms = None.
Proof.
  intros Hv. induction 1 as [m ms Hm|m ms _ IH]; cbn.
  - apply jsstring_eqb_eq in Hm. now rewrite Hm, Hv.
  - rewrite IH. now destruct (if jsstring_eqb (id m) aid then _ else _).
Qed.

Lemma append_value_carried (aid : jsstring) (v : JSValue)
  (ms ms' : list ChatMessage) :
  append_value aid v ms = Some ms' ->
  List.Exists (fun m => id m = aid) ms ->
  List.Exists (fun m => id m = aid) ms'.
Proof.
  revert ms'. induction ms as [|m ms IH]; intros ms' E Hex; [inversion Hex|].
  cbn in E.
  destruct (jsstring_eqb (id m) aid) eqn:Em.
  - destruct (ToString v) as [text|]; [|discriminate].
    destruct (append_value aid v ms) as [rest|]; [|discriminate].
    injection E as <-. left. cbn. now apply jsstring_eqb_eq.
  - destruct (append_value aid v ms) as [rest|]; [|discriminate].
    injection E as <-. right. apply IH; [reflexivity|].
    inversion Hex as [? ? Hm|? ? Hms]; [|exact Hms].
    apply jsstring_eqb_eq in Hm. congruence.
Qed.

Lemma append_values_none (aid : jsstring) (vs : list JSValue) :
  fold_left
    (fun view v =>
       match view with
       | Some ms => append_value aid v ms
       | None => None
       end) vs None = None.
Proof. induction vs as [|v vs IH]; [reflexivity|exact IH]. Qed.

Lemma append_values_cons (aid : jsstring) (v : JSValue) (vs : list JSValue)
  (ms : list ChatMessage) :
  append_values aid (v :: vs) ms =
  match append_value aid v ms with
  | Some ms' => append_values aid vs ms'
  | None => None
  end.
Proof.
  unfold append_values. cbn [fold_left].
  destruct (append_value aid v ms); [reflexivity|apply append_values_none].
Qed.

(** When every delta can be converted, the updaters together append the
    texts, concatenated. *)
Lemma append_values_texts (aid : jsstring) (vs : list JSValue)
  (texts : list jsstring) (ms : list ChatMessage) :
  mapM ToString vs = Some texts ->
  append_values aid vs ms = Some (append_content aid (concat texts) ms).
Proof.
  revert texts ms. induction vs as [|v vs IH]; intros texts ms E.
  - cbn in E. injection E as <-. cbn. now rewrite append_content_nil.
  - rewrite append_values_cons. cbn in E.
    destruct (ToString v) as [t|] eqn:Ev; [|discriminate].
    destruct (mapM ToString vs) as [ts|] eqn:Evs; [|discriminate].
    cbn in E. injection E as <-.
    rewrite (append_value_text aid v t ms Ev), (IH ts _ eq_refl).
    cbn [concat]. now rewrite append_content_app.
Qed.

Lemma append_values_absent (aid : jsstring) (vs : list JSValue)
  (ms : list ChatMessage) :
  List.Forall (fun m => id m <> aid) ms -> append_values aid vs ms = Some ms.
Proof.
  intros Hno. induction vs as [|v vs IH]; [reflexivity|].
  rewrite append_values_cons. now rewrite append_value_absent.
Qed.

(** When a message carries the identifier, the updaters go through
    exactly when every delta can be converted. *)
Lemma append_values_throws (aid : jsstring) (vs : list JSValue)
  (ms : list ChatMessage) :
  List.Exists (fun m => id m = aid) ms -> mapM ToString vs = None ->
  append_values aid vs ms = None.
Proof.
  revert ms. induction vs as [|v vs IH]; intros ms Hex E; [discriminate|].
  rewrite append_values_cons. cbn in E.
  destruct (ToString v) as [t|] eqn:Ev.
  - destruct (append_value aid v ms) as [ms'|] eqn:Ea; [|reflexivity].
    apply IH; [exact (append_value_carried aid v ms ms' Ea Hex)|].
    destruct (mapM ToString vs); [discriminate|reflexivity].
  - now rewrite append_value_throws.
Qed.

Lemma messages_on_line (aid : jsstring) (st : State) (line : jsstring) :
  option_map messages (on_line aid st line) =
  match delta_of_line line with
  | Some v => append_value aid v (messages st)
  | None => Some (messages st)
  end.
Proof.
  unfold on_line, delta_of_line, try_chunk.
  destruct (startsWith line (js "data: ")); [|reflexivity].
  destruct (truthy_string (trim (slice 6 line))); [|reflexivity].
  destruct (JSON_parse (trim (slice 6 line))) as [chunk|].
  - destruct (Get chunk (js "content")) as [c|].
    + destruct (ToBoolean c && _); [|reflexivity].
      unfold setMessages_or_unmount. cbn [messages setIsWaitingForResponse].
      destruct (append_value aid c (messages st)); reflexivity.
    + cbn. symmetry. now apply append_value_text.
  - cbn. symmetry. now apply append_value_text.
Qed.

Lemma fold_on_line_unmounted (aid : jsstring) (lines : list jsstring) :
  fold_left (on_line_of_view aid) lines None = None.
Proof. induction lines as [|l lines IH]; [reflexivity|exact IH]. Qed.

Lemma omap_delta_cons (l : jsstring) (lines : list jsstring) :
  omap delta_of_line (l :: lines) =
  match delta_of_line l with
  | Some v => v :: omap delta_of_line lines
  | None => omap delta_of_line lines
  end.
Proof. reflexivity. Qed.

Lemma messages_fold_on_line (aid : jsstring) (lines : list jsstring) (st : State) :
  option_map messages (fold_left (on_line_of_view aid) lines (Some st)) =
  append_values aid (omap delta_of_line lines) (messages st).
Proof.
  revert st. induction lines as [|l lines IH]; intros st; [reflexivity|].
  cbn [fold_left on_line_of_view]. rewrite omap_delta_cons.
  pose proof (messages_on_line aid st l) as E.
  destruct (on_line aid st l) as [st'|]; cbn [option_map] in E.
  - rewrite IH.
    destruct (delta_of_line l) as [v|].
    + rewrite append_values_cons, <- E. reflexivity.
    + injection E as ->. reflexivity.
  - rewrite fold_on_line_unmounted. cbn [option_map].
    destruct (delta_of_line l) as [v|]; [|discriminate].
    now rewrite append_values_cons, <- E.
Qed.

(** The transcript after the loop: the updater of every delta of the
    stream has run, in order. *)
Lemma messages_read_all (aid : jsstring) (values : list (list byte)) (st : State) :
  option_map messages (snd (read_all aid values st)) =
  append_values aid (deltas values) (messages st).
Proof.
  rewrite deltas_text. unfold read_all. rewrite read_loop_text.
  destruct (decode_stream new_TextDecoder (concat values)) as [d text].
  cbn [snd]. apply messages_fold_on_line.
Qed.

End ReadingLoop.

(* ===================================================================== *)
(** * Properties of the session refresh *)
(* ===================================================================== *)

Section Running.
Import JS AuthService.

Lemma run_bind {A B : Type} (p : Prog A) (f : A -> Prog B)
  (script : list FetchOutcome) (w : World) :
  run (bind p f) script w =
  match run p script w with
  | (Returned a, script', w') => run (f a) script' w'
  | (Thrown e, script', w') => (Thrown e, script', w')
  | (Diverged, script', w') => (Diverged, script', w')
  end.
Proof.
  revert script w.
  induction p as [a|e| |key k IH|key v k IH|key k IH|req k IH|r k IH|k IH];
    intros script w; cbn; try reflexivity; try apply IH.
  destruct (answer script) as [o script']. apply IH.
Qed.

Lemma run_try_catch {A : Type} (p : Prog A) (h : Exception -> Prog A)
  (script : list FetchOutcome) (w : World) :
  run (try_catch p h) script w =
  match run p script w with
  | (Thrown e, script', w') => run (h e) script' w'
  | r => r
  end.
Proof.
  revert script w.
  induction p as [a|e| |key k IH|key v k IH|key k IH|req k IH|r k IH|k IH];
    intros script w; cbn; try reflexivity; try apply IH.
  destruct (answer script) as [o script']. apply IH.
Qed.

(** Run on its own, a call does not feel the suspension of [await]. *)
Lemma run_await {A : Type} (p : Prog A) (script : list FetchOutcome) (w : World) :
  run (await p) script w = run p script w.
Proof.
  revert script w.
  induction p as [a|e| |key k IH|key v k IH|key k IH|req k IH|r k IH|k IH];
    intros script w; cbn; try reflexivity; try apply IH.
  destruct (answer script) as [o script']. apply IH.
Qed.

(** A call only adds to the requests sent. *)
Lemma run_requests {A : Type} (p : Prog A) (script : list FetchOutcome) (w : World) :
  exists more, requests (snd (run p script w)) = requests w ++ more.
Proof.
  revert script w.
  induction p as [a|e| |key k IH|key v k IH|key k IH|req k IH|r k IH|k IH];
    intros script w; cbn; try (exists []; now rewrite app_nil_r); try apply IH.
  - destruct (IH script (storage_set key v w)) as [more E]. now exists more.
  - destruct (IH script (storage_remove key w)) as [more E]. now exists more.
  - destruct (answer script) as [o script'].
    destruct (IH o script' (send req w)) as [more E].
    exists (req :: more). rewrite E. cbn. now rewrite <- app_assoc.
Qed.

(** A call run alone is the event loop with that single call. *)
Lemma run_is_one_call_alone {A : Type} (p : Prog A)
  (script : list FetchOutcome) (w : World) :
  exists n,
    rounds n [(Ready p, script)] w =
    (let '(o, script', w') := run p script w in ([(Finished o, script')], w')).
Proof.
  revert script w.
  induction p as [a|e| |key k IH|key v k IH|key k IH|req k IH|r k IH|k IH];
    intros script w; try (exists 1%nat; reflexivity).
  - destruct (IH (storage_get key w) script w) as [[|n] E].
    + cbn in E. destruct (run _ script w) as [[? ?] ?]. discriminate.
    + exists (S n). exact E.
  - destruct (IH script (storage_set key v w)) as [[|n] E].
    + cbn in E. destruct (run _ script _) as [[? ?] ?]. discriminate.
    + exists (S n). exact E.
  - destruct (IH script (storage_remove key w)) as [[|n] E].
    + cbn in E. destruct (run _ script _) as [[? ?] ?]. discriminate.
    + exists (S n). exact E.
  - cbn [run]. destruct (answer script) as [o script'] eqn:Ea.
    destruct (IH o script' (send req w)) as [[|n] E].
    + cbn in E. destruct (run _ script' _) as [[? ?] ?]. discriminate.
    + exists (S (S n)). rewrite <- E.
      cbn. rewrite Ea. reflexivity.
  - destruct (IH (json r) script w) as [[|n] E].
    + cbn in E. destruct (run _ script w) as [[? ?] ?]. discriminate.
    + exists (S (S n)). cbn [run]. rewrite <- E. reflexivity.
  - destruct (IH script w) as [n E]. exists (S n). exact E.
Qed.

End Running.

Section Refreshing.
Import JS AuthService.
Context `{HostNumber}.

Lemma status_401_not_ok (r : Response) : status r = 401 -> ok r = false.
Proof. unfold ok. intros ->. reflexivity. Qed.

Lemma present_some (s : jsstring) : s <> [] -> present (Some s) = true.
Proof. destruct s; [congruence|reflexivity]. Qed.

(** Without a refresh token nothing is sent and nothing is touched. *)
Lemma refresh_without_token (script : list FetchOutcome) (w : World) :
  present (storage_get REFRESH_TOKEN_KEY w) = false ->
  run refreshAccessToken script w = (Returned false, script, w).
Proof.
  intros Hp. unfold refreshAccessToken, getRefreshToken. cbn [bind run].
  now rewrite Hp.
Qed.

Lemma refresh_failure (o : FetchOutcome) (rest : list FetchOutcome)
  (w : World) (r : jsstring) :
  storage_get REFRESH_TOKEN_KEY w = Some r -> r <> [] ->
  refresh_fails o ->
  run refreshAccessToken (o :: rest) w =
  (Returned false, rest,
   mkWorld (signed_out w) (requests w ++ [refresh_request r])).
Proof.
  intros Hr Hne Hf. unfold refreshAccessToken, getRefreshToken. cbn [bind run].
  rewrite Hr, (present_some r Hne). cbn [negb].
  rewrite run_try_catch, run_bind. cbn [fetch run answer].
  destruct o as [resp|e]; cbn [run].
  - destruct (ok resp) eqn:Hok; cbn [negb].
    + rewrite run_bind. cbn [response_json run].
      destruct Hf as [Hf|[Hf|(token & Hj & Hg)]]; [congruence| |].
      * rewrite Hf. reflexivity.
      * rewrite Hj. cbn [run]. rewrite run_bind. unfold setTokens, get.
        rewrite Hg. reflexivity.
    + reflexivity.
  - reflexivity.
Qed.

(** [setTokens] run on its own: a [TypeError] before anything is written
    when the token is [null] or its access token cannot be converted, one
    after the access token is written when the refresh token cannot be
    converted, and both written otherwise. *)
Lemma run_setTokens (token : JSValue) (script : list FetchOutcome) (w : World) :
  run (setTokens token) script w =
  match Get token (js "access_token") with
  | None => (Thrown TypeError, script, w)
  | Some va =>
      match ToString va with
      | None => (Thrown TypeError, script, w)
      | Some access =>
          match ToString (OptionalGet token (js "refresh_token")) with
          | None => (Thrown TypeError, script, storage_set TOKEN_KEY access w)
          | Some refresh =>
              (Returned tt, script,
               mkWorld (signed_in access refresh w) (requests w))
          end
      end
  end.
Proof.
  unfold setTokens, get, to_string, OptionalGet.
  destruct (Get token (js "access_token")) as [va|] eqn:Ha; [|reflexivity].
  cbn [bind]. destruct (ToString va) as [access|]; [|reflexivity].
  cbn [bind run].
  assert (Hr : exists vr, Get token (js "refresh_token") = Some vr).
  { destruct token; try discriminate; cbn; eauto. }
  destruct Hr as [vr ->]. cbn [bind].
  destruct (ToString vr) as [refresh|]; reflexivity.
Qed.

Lemma signed_out_storage_set (key : string) (value : jsstring) (w : World) :
  key = TOKEN_KEY \/ key = REFRESH_TOKEN_KEY ->
  signed_out (storage_set key value w) = signed_out w.
Proof.
  unfold signed_out, storage_set. cbn [localStorage].
  intros [->| ->]; apply map_eq; intros k;
    destruct (decide (k = REFRESH_TOKEN_KEY)) as [->|Hr];
    rewrite ?lookup_delete_eq; try reflexivity;
    rewrite !(lookup_delete_ne _ REFRESH_TOKEN_KEY) by congruence;
    destruct (decide (k = TOKEN_KEY)) as [->|Ht];
    rewrite ?lookup_delete_eq; try reflexivity;
    rewrite !(lookup_delete_ne _ TOKEN_KEY) by congruence;
    rewrite ?lookup_insert_ne by congruence; reflexivity.
Qed.

(** A refresh answered with a success whose credentials cannot be stored
    fails like any other: the exception of [setTokens] is caught, both keys
    are removed and the result is [false]. *)
Lemma refresh_unstorable (resp : Response) (rest : list FetchOutcome)
  (w : World) (r : jsstring) (token va : JSValue) :
  storage_get REFRESH_TOKEN_KEY w = Some r -> r <> [] ->
  ok resp = true -> json resp = Some token ->
  Get token (js "access_token") = Some va ->
  ToString va = None \/
  ToString (OptionalGet token (js "refresh_token")) = None ->
  run refreshAccessToken (Resolved resp :: rest) w =
  (Returned false, rest,
   mkWorld (signed_out w) (requests w ++ [refresh_request r])).
Proof.
  intros Hr Hne Hok Hj Ha Hbad. unfold refreshAccessToken, getRefreshToken.
  cbn [bind run].
  rewrite Hr, (present_some r Hne). cbn [negb].
  rewrite run_try_catch, run_bind. cbn [fetch run answer].
  rewrite Hok. cbn [negb].
  rewrite run_bind. cbn [response_json run]. rewrite Hj. cbn [run].
  rewrite run_bind, run_setTokens, Ha.
  destruct (ToString va) as [access|] eqn:Eva.
  - destruct Hbad as [Hbad|Hbad]; [discriminate|]. rewrite Hbad.
    cbn [clearTokens bind run].
    match goal with
    | |- context [storage_remove REFRESH_TOKEN_KEY (storage_remove TOKEN_KEY ?x)] =>
        change (storage_remove REFRESH_TOKEN_KEY (storage_remove TOKEN_KEY x))
          with (mkWorld (signed_out x) (requests x))
    end.
    rewrite signed_out_storage_set by now left. reflexivity.
  - reflexivity.
Qed.

Lemma refresh_success (resp : Response) (rest : list FetchOutcome)
  (w : World) (r : jsstring) (token va vr : JSValue) (access refresh : jsstring) :
  storage_get REFRESH_TOKEN_KEY w = Some r -> r <> [] ->
  ok resp = true -> json resp = Some token ->
  Get token (js "access_token") = Some va ->
  Get token (js "refresh_token") = Some vr ->
  ToString va = Some access -> ToString vr = Some refresh ->
  run refreshAccessToken (Resolved resp :: rest) w =
  (Returned true, rest,
   mkWorld (signed_in access refresh w)
     (requests w ++ [refresh_request r])).
Proof.
  intros Hr Hne Hok Hj Ha Hv Hta Htr. unfold refreshAccessToken, getRefreshToken.
  cbn [bind run].
  rewrite Hr, (present_some r Hne). cbn [negb].
  rewrite run_try_catch, run_bind. cbn [fetch run answer].
  rewrite Hok. cbn [negb].
  rewrite run_bind. cbn [response_json run]. rewrite Hj. cbn [run].
  rewrite run_bind, run_setTokens, Ha, Hta. unfold OptionalGet.
  rewrite Hv, Htr. reflexivity.
Qed.

(** A 401 on [/auth/me] hands over to the refresh, and a refresh that
    returns [true] to the function itself. *)
Lemma me_unauthorized (fuel : nat) (resp : Response) (rest : list FetchOutcome)
  (w : World) (a : jsstring) :
  storage_get TOKEN_KEY w = Some a -> a <> [] ->
  status resp = 401 ->
  run (getCurrentUser (S fuel)) (Resolved resp :: rest) w =
  match run refreshAccessToken rest (send (me_request a) w) with
  | (Returned true, s, w') => run (getCurrentUser fuel) s w'
  | (Returned false, s, w') => (Thrown (Error "Failed to fetch user"), s, w')
  | (Thrown e, s, w') => (Thrown e, s, w')
  | (Diverged, s, w') => (Diverged, s, w')
  end.
Proof.
  intros Ha Hne Hs. cbn [getCurrentUser]. unfold getToken. cbn [bind run].
  rewrite Ha, (present_some a Hne). cbn [negb].
  rewrite run_bind. cbn [fetch run answer].
  rewrite (status_401_not_ok resp Hs), Hs. cbn [negb Z.eqb Pos.eqb].
  rewrite run_bind, run_await.
  change (send _ w) with (send (me_request a) w).
  destruct (run refreshAccessToken rest (send (me_request a) w))
    as [[[[|]|e|] s] w']; try reflexivity.
  apply run_await.
Qed.

Lemma me_success (fuel : nat) (resp : Response) (rest : list FetchOutcome)
  (w : World) (a : jsstring) (u : JSValue) :
  storage_get TOKEN_KEY w = Some a -> a <> [] ->
  ok resp = true -> json resp = Some u ->
  run (getCurrentUser (S fuel)) (Resolved resp :: rest) w =
  (Returned u, rest, send (me_request a) w).
Proof.
  intros Ha Hne Hok Hj. cbn [getCurrentUser]. unfold getToken. cbn [bind run].
  rewrite Ha, (present_some a Hne). cbn [negb].
  rewrite run_bind. cbn [fetch run answer].
  rewrite Hok. cbn [negb response_json run]. rewrite Hj. reflexivity.
Qed.

Lemma storage_get_signed_in_token (access refresh : jsstring) (w : World) reqs :
  storage_get TOKEN_KEY (mkWorld (signed_in access refresh w) reqs) = Some access.
Proof.
  unfold storage_get, signed_in. cbn.
  rewrite lookup_insert_ne by discriminate. apply lookup_insert_eq.
Qed.

Lemma storage_get_signed_in_refresh (access refresh : jsstring) (w : World) reqs :
  storage_get REFRESH_TOKEN_KEY (mkWorld (signed_in access refresh w) reqs)
  = Some refresh.
Proof. unfold storage_get, signed_in. cbn. apply lookup_insert_eq. Qed.

Lemma storage_get_signed_out (w : World) reqs :
  storage_get TOKEN_KEY (mkWorld (signed_out w) reqs) = None /\
  storage_get REFRESH_TOKEN_KEY (mkWorld (signed_out w) reqs) = None.
Proof.
  unfold storage_get, signed_out. cbn. split.
  - rewrite lookup_delete_ne by discriminate. apply lookup_delete_eq.
  - apply lookup_delete_eq.
Qed.

End Refreshing.

Section Session.
Import JS AuthService.
Context `{HostNumber}.

Lemma storage_get_send (key : string) (req : Request) (w : World) :
  storage_get key (send req w) = storage_get key w.
Proof. reflexivity. Qed.

Lemma refresh_calls_app (w : World) (st : gmap string jsstring) (more : list Request) :
  refresh_calls (mkWorld st (requests w ++ more)) =
  (refresh_calls w + length (List.filter is_refresh more))%nat.
Proof. unfold refresh_calls. cbn. now rewrite List.filter_app, length_app. Qed.

Lemma me_calls_app (w : World) (st : gmap string jsstring) (more : list Request) :
  me_calls (mkWorld st (requests w ++ more)) =
  (me_calls w + length (List.filter is_me more))%nat.
Proof. unfold me_calls. cbn. now rewrite List.filter_app, length_app. Qed.

(** The run of [getCurrentUser] through one refusal, a refresh that goes
    through and the request sent again. *)
Lemma refused_refreshed_retried (fuel : nat) (w : World) (a r : jsstring)
  (resp refresh_resp : Response) (token va vr : JSValue)
  (access refresh : jsstring) (rest : list FetchOutcome) :
  storage_get TOKEN_KEY w = Some a -> a <> [] ->
  storage_get REFRESH_TOKEN_KEY w = Some r -> r <> [] ->
  status resp = 401 ->
  ok refresh_resp = true -> json refresh_resp = Some token ->
  Get token (js "access_token") = Some va ->
  Get token (js "refresh_token") = Some vr ->
  ToString va = Some access -> ToString vr = Some refresh ->
  run (getCurrentUser (S fuel))
    (Resolved resp :: Resolved refresh_resp :: rest) w =
  run (getCurrentUser fuel) rest
    (mkWorld (signed_in access refresh w)
       (requests w ++ [me_request a; refresh_request r])).
Proof.
  intros Ha Hane Hr Hrne Hs Hok Hj Hva Hvr Hta Htr.
  rewrite (me_unauthorized fuel resp _ w a Ha Hane Hs).
  rewrite (refresh_success refresh_resp rest (send (me_request a) w) r
             token va vr access refresh Hr Hrne Hok Hj Hva Hvr Hta Htr).
  unfold send, signed_in. cbn [requests localStorage].
  now rewrite <- app_assoc.
Qed.

(** C6. When the request is refused once with a 401, a refresh credential
    is stored, the refresh goes through (the endpoint answers with a
    success whose body holds a pair of credentials that can be stored,
    the access token not empty) and the request sent again is answered
    with a success, [getCurrentUser] sends exactly three requests: the
    original one, one refresh, and the original one again under the new
    access token; it stores the new pair and returns the success
    result. *)
Theorem one_refresh_then_one_retry (fuel : nat) (w : World) (a r : jsstring)
  (resp refresh_resp user_resp : Response) (token va vr u : JSValue)
  (access refresh : jsstring) (rest : list FetchOutcome) :
  storage_get TOKEN_KEY w = Some a -> a <> [] ->
  storage_get REFRESH_TOKEN_KEY w = Some r -> r <> [] ->
  status resp = 401 ->
  ok refresh_resp = true -> json refresh_resp = Some token ->
  Get token (js "access_token") = Some va ->
  Get token (js "refresh_token") = Some vr ->
  ToString va = Some access -> ToString vr = Some refresh ->
  access <> [] ->
  ok user_resp = true -> json user_resp = Some u ->
  let '(result, script', w') :=
    run (getCurrentUser (S (S fuel)))
      (Resolved resp :: Resolved refresh_resp :: Resolved user_resp :: rest) w in
  result = Returned u /\
  script' = rest /\
  requests w' =
    requests w ++ [me_request a; refresh_request r; me_request access] /\
  localStorage w' = signed_in access refresh w /\
  refresh_calls w' = (refresh_calls w + 1)%nat /\
  me_calls w' = (me_calls w + 2)%nat.
Proof.
  intros Ha Hane Hr Hrne Hs Hok Hj Hva Hvr Hta Htr Hne Huok Huj.
  rewrite (refused_refreshed_retried (S fuel) w a r resp refresh_resp
             token va vr access refresh _ Ha Hane Hr Hrne Hs Hok Hj Hva Hvr
             Hta Htr).
  rewrite (me_success fuel user_resp rest _ access u
             (storage_get_signed_in_token _ _ _ _) Hne Huok Huj).
  unfold send. cbn [requests localStorage]. rewrite <- app_assoc. cbn [app].
  repeat split.
  - now rewrite refresh_calls_app.
  - now rewrite me_calls_app.
Qed.

(** C7. When the refresh does not go through (the call is rejected, the
    endpoint answers with a status that is not a success, or its body
    cannot be read), [refreshAccessToken] removes both credentials from
    the store and returns [false], and the call of [getCurrentUser] that
    asked for it fails with [Failed to fetch user] instead of returning a
    user. *)
Theorem failed_refresh_clears_credentials (fuel : nat) (w : World)
  (a r : jsstring) (resp : Response) (o : FetchOutcome)
  (rest : list FetchOutcome) :
  storage_get TOKEN_KEY w = Some a -> a <> [] ->
  storage_get REFRESH_TOKEN_KEY w = Some r -> r <> [] ->
  status resp = 401 ->
  refresh_fails o ->
  run refreshAccessToken (o :: rest) w =
    (Returned false, rest,
     mkWorld (signed_out w) (requests w ++ [refresh_request r])) /\
  run (getCurrentUser (S fuel)) (Resolved resp :: o :: rest) w =
    (Thrown (Error "Failed to fetch user"), rest,
     mkWorld (signed_out w)
       (requests w ++ [me_request a; refresh_request r])) /\
  signed_out w !! TOKEN_KEY = None /\
  signed_out w !! REFRESH_TOKEN_KEY = None /\
  (forall key, key <> TOKEN_KEY -> key <> REFRESH_TOKEN_KEY ->
     signed_out w !! key = localStorage w !! key).
Proof.
  intros Ha Hane Hr Hrne Hs Hf. split; [|split; [|split; [|split]]].
  - now apply refresh_failure.
  - rewrite (me_unauthorized fuel resp _ w a Ha Hane Hs).
    rewrite (refresh_failure o rest (send (me_request a) w) r Hr Hrne Hf).
    unfold send, signed_out. cbn [requests localStorage].
    now rewrite <- app_assoc.
  - unfold signed_out. rewrite lookup_delete_ne by discriminate.
    apply lookup_delete_eq.
  - unfold signed_out. apply lookup_delete_eq.
  - intros key H1 H2. unfold signed_out.
    rewrite lookup_delete_ne by congruence.
    now rewrite lookup_delete_ne by congruence.
Qed.

End Session.

Section Recursion.
Import JS AuthService.
Context `{HostNumber}.

(** [refreshAccessToken] always returns, and returns [true] only after an
    answer of the server. *)
Lemma refresh_returns (script : list FetchOutcome) (w : World) :
  exists b script' w',
    run refreshAccessToken script w = (Returned b, script', w') /\
    (b = true -> exists o, script = o :: script').
Proof.
  unfold refreshAccessToken, getRefreshToken. cbn [bind run].
  destruct (present (storage_get REFRESH_TOKEN_KEY w)); cbn [negb].
  2: { do 3 eexists. split; [reflexivity|discriminate]. }
  rewrite run_try_catch, run_bind. cbn [fetch run].
  destruct script as [|[resp|e] rest]; cbn [answer run].
  - do 3 eexists. split; [reflexivity|discriminate].
  - destruct (ok resp); cbn [negb].
    2: { do 3 eexists. split; [reflexivity|discriminate]. }
    rewrite run_bind. cbn [response_json run].
    destruct (json resp) as [token|]; cbn [run].
    2: { do 3 eexists. split; [reflexivity|discriminate]. }
    rewrite run_bind, run_setTokens.
    destruct (Get token (js "access_token")) as [va|]; cbn [bind run].
    2: { do 3 eexists. split; [reflexivity|discriminate]. }
    destruct (ToString va) as [access|]; cbn [bind run].
    2: { do 3 eexists. split; [reflexivity|discriminate]. }
    destruct (ToString (OptionalGet token (js "refresh_token")))
      as [refresh|]; cbn [bind run].
    2: { do 3 eexists. split; [reflexivity|discriminate]. }
    do 3 eexists. split; [reflexivity|]. intros _. now eexists.
  - do 3 eexists. split; [reflexivity|discriminate].
Qed.

(** Every turn of the recursion uses up two answers of the server, so the
    call returns or throws on any finite script once the fuel exceeds half
    of its length. *)
Lemma getCurrentUser_terminates (fuel : nat) (script : list FetchOutcome)
  (w : World) :
  (length script < 2 * fuel)%nat ->
  fst (fst (run (getCurrentUser fuel) script w)) <> Diverged.
Proof.
  revert script w. induction fuel as [|fuel IH]; intros script w Hlen; [lia|].
  cbn [getCurrentUser]. unfold getToken. cbn [bind run].
  destruct (present (storage_get TOKEN_KEY w)); cbn [negb];
    [|cbn; discriminate].
  rewrite run_bind. cbn [fetch run].
  destruct script as [|[resp|e] rest]; cbn [answer run]; try (cbn; discriminate).
  destruct (ok resp); cbn [negb].
  - cbn [response_json run]. destruct (json resp); cbn; discriminate.
  - destruct (status resp =? 401); [|cbn; discriminate].
    rewrite run_bind, run_await.
    destruct (refresh_returns rest
                (send {| url := (API_BASE_URL +:+ "/auth/me")%string;
                         method := "GET";
                         headers := [("Authorization",
                                      bearer (storage_get TOKEN_KEY w))];
                         body := None |} w))
      as (b & script' & w' & E & Hb).
    rewrite E. destruct b; [|cbn; discriminate].
    destruct (Hb eq_refl) as [o ->]. rewrite run_await.
    apply IH. cbn [length] in Hlen. lia.
Qed.

(** Fuel that is enough stays enough: the result does not change. *)
Lemma getCurrentUser_more_fuel (fuel : nat) (script : list FetchOutcome)
  (w : World) :
  fst (fst (run (getCurrentUser fuel) script w)) <> Diverged ->
  run (getCurrentUser (S fuel)) script w = run (getCurrentUser fuel) script w.
Proof.
  revert script w. induction fuel as [|fuel IH]; intros script w;
    [cbn; congruence|].
  change (getCurrentUser (S (S fuel))) with
    (let* token := getToken in
     if negb (present token) then Throw (Error "No authentication token")
     else
       let* response := fetch
         {| url := (API_BASE_URL +:+ "/auth/me")%string;
            method := "GET";
            headers := [("Authorization", bearer token)];
            body := None |} in
       if negb (ok response) then
         if status response =? 401 then
           let* refreshed := await refreshAccessToken in
           if refreshed then await (getCurrentUser (S fuel))
           else Throw (Error "Failed to fetch user")
         else Throw (Error "Failed to fetch user")
       else response_json response).
  cbn [getCurrentUser]. unfold getToken. cbn [bind run].
  destruct (present (storage_get TOKEN_KEY w)); cbn [negb]; [|reflexivity].
  rewrite !run_bind. cbn [fetch run].
  destruct (answer script) as [[resp|e] script']; cbn [run]; [|reflexivity].
  destruct (ok resp); cbn [negb]; [reflexivity|].
  destruct (status resp =? 401); [|reflexivity].
  rewrite !run_bind, !run_await.
  destruct (run refreshAccessToken script' _) as [[[[|]|e|] s] w'];
    try reflexivity.
  rewrite !run_await. apply IH.
Qed.

Lemma refresh_sends (script : list FetchOutcome) (w : World) (r : jsstring) :
  storage_get REFRESH_TOKEN_KEY w = Some r -> r <> [] ->
  exists more,
    requests (snd (run refreshAccessToken script w)) =
    requests w ++ refresh_request r :: more.
Proof.
  intros Hr Hne. unfold refreshAccessToken, getRefreshToken. cbn [bind run].
  rewrite Hr, (present_some r Hne). cbn [negb].
  change (try_catch ?p ?h) with
    (try_catch (Fetch (refresh_request r) (fun o => bind (match o with
        | Resolved r0 => Ret r0 | Rejected e => Throw e end)
        (fun response => if negb (ok response)
           then let* _ := clearTokens in Ret false
           else let* token := response_json response in
                let* _ := setTokens token in Ret true))) h).
  cbn [try_catch run]. destruct (answer script) as [o script'].
  match goal with |- context [run ?p script' ?w0] =>
    destruct (run_requests p script' w0) as [more E] end.
  exists more. rewrite E. cbn. now rewrite <- app_assoc.
Qed.

End Recursion.

Section SecondRefusal.
Import JS AuthService.
Context `{HostNumber}.

(** C1, as the code has it. When the request is refused with a 401, the
    refresh goes through and the request sent again is refused with a 401
    too, [getCurrentUser] does not stop: it sends a second refresh, for the
    refresh token that the first one stored. The refusal becomes the
    failure [Failed to fetch user] only when that second refresh does not
    go through, after two refresh calls and with the store cleared; when
    it goes through and the third request is answered with a success, the
    call returns that result after two refresh calls. *)
Theorem second_refusal_is_refreshed_again (fuel : nat) (w : World)
  (a r : jsstring) (resp1 refresh_resp resp2 : Response)
  (token va vr : JSValue) (access refresh : jsstring)
  (rest : list FetchOutcome) :
  storage_get TOKEN_KEY w = Some a -> a <> [] ->
  storage_get REFRESH_TOKEN_KEY w = Some r -> r <> [] ->
  status resp1 = 401 ->
  ok refresh_resp = true -> json refresh_resp = Some token ->
  Get token (js "access_token") = Some va ->
  Get token (js "refresh_token") = Some vr ->
  ToString va = Some access -> ToString vr = Some refresh ->
  access <> [] -> refresh <> [] ->
  status resp2 = 401 ->
  let script := Resolved resp1 :: Resolved refresh_resp :: Resolved resp2 :: rest in
  let sent :=
    requests w ++ [me_request a; refresh_request r; me_request access;
                   refresh_request refresh] in
  (exists more,
     requests (snd (run (getCurrentUser (S (S fuel))) script w)) = sent ++ more) /\
  (forall o rest',
     rest = o :: rest' -> refresh_fails o ->
     run (getCurrentUser (S (S fuel))) script w =
     (Thrown (Error "Failed to fetch user"), rest',
      mkWorld (delete REFRESH_TOKEN_KEY (delete TOKEN_KEY
                 (signed_in access refresh w))) sent)) /\
  (forall refresh_resp2 user_resp token2 va2 vr2 access2 refresh2 u rest',
     rest = Resolved refresh_resp2 :: Resolved user_resp :: rest' ->
     ok refresh_resp2 = true -> json refresh_resp2 = Some token2 ->
     Get token2 (js "access_token") = Some va2 ->
     Get token2 (js "refresh_token") = Some vr2 ->
     ToString va2 = Some access2 -> ToString vr2 = Some refresh2 ->
     access2 <> [] ->
     ok user_resp = true -> json user_resp = Some u ->
     run (getCurrentUser (S (S (S fuel)))) script w =
     (Returned u, rest',
      mkWorld (<[REFRESH_TOKEN_KEY := refresh2]>
                 (<[TOKEN_KEY := access2]> (signed_in access refresh w)))
        (sent ++ [me_request access2]))).
Proof.
  intros Ha Hane Hr Hrne Hs1 Hok Hj Hva Hvr Hta Htr Hvane Hvrne Hs2 script sent.
  subst script sent.
  set (w2 := mkWorld (signed_in access refresh w)
               (requests w ++ [me_request a; refresh_request r])).
  assert (Ht2 : storage_get TOKEN_KEY w2 = Some access)
    by apply storage_get_signed_in_token.
  assert (Hr2 : storage_get REFRESH_TOKEN_KEY w2 = Some refresh)
    by apply storage_get_signed_in_refresh.
  split; [|split].
  - rewrite (refused_refreshed_retried (S fuel) w a r resp1 refresh_resp
               token va vr access refresh _ Ha Hane Hr Hrne Hs1 Hok Hj Hva Hvr
               Hta Htr).
    fold w2.
    rewrite (me_unauthorized fuel resp2 rest w2 _ Ht2 Hvane Hs2).
    destruct (refresh_sends rest (send (me_request access) w2)
                refresh Hr2 Hvrne) as [more E].
    assert (Eq : requests (send (me_request access) w2)
                 ++ refresh_request refresh :: more
                 = (requests w ++ [me_request a; refresh_request r;
                      me_request access; refresh_request refresh])
                   ++ more).
    { unfold send, w2. cbn [requests]. rewrite <- !app_assoc. reflexivity. }
    rewrite Eq in E. clear Eq.
    destruct (run refreshAccessToken rest (send (me_request access) w2))
      as [[[[|]|e|] s] w'] eqn:Erun; cbn [snd] in E; cbn [snd];
      try (now exists more).
    destruct (run_requests (getCurrentUser fuel) s w') as [more' E'].
    exists (more ++ more'). rewrite E', E. now rewrite <- app_assoc.
  - intros o rest' -> Hf.
    rewrite (refused_refreshed_retried (S fuel) w a r resp1 refresh_resp
               token va vr access refresh _ Ha Hane Hr Hrne Hs1 Hok Hj Hva Hvr
               Hta Htr).
    fold w2.
    rewrite (me_unauthorized fuel resp2 _ w2 _ Ht2 Hvane Hs2).
    rewrite (refresh_failure o rest' (send (me_request access) w2)
               refresh Hr2 Hvrne Hf).
    unfold send, signed_out, w2. cbn [requests localStorage].
    rewrite <- !app_assoc. reflexivity.
  - intros refresh_resp2 user_resp token2 va2 vr2 access2 refresh2 u rest' ->
      Hok2 Hj2 Hva2 Hvr2 Hta2 Htr2 Hne2 Huok Huj.
    rewrite (refused_refreshed_retried (S (S fuel)) w a r resp1 refresh_resp
               token va vr access refresh _ Ha Hane Hr Hrne Hs1 Hok Hj Hva Hvr
               Hta Htr).
    fold w2.
    rewrite (refused_refreshed_retried (S fuel) w2 access refresh
               resp2 refresh_resp2 token2 va2 vr2 access2 refresh2 _
               Ht2 Hvane Hr2 Hvrne Hs2 Hok2 Hj2 Hva2 Hvr2 Hta2 Htr2).
    rewrite (me_success fuel user_resp rest' _ access2 u
               (storage_get_signed_in_token _ _ _ _) Hne2 Huok Huj).
    unfold send, signed_in, w2. cbn [requests localStorage].
    rewrite <- !app_assoc. reflexivity.
Qed.

End SecondRefusal.

(** ** The session on sample servers *)

Section SessionSamples.
Import JS AuthService Samples.
#[local] Existing Instance literal_numbers.

(** C1, refuted as stated: a 401, a refresh that goes through and a 401
    again are followed by a second refresh, and the call returns the user
    instead of failing. *)
Lemma second_refresh_counterexample :
  let '(result, _, w') :=
    run (getCurrentUser 3)
      [Resolved refusal; Resolved (granted "a1" "r1"); Resolved refusal;
       Resolved (granted "a2" "r2"); Resolved whoami]
      (stored "a0" "r0") in
  result = Returned profile /\ refresh_calls w' = 2%nat.
Proof. vm_compute. split; reflexivity. Qed.

Lemma second_refusal_is_refreshed_again_witness :
  run (getCurrentUser 2)
    [Resolved refusal; Resolved (granted "a1" "r1"); Resolved refusal;
     Resolved breakdown]
    (stored "a0" "r0") =
  (Thrown (Error "Failed to fetch user"), [],
   mkWorld (delete REFRESH_TOKEN_KEY (delete TOKEN_KEY
              (signed_in (js "a1") (js "r1") (stored "a0" "r0"))))
     [me_request (js "a0"); refresh_request (js "r0"); me_request (js "a1");
      refresh_request (js "r1")]).
Proof.
  refine (proj1 (proj2 (second_refusal_is_refreshed_again 0 (stored "a0" "r0")
    (js "a0") (js "r0") refusal (granted "a1" "r1") refusal
    (token_pair "a1" "r1") (VString (js "a1")) (VString (js "r1"))
    (js "a1") (js "r1") [Resolved breakdown]
    eq_refl _ eq_refl _ eq_refl eq_refl eq_refl eq_refl eq_refl
    eq_refl eq_refl _ _ eq_refl))
    (Resolved breakdown) [] eq_refl (or_introl eq_refl)); discriminate.
Defined.

Lemma one_refresh_then_one_retry_witness :
  let '(result, script', w') :=
    run (getCurrentUser 2)
      [Resolved refusal; Resolved (granted "a1" "r1"); Resolved whoami]
      (stored "a0" "r0") in
  result = Returned profile /\
  script' = [] /\
  requests w' =
    [me_request (js "a0"); refresh_request (js "r0"); me_request (js "a1")] /\
  localStorage w' = signed_in (js "a1") (js "r1") (stored "a0" "r0") /\
  refresh_calls w' = 1%nat /\
  me_calls w' = 2%nat.
Proof.
  refine (one_refresh_then_one_retry 0 (stored "a0" "r0") (js "a0") (js "r0")
    refusal (granted "a1" "r1") whoami
    (token_pair "a1" "r1") (VString (js "a1")) (VString (js "r1"))
    profile (js "a1") (js "r1") [] eq_refl _ eq_refl _ eq_refl eq_refl eq_refl
    eq_refl eq_refl eq_refl eq_refl _ eq_refl eq_refl); discriminate.
Defined.

Lemma failed_refresh_clears_credentials_witness :
  run (getCurrentUser 1) [Resolved refusal; Resolved breakdown]
    (stored "a0" "r0") =
  (Thrown (Error "Failed to fetch user"), [],
   mkWorld (signed_out (stored "a0" "r0"))
     [me_request (js "a0"); refresh_request (js "r0")]).
Proof.
  refine (proj1 (proj2 (failed_refresh_clears_credentials 0 (stored "a0" "r0")
    (js "a0") (js "r0") refusal (Resolved breakdown) []
    eq_refl _ eq_refl _ eq_refl (or_introl eq_refl)))); discriminate.
Defined.

End SessionSamples.

(* ===================================================================== *)
(** * Properties of the chat turn *)
(* ===================================================================== *)

Section Turn.
Import JS ChatWindow.
Context `{HostNumber}.

Lemma same_but_content_append (aid text : jsstring) (ms : list ChatMessage) :
  Forall2 (same_but_content aid) ms (append_content aid text ms).
Proof.
  unfold append_content. induction ms as [|[i t c] ms IH]; cbn; constructor;
    [|exact IH].
  unfold same_but_content. cbn.
  destruct (jsstring_eqb i aid) eqn:E; cbn.
  - repeat split; [|now exists text].
    intros Hne. apply jsstring_eqb_eq in E. contradiction.
  - repeat split. exists []. now rewrite app_nil_r.
Qed.

Lemma same_but_content_refl (aid : jsstring) (ms : list ChatMessage) :
  Forall2 (same_but_content aid) ms ms.
Proof.
  rewrite <- (append_content_nil aid ms) at 2. apply same_but_content_append.
Qed.

Lemma same_but_content_trans (aid : jsstring) (ms1 ms2 ms3 : list ChatMessage) :
  Forall2 (same_but_content aid) ms1 ms2 ->
  Forall2 (same_but_content aid) ms2 ms3 ->
  Forall2 (same_but_content aid) ms1 ms3.
Proof.
  intros H12. revert ms3.
  induction H12 as [|m1 m2 ms1 ms2 (Hi & Ht & Hu & t1 & Hc) _ IH];
    intros ms3 H23; inversion H23 as [|? m3 ? ms3' (Hi' & Ht' & Hu' & t2 & Hc') Hrest];
    subst; constructor; [|now apply IH].
  repeat split.
  - congruence.
  - congruence.
  - intros Hne. rewrite <- (Hu Hne). apply Hu'. congruence.
  - exists (t1 ++ t2). rewrite Hc', Hc. now rewrite app_assoc.
Qed.

(** An updater that goes through leaves every message at its place. *)
Lemma same_but_content_append_value (aid : jsstring) (v : JSValue)
  (ms ms' : list ChatMessage) :
  append_value aid v ms = Some ms' -> Forall2 (same_but_content aid) ms ms'.
Proof.
  revert ms'. induction ms as [|[i t c] ms IH]; intros ms' E; cbn in E.
  - injection E as <-. constructor.
  - destruct (jsstring_eqb i aid) eqn:Ei.
    + destruct (ToString v) as [text|]; [|discriminate].
      destruct (append_value aid v ms) as [rest|]; [|discriminate].
      injection E as <-. constructor; [|now apply IH].
      unfold same_but_content. cbn. repeat split; [|now exists text].
      intros Hne. apply jsstring_eqb_eq in Ei. contradiction.
    + destruct (append_value aid v ms) as [rest|]; [|discriminate].
      injection E as <-. constructor; [|now apply IH].
      unfold same_but_content. repeat split. exists []. now rewrite app_nil_r.
Qed.

Lemma same_but_content_append_values (aid : jsstring) (vs : list JSValue)
  (ms ms' : list ChatMessage) :
  append_values aid vs ms = Some ms' -> Forall2 (same_but_content aid) ms ms'.
Proof.
  revert ms. induction vs as [|v vs IH]; intros ms E.
  - cbn in E. injection E as <-. apply same_but_content_refl.
  - rewrite append_values_cons in E.
    destruct (append_value aid v ms) as [ms1|] eqn:E1; [|discriminate].
    apply (same_but_content_trans aid ms ms1 ms').
    + exact (same_but_content_append_value aid v ms ms1 E1).
    + now apply IH.
Qed.

(** A line unmounts the component exactly when it has a delta that cannot
    be converted to a string and a message carries the identifier. *)
Lemma on_line_unmounts (aid : jsstring) (st : State) (line : jsstring) :
  on_line aid st line = None <->
  exists v, delta_of_line line = Some v /\ ToString v = None /\
            List.Exists (fun m => id m = aid) (messages st).
Proof.
  pose proof (messages_on_line aid st line) as E. split.
  - intros Hn. rewrite Hn in E. cbn in E.
    destruct (delta_of_line line) as [v|]; [|discriminate].
    exists v. split; [reflexivity|].
    destruct (ToString v) as [text|] eqn:Ev.
    + rewrite (append_value_text aid v text _ Ev) in E. discriminate.
    + split; [reflexivity|].
      destruct (List.Exists_dec (fun m => id m = aid) (messages st)) as [Hex|Hno].
      { intros m. destruct (jsstring_eqb (id m) aid) eqn:Em.
        - left. now apply jsstring_eqb_eq.
        - right. intros Hm. apply jsstring_eqb_eq in Hm. congruence. }
      * exact Hex.
      * rewrite append_value_absent in E; [discriminate|].
        apply List.Forall_Exists_neg. exact Hno.
  - intros (v & Hd & Hv & Hex). rewrite Hd in E.
    rewrite (append_value_throws aid v _ Hv Hex) in E.
    destruct (on_line aid st line); [discriminate|reflexivity].
Qed.

(** The transcript that the [try] block leaves: the updaters of the deltas
    of the body have run when a body was read, the transcript is as it was
    otherwise. *)
Lemma messages_try_stream (api : string) (aid thread content : jsstring)
  (settings : ChatSettings) (outcome : FetchOutcome)
  (w : AuthService.World) (st : State) :
  option_map messages
    (fst (fst (try_stream api aid thread content settings outcome w st))) =
  match outcome with
  | Resolved response =>
      if ok response then
        match body response with
        | Some b => append_values aid (deltas (chunks b)) (messages st)
        | None => Some (messages st)
        end
      else Some (messages st)
  | Rejected _ => Some (messages st)
  end.
Proof.
  unfold try_stream. destruct outcome as [response|e]; [|reflexivity].
  destruct (ok response); [|reflexivity]. cbn [negb].
  destruct (body response) as [b|]; [|reflexivity].
  rewrite <- messages_read_all.
  destruct (read_all aid (chunks b) st) as [rd [st1|]]; cbn [snd];
    destruct (failure b); reflexivity.
Qed.

(** The deltas that a turn has to append, for the outcome of its
    request. *)
Lemma messages_handleSendMessage (api : string) (uid aid thread content : jsstring)
  (settings : ChatSettings) (outcome : FetchOutcome)
  (w : AuthService.World) (st : State) :
  option_map messages
    (fst (handleSendMessage api uid aid thread content settings outcome w st)) =
  append_values aid
    (match outcome with
     | Resolved response =>
         if ok response then
           match body response with
           | Some b => deltas (chunks b)
           | None => []
           end
         else []
     | Rejected _ => []
     end)
    (messages st ++ [mkChatMessage uid human content; mkChatMessage aid ai []]).
Proof.
  unfold handleSendMessage.
  match goal with
  | |- context [try_stream api aid thread content settings outcome w ?s] =>
      set (st4 := s)
  end.
  assert (E4 : messages st4 =
               messages st ++ [mkChatMessage uid human content;
                               mkChatMessage aid ai []]).
  { subst st4. cbn. now rewrite <- app_assoc. }
  pose proof (messages_try_stream api aid thread content settings outcome w st4)
    as E.
  rewrite E4 in E.
  assert (E' : option_map messages
                 (fst (let '(view, e, w1) :=
                         try_stream api aid thread content settings outcome w st4 in
                       match e with
                       | Some _ => (release view, w1)
                       | None => (view, w1)
                       end)) =
               option_map messages
                 (fst (fst (try_stream api aid thread content settings
                              outcome w st4)))).
  { destruct (try_stream api aid thread content settings outcome w st4)
      as [[[st5|] [e|]] w1]; reflexivity. }
  match goal with
  | |- option_map messages (fst ?x) = _ =>
      transitivity
        (option_map messages
           (fst (let '(view, e, w1) :=
                   try_stream api aid thread content settings outcome w st4 in
                 match e with
                 | Some _ => (release view, w1)
                 | None => (view, w1)
                 end)))
  end.
  { destruct (try_stream api aid thread content settings outcome w st4)
      as [[view [e|]] w1]; reflexivity. }
  rewrite E', E.
  destruct outcome as [response|e']; try reflexivity;
  destruct (ok response); try reflexivity;
  destruct (body response); reflexivity.
Qed.

(** C9. The streaming path keeps the transcript in length and order.
    Every updater of the path is a map over the list: when it goes
    through, on a line, in the [try] block with its reading loop however
    it is left, and in the whole of [handleSendMessage] after its two
    appended messages, every message is at its place with its identifier
    and type; a message that does not carry the assistant's identifier is
    untouched, and one that does only has text added to its content. The
    one updater that does not go through is the one of a delta that
    cannot be converted to a string, on a transcript with a message of
    the assistant's identifier: it throws, no list is produced, and React
    unmounts the component. *)
Theorem streaming_keeps_the_transcript_in_order (api : string)
  (uid aid thread content : jsstring) (settings : ChatSettings)
  (outcome : FetchOutcome) (w : AuthService.World) (st : State) (line : jsstring) :
  (forall st',
     on_line aid st line = Some st' ->
     Forall2 (same_but_content aid) (messages st) (messages st')) /\
  (on_line aid st line = None <->
   exists v, delta_of_line line = Some v /\ ToString v = None /\
             List.Exists (fun m => id m = aid) (messages st)) /\
  (forall st',
     fst (fst (try_stream api aid thread content settings outcome w st)) = Some st' ->
     Forall2 (same_but_content aid) (messages st) (messages st') /\
     length (messages st') = length (messages st) /\
     List.map id (messages st') = List.map id (messages st)) /\
  (forall st',
     fst (handleSendMessage api uid aid thread content settings outcome w st)
       = Some st' ->
     Forall2 (same_but_content aid)
       (messages st ++ [mkChatMessage uid human content; mkChatMessage aid ai []])
       (messages st')).
Proof.
  split; [|split; [apply on_line_unmounts|split]].
  - intros st' E. pose proof (messages_on_line aid st line) as Em.
    rewrite E in Em. cbn in Em.
    destruct (delta_of_line line) as [v|].
    + symmetry in Em. exact (same_but_content_append_value aid v _ _ Em).
    + injection Em as ->. apply same_but_content_refl.
  - intros st' E.
    assert (Htry : Forall2 (same_but_content aid) (messages st) (messages st')).
    { pose proof (messages_try_stream api aid thread content settings outcome w st)
        as Em.
      rewrite E in Em. cbn [option_map] in Em.
      destruct outcome as [response|e];
        [|injection Em as ->; apply same_but_content_refl].
      destruct (ok response);
        [|injection Em as ->; apply same_but_content_refl].
      destruct (body response);
        [|injection Em as ->; apply same_but_content_refl].
      symmetry in Em. exact (same_but_content_append_values aid _ _ _ Em). }
    split; [exact Htry|split].
    + symmetry. exact (Forall2_length _ _ _ Htry).
    + clear -Htry. induction Htry as [|m m' ms ms' Hm _ IH]; [reflexivity|].
      cbn. rewrite IH. destruct Hm as [-> _]. reflexivity.
  - intros st' E.
    pose proof (messages_handleSendMessage api uid aid thread content settings
                  outcome w st) as Em.
    rewrite E in Em. cbn [option_map] in Em. symmetry in Em.
    exact (same_but_content_append_values aid _ _ _ Em).
Qed.

End Turn.

Section Chunking.
Import JS ChatWindow.
Context `{HostNumber}.

Lemma try_stream_chunking (api : string) (aid thread content : jsstring)
  (settings : ChatSettings) (status : Z) (values : list (list byte))
  (failure : option AuthService.Exception) (w : AuthService.World) (st : State) :
  try_stream api aid thread content settings
    (Resolved (mkResponse status (Some (mkBody values failure)))) w st =
  try_stream api aid thread content settings
    (Resolved (mkResponse status (Some (mkBody [concat values] failure)))) w st.
Proof.
  unfold try_stream. cbn [body chunks ChatWindow.failure].
  replace (ok (mkResponse status (Some (mkBody [concat values] failure))))
    with (ok (mkResponse status (Some (mkBody values failure)))) by reflexivity.
  destruct (ok _); [|reflexivity]. cbn [negb].
  unfold read_all. now rewrite (read_loop_concat (on_line_of_view aid) values).
Qed.

(** C2. However the bytes of a stream are cut into chunks, the loop appends
    the same texts in the same order: the deltas are those of the stream
    read as one chunk, which are the deltas of the finished lines of the
    whole decoded text, so that a marker or a payload cut by a chunk
    boundary is read as if it had not been cut. The state of the loop, and
    the outcome of the whole turn, are the same too. *)
Theorem chunk_boundaries_never_change_the_output
  (stream : list byte) (values : list (list byte)) :
  concat values = stream ->
  deltas values = deltas [stream] /\
  deltas values =
    omap delta_of_line
      (removelast (split_lf (snd (decode_stream new_TextDecoder stream)))) /\
  (forall aid st, read_all aid values st = read_all aid [stream] st) /\
  (forall api uid aid thread content settings status failure w st,
     handleSendMessage api uid aid thread content settings
       (Resolved (mkResponse status (Some (mkBody values failure)))) w st =
     handleSendMessage api uid aid thread content settings
       (Resolved (mkResponse status (Some (mkBody [stream] failure)))) w st).
Proof.
  intros <-. split; [|split; [|split]].
  - apply deltas_concat.
  - apply deltas_text.
  - intros aid st. unfold read_all. apply read_loop_concat.
  - intros. unfold handleSendMessage. now rewrite try_stream_chunking.
Qed.

End Chunking.

Section Lines.
Import JS ChatWindow.
Context `{HostNumber}.

Lemma split_lf_line (a b : jsstring) :
  ~ In LF a -> split_lf (a ++ LF :: b) = a :: split_lf b.
Proof.
  intros Ha. induction a as [|c a IH]; [reflexivity|].
  cbn [app split_lf].
  destruct (Z.eqb_spec c LF) as [->|Hc]; [exfalso; apply Ha; now left|].
  rewrite IH; [reflexivity|]. intros Hin. apply Ha. now right.
Qed.

Lemma split_lf_stream_text (lines : list jsstring) :
  Forall (fun line => ~ In LF line) lines ->
  split_lf (stream_text lines) = lines ++ [[]].
Proof.
  unfold stream_text.
  induction 1 as [|line lines Hl _ IH]; [reflexivity|].
  cbn [List.map concat app]. rewrite <- app_assoc. cbn [app].
  rewrite (split_lf_line line _ Hl). now rewrite IH.
Qed.

Lemma marked_line (payload : jsstring) :
  startsWith (js "data: " ++ payload) (js "data: ") = true /\
  slice 6 (js "data: " ++ payload) = payload.
Proof. split; vm_compute; reflexivity. Qed.

Lemma truthy_string_spec (s : jsstring) : truthy_string s = true <-> s <> [].
Proof. destruct s; cbn; split; congruence. Qed.

(** What a line adds to the content: the text of its event. *)
Lemma delta_of_meant_line (line : jsstring) (e : option ContentEvent) :
  line_means line e ->
  match delta_of_line line with
  | Some v => ToString v = Some (event_text e)
  | None => event_text e = []
  end.
Proof.
  intros [_ He]. unfold delta_of_line.
  destruct e as [e|]; [|now rewrite He].
  destruct He as (payload & -> & chunk & c & Hp & Hc & He).
  destruct (marked_line payload) as [-> ->].
  destruct (trim payload) as [|x data] eqn:Et; [discriminate|].
  cbn [truthy_string]. rewrite Hp, Hc.
  destruct e as [text|]; cbn [event_text].
  - destruct He as [-> ->]. cbn [ToBoolean negb]. rewrite andb_true_r.
    destruct text; reflexivity.
  - rewrite He. cbn [negb]. now rewrite andb_false_r.
Qed.

(** The deltas of a stream whose lines each add a known text. *)
Lemma deltas_of_texts (lines : list jsstring) (texts : list jsstring)
  (values : list (list byte)) :
  Forall2
    (fun line text =>
       ~ In LF line /\
       match delta_of_line line with
       | Some v => ToString v = Some text
       | None => text = []
       end) lines texts ->
  snd (decode_stream new_TextDecoder (concat values)) = stream_text lines ->
  exists ts,
    mapM ToString (deltas values) = Some ts /\ concat ts = concat texts.
Proof.
  intros HF Htext. rewrite deltas_text, Htext.
  rewrite split_lf_stream_text.
  2: { clear -HF. induction HF as [|l e ls es [Hl _] _ IH]; constructor; auto. }
  rewrite removelast_app by discriminate. cbn [removelast]. rewrite app_nil_r.
  clear Htext. induction HF as [|l t ls ts' [_ Hd] _ (ts & Et & Ec)].
  - exists []. split; reflexivity.
  - rewrite omap_delta_cons.
    destruct (delta_of_line l) as [v|].
    + exists (t :: ts). split.
      * cbn. rewrite Hd. cbn. rewrite Et. reflexivity.
      * cbn [concat]. now rewrite Ec.
    + exists ts. split; [exact Et|].
      cbn [concat]. now rewrite Hd, Ec.
Qed.

Lemma texts_of_events (lines : list jsstring) (events : list (option ContentEvent)) :
  Forall2 line_means lines events ->
  Forall2
    (fun line text =>
       ~ In LF line /\
       match delta_of_line line with
       | Some v => ToString v = Some text
       | None => text = []
       end) lines (List.map event_text events).
Proof.
  induction 1 as [|l e ls es Hle _ IH]; constructor; [|exact IH].
  split; [exact (proj1 Hle)|exact (delta_of_meant_line l e Hle)].
Qed.

Lemma deltas_of_events (lines : list jsstring)
  (events : list (option ContentEvent)) (values : list (list byte)) :
  Forall2 line_means lines events ->
  snd (decode_stream new_TextDecoder (concat values)) = stream_text lines ->
  exists texts,
    mapM ToString (deltas values) = Some texts /\
    concat texts = concat (List.map event_text events).
Proof.
  intros HF. apply deltas_of_texts. now apply texts_of_events.
Qed.

Lemma last_append_content (aid text : jsstring) (ms : list ChatMessage)
  (m : ChatMessage) :
  last (append_content aid text (ms ++ [m; mkChatMessage aid ai []])) =
  Some (mkChatMessage aid ai text).
Proof.
  replace (ms ++ [m; mkChatMessage aid ai []])
    with ((ms ++ [m]) ++ [mkChatMessage aid ai []])
    by (now rewrite <- app_assoc).
  unfold append_content. rewrite List.map_app. cbn [List.map id type content].
  rewrite last_snoc.
  replace (jsstring_eqb aid aid) with true; [reflexivity|].
  symmetry. now apply jsstring_eqb_eq.
Qed.

Lemma mounted_with (view : option State) (ms : list ChatMessage) :
  option_map messages view = Some ms ->
  exists st', view = Some st' /\ messages st' = ms.
Proof.
  destruct view as [st'|]; [|discriminate]. intros [= <-]. now exists st'.
Qed.

(** C3. When the body of the response decodes to the lines of a stream,
    each of them a delta with its text, a completion, or a line without
    the marker, the turn leaves the component mounted and the assistant
    message ends with the texts of the deltas concatenated in the order
    of arrival, however the body was cut into chunks and whether or not
    the reading ended with an error. In particular the stream
    [hello_stream], with the payloads of [Hel], of [lo] and of a
    completion, ends with the content [Hello] under every chunking. *)
Theorem content_is_the_concatenation_of_the_deltas :
  (forall (lines : list jsstring) (events : list (option ContentEvent))
          (values : list (list byte))
          api uid aid thread content settings status failure w st,
     Forall2 line_means lines events ->
     snd (decode_stream new_TextDecoder (concat values)) = stream_text lines ->
     ok (mkResponse status (Some (mkBody values failure))) = true ->
     exists st',
       fst (handleSendMessage api uid aid thread content settings
              (Resolved (mkResponse status (Some (mkBody values failure)))) w st)
         = Some st' /\
       last (messages st')
         = Some (mkChatMessage aid ai (concat (List.map event_text events)))) /\
  (forall (values : list (list byte))
          api uid aid thread content settings failure w st,
     concat values = Samples.hello_stream ->
     exists st',
       fst (handleSendMessage api uid aid thread content settings
              (Resolved (mkResponse 200 (Some (mkBody values failure)))) w st)
         = Some st' /\
       last (messages st') = Some (mkChatMessage aid ai (js "Hello"))).
Proof.
  split.
  - intros lines events values api uid aid thread content settings status
      failure w st HF Htext Hok.
    pose proof (messages_handleSendMessage api uid aid thread content settings
                  (Resolved (mkResponse status (Some (mkBody values failure))))
                  w st) as E.
    cbv beta iota in E. rewrite Hok in E. cbn [body chunks] in E.
    destruct (deltas_of_events lines events values HF Htext) as (texts & Et & Ec).
    rewrite (append_values_texts aid _ texts _ Et) in E.
    destruct (mounted_with _ _ E) as (st' & -> & Em).
    exists st'. split; [reflexivity|].
    rewrite Em, Ec. apply last_append_content.
  - intros values api uid aid thread content settings failure w st Hcat.
    pose proof (messages_handleSendMessage api uid aid thread content settings
                  (Resolved (mkResponse 200 (Some (mkBody values failure))))
                  w st) as E.
    cbv beta iota in E. cbn [body chunks ok status] in E.
    change ((200 <=? 200) && (200 <=? 299)) with true in E.
    cbv beta iota in E.
    rewrite (deltas_concat values), Hcat in E.
    assert (Et : mapM ToString (deltas [Samples.hello_stream]) =
                 Some [js "Hel"; js "lo"]) by (vm_compute; reflexivity).
    rewrite (append_values_texts aid _ _ _ Et) in E.
    destruct (mounted_with _ _ E) as (st' & -> & Em).
    exists st'. split; [reflexivity|].
    rewrite Em.
    replace (concat [js "Hel"; js "lo"]) with (js "Hello")
      by (vm_compute; reflexivity).
    apply last_append_content.
Qed.

End Lines.

Section Payloads.
Import JS ChatWindow.
Context `{HostNumber}.

Lemma trimStart_whitespace (s : jsstring) :
  forallb is_js_whitespace s = true -> trimStart s = [].
Proof.
  induction s as [|c s IH]; [reflexivity|]. cbn [forallb trimStart].
  intros Hs. apply andb_true_iff in Hs as [-> Hs]. now apply IH.
Qed.

Lemma trim_whitespace (s : jsstring) :
  forallb is_js_whitespace s = true -> trim s = [].
Proof. intros Hs. unfold trim. now rewrite (trimStart_whitespace s Hs). Qed.

(** A line with the marker whose trimmed payload is not empty and makes
    the [try] block throw: the trimmed payload goes to the content. *)
Lemma on_line_fallback (aid : jsstring) (st : State) (line : jsstring) :
  startsWith line (js "data: ") = true ->
  trim (slice 6 line) <> [] ->
  JSON_parse (trim (slice 6 line)) = None ->
  delta_of_line line = Some (VString (trim (slice 6 line))) /\
  on_line aid st line =
    Some (setMessages (append_content aid (trim (slice 6 line)))
            (setIsWaitingForResponse false st)).
Proof.
  intros Hm Hne Hp. unfold delta_of_line, on_line, try_chunk.
  rewrite Hm, Hp.
  apply truthy_string_spec in Hne. rewrite Hne. split; reflexivity.
Qed.

Lemma on_line_empty (aid : jsstring) (st : State) (line : jsstring) :
  trim (slice 6 line) = [] ->
  delta_of_line line = None /\ on_line aid st line = Some st.
Proof.
  intros Hd. unfold delta_of_line, on_line. rewrite Hd. cbn [truthy_string].
  destruct (startsWith line (js "data: ")); split; reflexivity.
Qed.

(** The updater of a text, message by message. *)
Lemma append_content_lookup (aid text : jsstring) (ms : list ChatMessage)
  (i : nat) (m : ChatMessage) :
  ms !! i = Some m ->
  append_content aid text ms !! i =
  Some (if jsstring_eqb (id m) aid
        then mkChatMessage (id m) (type m) (content m ++ text)
        else m).
Proof.
  intros Hi. unfold append_content.
  revert i Hi. induction ms as [|m0 ms IH]; intros [|i] Hi; try discriminate.
  - cbn in Hi |- *. now injection Hi as ->.
  - cbn in Hi |- *. now apply IH.
Qed.

(** The flags at the end of a turn. *)
Lemma release_flags (view : option State) (st' : State) :
  release view = Some st' ->
  isStreaming st' = false /\ isWaitingForResponse st' = false.
Proof.
  destruct view as [st1|]; [|discriminate]. cbn. intros [= <-]. now split.
Qed.

(** C8, as the code has it. A line with the marker whose payload, once
    trimmed of white space, is not empty and is not JSON is not dropped
    and is not fatal. The component stays mounted; every message that
    carries the assistant's identifier has the trimmed payload, as it
    stands, added at the end of its content, and every other message and
    the length of the transcript are as before. In a stream whose other
    lines are deltas, completions or lines without the marker, whatever
    its chunks and however the reading ends, the turn ends with the
    component mounted and released, and the content of the assistant
    message is the texts before the line, the trimmed payload, and the
    texts after it. *)
Theorem malformed_payload_is_appended_trimmed (aid : jsstring) (st : State)
  (line : jsstring) :
  startsWith line (js "data: ") = true ->
  trim (slice 6 line) <> [] ->
  JSON_parse (trim (slice 6 line)) = None ->
  (exists st',
     on_line aid st line = Some st' /\
     isStreaming st' = isStreaming st /\
     length (messages st') = length (messages st) /\
     forall i m,
       messages st !! i = Some m ->
       messages st' !! i =
       Some (if jsstring_eqb (id m) aid
             then mkChatMessage (id m) (type m)
                    (content m ++ trim (slice 6 line))
             else m)) /\
  (forall api uid thread content settings status failure values
          before after events_before events_after w st0,
     ~ In LF line ->
     Forall2 line_means before events_before ->
     Forall2 line_means after events_after ->
     snd (decode_stream new_TextDecoder (concat values)) =
       stream_text (before ++ line :: after) ->
     ok (mkResponse status (Some (mkBody values failure))) = true ->
     exists st',
       fst (handleSendMessage api uid aid thread content settings
              (Resolved (mkResponse status (Some (mkBody values failure))))
              w st0) = Some st' /\
       isStreaming st' = false /\ isWaitingForResponse st' = false /\
       last (messages st') =
         Some (mkChatMessage aid ai
                 (concat (List.map event_text events_before)
                  ++ trim (slice 6 line)
                  ++ concat (List.map event_text events_after)))).
Proof.
  intros Hm Hne Hp.
  destruct (on_line_fallback aid st line Hm Hne Hp) as [E1 E2].
  split.
  - eexists. split; [exact E2|]. split; [reflexivity|]. split.
    + cbn. unfold append_content. apply length_map.
    + intros i m Hi. cbn [messages setMessages setIsWaitingForResponse].
      now apply append_content_lookup.
  - intros api uid thread content settings status failure values
      before after events_before events_after w st0 Hlf Hb Ha Htext Hok.
    pose proof (messages_handleSendMessage api uid aid thread content settings
                  (Resolved (mkResponse status (Some (mkBody values failure))))
                  w st0) as E.
    cbv beta iota in E. rewrite Hok in E. cbn [body chunks] in E.
    destruct (deltas_of_texts (before ++ line :: after)
                (List.map event_text events_before
                 ++ trim (slice 6 line) :: List.map event_text events_after)
                values) as (ts & Et & Ec).
    { apply Forall2_app; [now apply texts_of_events|].
      constructor; [|now apply texts_of_events].
      split; [exact Hlf|]. now rewrite E1. }
    { exact Htext. }
    rewrite (append_values_texts aid _ ts _ Et) in E.
    destruct (mounted_with _ _ E) as (st' & Es & Em).
    exists st'. split; [exact Es|].
    assert (Hflags : isStreaming st' = false /\ isWaitingForResponse st' = false).
    { revert Es. unfold handleSendMessage, try_stream. rewrite Hok.
      cbn [negb body chunks ChatWindow.failure].
      destruct (read_all aid values _) as [rd view].
      destruct failure as [e|]; cbn [fst]; apply release_flags. }
    destruct Hflags as [Hs Hw]. split; [exact Hs|split; [exact Hw|]].
    rewrite Em, Ec, concat_app. cbn [concat].
    apply last_append_content.
Qed.

(** C10. The payload of a line with the marker is trimmed before anything
    else is done with it. A payload that is empty, or made of white space
    only, gives no delta and leaves the state as it is. When the [try]
    block throws on a payload that is not JSON, the text appended is the
    trimmed payload. And two lines with the same trimmed payload are
    handled alike. *)
Theorem payload_is_trimmed_first (aid : jsstring) (st : State) (line : jsstring) :
  startsWith line (js "data: ") = true ->
  (trim (slice 6 line) = [] ->
     delta_of_line line = None /\ on_line aid st line = Some st) /\
  (forallb is_js_whitespace (slice 6 line) = true ->
     delta_of_line line = None /\ on_line aid st line = Some st) /\
  (trim (slice 6 line) <> [] -> JSON_parse (trim (slice 6 line)) = None ->
     delta_of_line line = Some (VString (trim (slice 6 line))) /\
     on_line aid st line =
       Some (setMessages (append_content aid (trim (slice 6 line)))
               (setIsWaitingForResponse false st))) /\
  (forall line',
     startsWith line' (js "data: ") = true ->
     trim (slice 6 line') = trim (slice 6 line) ->
     delta_of_line line' = delta_of_line line /\
     on_line aid st line' = on_line aid st line).
Proof.
  intros Hm. split; [|split; [|split]].
  - apply on_line_empty.
  - intros Hw. apply on_line_empty. now apply trim_whitespace.
  - now apply on_line_fallback.
  - intros line' Hm' Ht. unfold delta_of_line, on_line.
    now rewrite Hm, Hm', Ht.
Qed.

End Payloads.

Section Unguarded.
Import JS ChatWindow.
Context `{HostNumber}.

Lemma getAuthHeader_now (w : AuthService.World) :
  AuthService.sync AuthService.getAuthHeader w =
  Some (match AuthService.storage_get AuthService.TOKEN_KEY w with
        | Some (c :: token) =>
            [("Authorization"%string, js "Bearer " ++ c :: token)]
        | _ => []
        end).
Proof.
  unfold AuthService.sync, AuthService.getAuthHeader, AuthService.getToken.
  cbn [AuthService.bind AuthService.advance].
  destruct (AuthService.storage_get AuthService.TOKEN_KEY w) as [[|c t]|];
    reflexivity.
Qed.

(** C4, as the code has it. The turn sends one request and no other: the
    stream request, under the stored access token when there is one. No
    answer to it, a 401 included, leads to a refresh or to the request
    being sent again: the store is left as it was, the turn is over, and
    after an answer that is not a success (or without a body, or a request
    that is rejected) the component is mounted and the transcript holds
    the two messages of the turn, the assistant's still empty. *)
Theorem stream_request_is_sent_once_and_never_refreshed (api : string)
  (uid aid thread content : jsstring) (settings : ChatSettings)
  (outcome : FetchOutcome) (w : AuthService.World) (st : State) :
  let '(view, w') :=
    handleSendMessage api uid aid thread content settings outcome w st in
  let request := stream_request api thread content settings w in
  AuthService.requests w' = AuthService.requests w ++ [request] /\
  AuthService.localStorage w' = AuthService.localStorage w /\
  AuthService.url request = (api +:+ "/stream")%string /\
  AuthService.headers request =
    ("Content-Type"%string, js "application/json")
      :: match AuthService.storage_get AuthService.TOKEN_KEY w with
         | Some (c :: token) =>
             [("Authorization"%string, js "Bearer " ++ c :: token)]
         | _ => []
         end /\
  (forall st',
     view = Some st' ->
     isStreaming st' = false /\ isWaitingForResponse st' = false) /\
  (match outcome with
   | Resolved response => ok response = false \/ body response = None
   | Rejected _ => True
   end ->
   exists st',
     view = Some st' /\
     isStreaming st' = false /\ isWaitingForResponse st' = false /\
     messages st' =
       messages st ++ [mkChatMessage uid human content; mkChatMessage aid ai []]).
Proof.
  assert (Hhead : AuthService.headers (stream_request api thread content settings w) =
    ("Content-Type"%string, js "application/json")
      :: match AuthService.storage_get AuthService.TOKEN_KEY w with
         | Some (c :: token) =>
             [("Authorization"%string, js "Bearer " ++ c :: token)]
         | _ => []
         end).
  { unfold stream_request. cbn [AuthService.headers].
    now rewrite getAuthHeader_now. }
  unfold handleSendMessage, try_stream.
  destruct outcome as [response|e].
  - destruct (ok response) eqn:Hok; cbn [negb].
    + destruct (body response) as [b|] eqn:Hb.
      * destruct (read_all aid (chunks b) _) as [rd view].
        destruct (failure b);
          (split; [reflexivity|split; [reflexivity|split; [reflexivity|
           split; [exact Hhead|split; [apply release_flags|]]]]]);
          intros [?|?]; discriminate.
      * split; [reflexivity|split; [reflexivity|split; [reflexivity|
          split; [exact Hhead|split; [apply release_flags|]]]]].
        intros _. eexists. split; [reflexivity|]. cbn.
        rewrite <- app_assoc. auto.
    + split; [reflexivity|split; [reflexivity|split; [reflexivity|
        split; [exact Hhead|split; [apply release_flags|]]]]].
      intros _. eexists. split; [reflexivity|]. cbn.
      rewrite <- app_assoc. auto.
  - split; [reflexivity|split; [reflexivity|split; [reflexivity|
      split; [exact Hhead|split; [apply release_flags|]]]]].
    intros _. eexists. split; [reflexivity|]. cbn.
    rewrite <- app_assoc. auto.
Qed.

End Unguarded.

(** ** The chat turn on sample streams *)

Section TurnSamples.
Import JS ChatWindow Samples.
#[local] Existing Instance literal_numbers.

Lemma chunk_boundaries_never_change_the_output_witness :
  deltas [firstn 3 hello_stream; skipn 3 hello_stream] = deltas [hello_stream] /\
  deltas [firstn 3 hello_stream; skipn 3 hello_stream] =
    [VString (js "Hel"); VString (js "lo")].
Proof.
  split.
  - exact (proj1 (chunk_boundaries_never_change_the_output hello_stream
                    [firstn 3 hello_stream; skipn 3 hello_stream] eq_refl)).
  - vm_compute. reflexivity.
Defined.

Lemma content_is_the_concatenation_of_the_deltas_witness :
  exists st',
    fst (handleSendMessage "http://localhost:8000"
           (js "u1") (js "a1") (js "t1") (js "Say hello") default_settings
           (Resolved (mkResponse 200
                        (Some (mkBody [firstn 30 hello_stream;
                                       skipn 30 hello_stream] None))))
           (stored "a0" "r0") history) = Some st' /\
    last (messages st')
    = Some (mkChatMessage (js "a1") ai (js "Hel" ++ js "lo" ++ [] ++ [])).
Proof.
  refine (proj1 content_is_the_concatenation_of_the_deltas
    [js "data: " ++ jq "{'content':'Hel'}";
     js "data: " ++ jq "{'content':'lo'}";
     js "data: " ++ jq "{'content':'','metadata':{'finish_reason':'stop'}}"]
    [Some (delta (js "Hel")); Some (delta (js "lo")); Some done]
    [firstn 30 hello_stream; skipn 30 hello_stream]
    "http://localhost:8000"%string (js "u1") (js "a1") (js "t1")
    (js "Say hello") default_settings 200 None (stored "a0" "r0") history
    _ _ eq_refl).
  - repeat constructor;
      try (vm_compute; intros Hin;
           repeat (destruct Hin as [Hin|Hin]; [discriminate|]); exact Hin).
    + eexists. split; [reflexivity|]. eexists; eexists.
      split; [vm_compute; reflexivity|].
      split; [vm_compute; reflexivity|]. split; vm_compute; reflexivity.
    + eexists. split; [reflexivity|]. eexists; eexists.
      split; [vm_compute; reflexivity|].
      split; [vm_compute; reflexivity|]. split; vm_compute; reflexivity.
    + eexists. split; [reflexivity|]. eexists; eexists.
      split; [vm_compute; reflexivity|].
      split; [vm_compute; reflexivity|]. vm_compute; reflexivity.
  - vm_compute. reflexivity.
Defined.

(** C8, refuted as stated: the payload of this line, the text after the
    marker, is not JSON, and what is appended is not that payload but the
    payload without the white space around it; and a payload of white
    space only, which is not JSON either, is dropped. *)
Lemma verbatim_payload_counterexample :
  let line := js "data:  not-json " in
  let st := mkState [mkChatMessage (js "a1") ai []] true true in
  startsWith line (js "data: ") = true /\
  JSON_parse (slice 6 line) = None /\
  option_map messages (on_line (js "a1") st line) <>
    Some [mkChatMessage (js "a1") ai ([] ++ slice 6 line)] /\
  option_map messages (on_line (js "a1") st line) =
    Some [mkChatMessage (js "a1") ai (js "not-json")] /\
  startsWith (js "data:    ") (js "data: ") = true /\
  JSON_parse (slice 6 (js "data:    ")) = None /\
  on_line (js "a1") st (js "data:    ") = Some st.
Proof. vm_compute. repeat split; discriminate. Qed.

Lemma malformed_payload_is_appended_trimmed_witness :
  exists st',
    fst (handleSendMessage "http://localhost:8000" (js "u1") (js "a1")
           (js "t1") (js "Say hello") default_settings
           (Resolved (mkResponse 200 (Some (mkBody [Visits.raw_stream] None))))
           (stored "a0" "r0") history) = Some st' /\
    isStreaming st' = false /\ isWaitingForResponse st' = false /\
    last (messages st') =
      Some (mkChatMessage (js "a1") ai ([] ++ js "not-json" ++ [])).
Proof.
  refine (proj2 (malformed_payload_is_appended_trimmed (js "a1") history
            (js "data:  not-json ") eq_refl _ eq_refl)
            "http://localhost:8000"%string (js "u1") (js "t1") (js "Say hello")
            default_settings 200 None [Visits.raw_stream] [] [] [] []
            (stored "a0" "r0") history _ _ _ _ eq_refl).
  - vm_compute. discriminate.
  - vm_compute. intros Hin.
    repeat (destruct Hin as [Hin|Hin]; [discriminate|]). exact Hin.
  - constructor.
  - constructor.
  - vm_compute. reflexivity.
Defined.

Lemma payload_is_trimmed_first_witness :
  on_line (js "a1") history (js "data:    ") = Some history /\
  on_line (js "a1") history (js "data:  not-json ") =
  on_line (js "a1") history (js "data: not-json").
Proof.
  split.
  - exact (proj2 (proj1 (proj2 (payload_is_trimmed_first (js "a1") history
             (js "data:    ") eq_refl)) eq_refl)).
  - exact (proj2 (proj2 (proj2 (proj2 (payload_is_trimmed_first (js "a1") history
             (js "data: not-json") eq_refl)))
             (js "data:  not-json ") eq_refl eq_refl)).
Defined.

(** C4, refuted as stated: the stream request is answered with a 401
    while a refresh credential is stored; no refresh is sent, the request
    is not sent again, and the turn is over. *)
Lemma guarded_stream_counterexample :
  let '(view, w') :=
    handleSendMessage "http://localhost:8000" (js "u1") (js "a1") (js "t1")
      (js "Say hello") default_settings
      (Resolved (mkResponse 401 None)) (stored "a0" "r0") history in
  AuthService.storage_get AuthService.REFRESH_TOKEN_KEY (stored "a0" "r0")
    = Some (js "r0") /\
  AuthService.refresh_calls w' = 0%nat /\
  length (AuthService.requests w') = 1%nat /\
  option_map isStreaming view = Some false /\
  option_map (fun st' => last (messages st')) view =
    Some (Some (mkChatMessage (js "a1") ai [])).
Proof. vm_compute. repeat split. Qed.

Lemma stream_request_is_sent_once_and_never_refreshed_witness :
  exists st',
    fst (handleSendMessage "http://localhost:8000" (js "u1") (js "a1")
           (js "t1") (js "Say hello") default_settings
           (Resolved (mkResponse 401 None)) (stored "a0" "r0") history)
      = Some st' /\
    isStreaming st' = false /\ isWaitingForResponse st' = false /\
    messages st' =
      messages history ++ [mkChatMessage (js "u1") human (js "Say hello");
                           mkChatMessage (js "a1") ai []].
Proof.
  pose proof (stream_request_is_sent_once_and_never_refreshed
    "http://localhost:8000" (js "u1") (js "a1") (js "t1") (js "Say hello")
    default_settings (Resolved (mkResponse 401 None)) (stored "a0" "r0") history)
    as Hthm.
  destruct (handleSendMessage _ _ _ _ _ _ _ _ _) as [view w'].
  exact (proj2 (proj2 (proj2 (proj2 (proj2 Hthm)))) (or_introl eq_refl)).
Defined.

End TurnSamples.

(* ===================================================================== *)
(** * Calls in flight together *)
(* ===================================================================== *)

Section Together.
Import JS AuthService.
Context `{HostNumber}.

(** A call of [getCurrentUser] that starts under a stored access token
    sends its request and waits; whenever the answer is then a 401 and a
    refresh token is stored, the call sends a refresh of its own and waits
    again. *)
Lemma resume_getCurrentUser (fuel : nat) (script : list FetchOutcome)
  (w : World) (a : jsstring) :
  storage_get TOKEN_KEY w = Some a -> a <> [] ->
  exists k,
    resume (Ready (getCurrentUser (S fuel)), script) w =
      ((Waiting k, script), send (me_request a) w) /\
    forall (r : jsstring) (resp : Response) (rest : list FetchOutcome) (w' : World),
      status resp = 401 ->
      storage_get REFRESH_TOKEN_KEY w' = Some r -> r <> [] ->
      exists k',
        resume (Waiting k, Resolved resp :: rest) w' =
          ((Waiting k', rest), send (refresh_request r) w').
Proof.
  intros Ha Hne. unfold resume. cbn [getCurrentUser]. unfold getToken.
  cbn [bind advance]. rewrite Ha, (present_some a Hne).
  cbn [negb bind fetch advance].
  eexists. split; [reflexivity|].
  intros r resp rest w' Hs Hr Hrne. cbn [answer bind].
  rewrite (status_401_not_ok resp Hs), Hs. cbn [negb Z.eqb Pos.eqb].
  unfold refreshAccessToken, getRefreshToken. cbn [bind await advance].
  rewrite Hr, (present_some r Hrne).
  cbn [negb bind await try_catch fetch advance].
  eexists. reflexivity.
Qed.

Lemma round_of_starts (fuel : nat) (scripts : list (list FetchOutcome))
  (w : World) (a : jsstring) :
  storage_get TOKEN_KEY w = Some a -> a <> [] ->
  exists pool,
    round (calls (getCurrentUser (S fuel)) scripts) w =
      (pool, mkWorld (localStorage w)
               (requests w ++ repeat (me_request a) (length scripts))) /\
    Forall2
      (fun t script =>
         exists k, t = (Waiting k, script) /\
           forall r resp rest w',
             status resp = 401 ->
             storage_get REFRESH_TOKEN_KEY w' = Some r -> r <> [] ->
             exists k',
               resume (Waiting k, Resolved resp :: rest) w' =
                 ((Waiting k', rest), send (refresh_request r) w'))
      pool scripts.
Proof.
  intros Ha Hne. revert w Ha.
  induction scripts as [|script scripts IH]; intros w Ha.
  - exists []. split; [|constructor]. cbn. rewrite app_nil_r. now destruct w.
  - destruct (resume_getCurrentUser fuel script w a Ha Hne) as (k & E & Hk).
    destruct (IH (send (me_request a) w) Ha) as (pool & E' & HF).
    exists ((Waiting k, script) :: pool). split.
    + cbn [calls List.map round]. rewrite E.
      fold (calls (getCurrentUser (S fuel)) scripts). rewrite E'.
      unfold send. cbn [localStorage requests length repeat].
      rewrite <- app_assoc. reflexivity.
    + constructor; [|exact HF]. exists k. split; [reflexivity|exact Hk].
Qed.

Lemma round_of_refusals (pool : list (Task JSValue))
  (scripts : list (list FetchOutcome)) (w : World) (r : jsstring) :
  storage_get REFRESH_TOKEN_KEY w = Some r -> r <> [] ->
  Forall (fun script => exists resp rest,
            script = Resolved resp :: rest /\ status resp = 401) scripts ->
  Forall2
    (fun t script =>
       exists k, t = (Waiting k, script) /\
         forall r resp rest w',
           status resp = 401 ->
           storage_get REFRESH_TOKEN_KEY w' = Some r -> r <> [] ->
           exists k',
             resume (Waiting k, Resolved resp :: rest) w' =
               ((Waiting k', rest), send (refresh_request r) w'))
    pool scripts ->
  exists pool',
    round pool w =
      (pool', mkWorld (localStorage w)
                (requests w ++ repeat (refresh_request r) (length scripts))) /\
    Forall (fun t => exists k, fst t = Waiting k) pool'.
Proof.
  intros Hr Hne Hscripts HF. revert w Hr.
  induction HF as [|t script pool scripts (k & -> & Hk) _ IH]; intros w Hr.
  - exists []. split; [|constructor]. cbn. rewrite app_nil_r. now destruct w.
  - inversion Hscripts as [|? ? (resp & rest & -> & Hs) Hrest]; subst.
    destruct (Hk r resp rest w Hs Hr Hne) as (k' & E).
    destruct (IH Hrest (send (refresh_request r) w) Hr) as (pool' & E' & HW).
    exists ((Waiting k', rest) :: pool'). split.
    + cbn [round]. rewrite E, E'.
      unfold send. cbn [localStorage requests length repeat].
      rewrite <- app_assoc. reflexivity.
    + constructor; [now exists k'|exact HW].
Qed.

Lemma filter_refresh_repeat (a r : jsstring) (n m : nat) :
  length (List.filter is_refresh
            (repeat (me_request a) n ++ repeat (refresh_request r) m)) = m.
Proof.
  induction n as [|n IH]; cbn [repeat app].
  - induction m as [|m IHm]; [reflexivity|].
    cbn [repeat]. change (is_refresh (refresh_request r)) with true in *.
    cbn [List.filter]. change (is_refresh (refresh_request r)) with true.
    cbn [length]. now rewrite IHm.
  - cbn [List.filter]. change (is_refresh (me_request a)) with false. exact IH.
Qed.

(** Resuming one call leaves the others as they are. *)
Lemma resume_nth_insert {A : Type} (i : nat) (pool : list (Task A))
  (t : Task A) (w : World) :
  pool !! i = Some t ->
  resume_nth i pool w = (<[i := fst (resume t w)]> pool, snd (resume t w)).
Proof.
  revert i. induction pool as [|t0 pool IH]; intros [|i] Hi; try discriminate.
  - cbn in Hi. injection Hi as ->. cbn [resume_nth].
    destruct (resume t w) as [t' w']. reflexivity.
  - cbn in Hi. cbn [resume_nth]. rewrite (IH i Hi).
    destruct (resume t w) as [t' w']. reflexivity.
Qed.

(** The refusals delivered in any order, to calls that wait for the answer
    to their request, each call at most once and before any refresh is
    answered: every delivery sends a refresh for the stored refresh
    token. *)
Lemma deliveries_of_refusals (order : list nat) (pool : list (Task JSValue))
  (w : World) (r : jsstring) :
  storage_get REFRESH_TOKEN_KEY w = Some r -> r <> [] ->
  NoDup order ->
  (forall i, i ∈ order ->
     exists k resp rest,
       pool !! i = Some (Waiting k, Resolved resp :: rest) /\
       status resp = 401 /\
       forall r resp rest w',
         status resp = 401 ->
         storage_get REFRESH_TOKEN_KEY w' = Some r -> r <> [] ->
         exists k',
           resume (Waiting k, Resolved resp :: rest) w' =
             ((Waiting k', rest), send (refresh_request r) w')) ->
  localStorage (snd (deliveries order pool w)) = localStorage w /\
  requests (snd (deliveries order pool w)) =
    requests w ++ repeat (refresh_request r) (length order).
Proof.
  intros Hr Hne Hnd. revert pool w Hr.
  induction Hnd as [|i order Hi Hnd IH]; intros pool w Hr Hpool.
  - cbn. now rewrite app_nil_r.
  - destruct (Hpool i) as (k & resp & rest & Ei & Hs & Hk); [now left|].
    destruct (Hk r resp rest w Hs Hr Hne) as (k' & Eres).
    cbn [deliveries]. rewrite (resume_nth_insert i pool _ w Ei), Eres.
    cbv beta iota zeta. cbn [fst snd].
    destruct (IH (<[i := (Waiting k', rest)]> pool)
                (send (refresh_request r) w) Hr) as [Hs' Hq'].
    { intros j Hj. destruct (Hpool j) as (kj & respj & restj & Ej & Hsj & Hkj);
        [now right|].
      exists kj, respj, restj. split; [|now split].
      rewrite list_lookup_insert_ne; [exact Ej|].
      intros ->. contradiction. }
    split; [exact Hs'|].
    etransitivity; [exact Hq'|].
    unfold send. cbn [requests length repeat]. now rewrite <- app_assoc.
Qed.

(** C5, as the code has it. There is no refresh in flight that a call
    could wait for. When [getCurrentUser] is called any number of times
    together, under a stored access token and a stored refresh token, and
    every one of the requests is refused with a 401, then every call to
    which the refusal is delivered before any refresh has been answered
    sends a refresh of its own, for the refresh token that is stored:
    delivered to all the calls in turn, or to any of them in any order,
    the refusals lead to as many refresh calls as there were deliveries,
    all for the same refresh token. *)
Theorem every_refused_call_refreshes_on_its_own (fuel : nat) (w : World)
  (a r : jsstring) (scripts : list (list FetchOutcome)) :
  storage_get TOKEN_KEY w = Some a -> a <> [] ->
  storage_get REFRESH_TOKEN_KEY w = Some r -> r <> [] ->
  Forall (fun script => exists resp rest,
            script = Resolved resp :: rest /\ status resp = 401) scripts ->
  (let '(pool, w') := rounds 2 (calls (getCurrentUser (S fuel)) scripts) w in
   requests w' =
     requests w ++ repeat (me_request a) (length scripts)
                ++ repeat (refresh_request r) (length scripts) /\
   refresh_calls w' = (refresh_calls w + length scripts)%nat /\
   localStorage w' = localStorage w /\
   Forall (fun t => exists k, fst t = Waiting k) pool) /\
  (forall order : list nat,
     NoDup order -> Forall (fun i => (i < length scripts)%nat) order ->
     let '(pool1, w1) := round (calls (getCurrentUser (S fuel)) scripts) w in
     let '(_, w2) := deliveries order pool1 w1 in
     requests w2 =
       requests w ++ repeat (me_request a) (length scripts)
                  ++ repeat (refresh_request r) (length order) /\
     refresh_calls w2 = (refresh_calls w + length order)%nat /\
     localStorage w2 = localStorage w).
Proof.
  intros Ha Hane Hr Hrne Hscripts.
  destruct (round_of_starts fuel scripts w a Ha Hane) as (pool1 & E1 & HF).
  split.
  - destruct (round_of_refusals pool1 scripts
                (mkWorld (localStorage w)
                   (requests w ++ repeat (me_request a) (length scripts)))
                r Hr Hrne Hscripts HF) as (pool2 & E2 & HW).
    cbn [rounds]. rewrite E1, E2. cbn [localStorage requests].
    rewrite <- app_assoc.
    repeat split; [|exact HW].
    rewrite refresh_calls_app. now rewrite filter_refresh_repeat.
  - intros order Hnd Hlt. rewrite E1.
    set (w1 := mkWorld (localStorage w)
                 (requests w ++ repeat (me_request a) (length scripts))).
    destruct (deliveries_of_refusals order pool1 w1 r Hr Hrne Hnd) as [Hs Hq].
    { intros i Hi.
      assert (Hi' : (i < length scripts)%nat).
      { rewrite Forall_forall in Hlt. now apply Hlt. }
      destruct (lookup_lt_is_Some_2 scripts i Hi') as [script Es].
      destruct (Forall2_lookup_r _ _ _ _ _ HF Es) as (t & Et & k & -> & Hk).
      destruct (Forall_lookup_1 _ _ _ _ Hscripts Es) as (resp & rest & -> & Hst).
      exists k, resp, rest. split; [exact Et|]. split; [exact Hst|exact Hk]. }
    destruct (deliveries order pool1 w1) as [pool2 w2]. cbn [snd] in Hs, Hq.
    split; [|split].
    + rewrite Hq. unfold w1. cbn [requests]. now rewrite <- app_assoc.
    + unfold refresh_calls. rewrite Hq. unfold w1. cbn [requests].
      rewrite <- app_assoc, List.filter_app, length_app.
      now rewrite filter_refresh_repeat.
    + rewrite Hs. reflexivity.
Qed.

End Together.

Section TogetherSamples.
Import JS AuthService Samples.
#[local] Existing Instance literal_numbers.

(** C5, refuted as stated: two calls made together are each refused with
    a 401; both finish with the user, and two refresh calls were sent, not
    one. *)
Lemma single_refresh_counterexample :
  let '(pool, w') :=
    rounds 8
      (calls (getCurrentUser 2)
         [[Resolved refusal; Resolved (granted "a1" "r1"); Resolved whoami];
          [Resolved refusal; Resolved (granted "a2" "r2"); Resolved whoami]])
      (stored "a0" "r0") in
  List.map fst pool = [Finished (Returned profile); Finished (Returned profile)] /\
  refresh_calls w' = 2%nat /\
  List.filter is_refresh (requests w') =
    [refresh_request (js "r0"); refresh_request (js "r0")].
Proof. vm_compute. repeat split. Qed.

Lemma every_refused_call_refreshes_on_its_own_witness :
  let '(pool, w') :=
    rounds 2
      (calls (getCurrentUser 1)
         [[Resolved refusal]; [Resolved refusal]; [Resolved refusal]])
      (stored "a0" "r0") in
  requests w' =
    [me_request (js "a0"); me_request (js "a0"); me_request (js "a0");
     refresh_request (js "r0"); refresh_request (js "r0");
     refresh_request (js "r0")] /\
  refresh_calls w' = 3%nat /\
  localStorage w' = localStorage (stored "a0" "r0") /\
  Forall (fun t => exists k, fst t = Waiting k) pool.
Proof.
  refine (proj1 (every_refused_call_refreshes_on_its_own 0 (stored "a0" "r0")
    (js "a0") (js "r0")
    [[Resolved refusal]; [Resolved refusal]; [Resolved refusal]]
    eq_refl _ eq_refl _ _)); try discriminate.
  repeat constructor; exists refusal, []; split; reflexivity.
Defined.

End TogetherSamples.

(* ===================================================================== *)
(** * More on the session *)
(* ===================================================================== *)

Section Guard.
Import JS AuthService SessionTrace.
Context `{HostNumber}.

Lemma Get_same_receiver (v : JSValue) (k1 k2 : jsstring) (x : JSValue) :
  Get v k1 = Some x -> exists y, Get v k2 = Some y.
Proof. destruct v; cbn; intros E; try discriminate; eauto. Qed.

(** What a refresh can do: nothing at all without a refresh token;
    otherwise one request, after which the store either holds a new pair
    and the result is [true], or holds neither credential and the result
    is [false]. *)
Lemma refresh_effect (script : list FetchOutcome) (w : World) :
  (present (storage_get REFRESH_TOKEN_KEY w) = false /\
   run refreshAccessToken script w = (Returned false, script, w)) \/
  (exists r,
     storage_get REFRESH_TOKEN_KEY w = Some r /\ r <> [] /\
     (run refreshAccessToken script w =
        (Returned false, tl script,
         mkWorld (signed_out w) (requests w ++ [refresh_request r])) \/
      exists resp rest token va vr access refresh,
        script = Resolved resp :: rest /\
        ok resp = true /\ json resp = Some token /\
        Get token (js "access_token") = Some va /\
        Get token (js "refresh_token") = Some vr /\
        ToString va = Some access /\ ToString vr = Some refresh /\
        run refreshAccessToken script w =
          (Returned true, rest,
           mkWorld (signed_in access refresh w)
             (requests w ++ [refresh_request r])))).
Proof.
  destruct (present (storage_get REFRESH_TOKEN_KEY w)) eqn:Hp.
  2: { left. split; [reflexivity|]. now apply refresh_without_token. }
  right. destruct (storage_get REFRESH_TOKEN_KEY w) as [r|] eqn:Hr;
    [|discriminate].
  assert (Hne : r <> []) by (destruct r; [discriminate|congruence]).
  exists r. split; [reflexivity|]. split; [exact Hne|].
  destruct script as [|o rest].
  - left. unfold refreshAccessToken, getRefreshToken. cbn [bind run].
    rewrite Hr, (present_some r Hne). cbn [negb].
    rewrite run_try_catch, run_bind. reflexivity.
  - destruct o as [resp|e].
    2: { left. now apply refresh_failure. }
    destruct (ok resp) eqn:Hok.
    2: { left. apply (refresh_failure (Resolved resp) rest w r Hr Hne).
         now left. }
    destruct (json resp) as [token|] eqn:Hj.
    2: { left. apply (refresh_failure (Resolved resp) rest w r Hr Hne).
         right. now left. }
    destruct (Get token (js "access_token")) as [va|] eqn:Hva.
    2: { left. apply (refresh_failure (Resolved resp) rest w r Hr Hne).
         right. right. now exists token. }
    destruct (Get_same_receiver token _ (js "refresh_token") va Hva) as [vr Hvr].
    destruct (ToString va) as [access|] eqn:Hta.
    2: { left. apply (refresh_unstorable resp rest w r token va Hr Hne Hok Hj Hva).
         now left. }
    destruct (ToString vr) as [refresh|] eqn:Htr.
    2: { left. apply (refresh_unstorable resp rest w r token va Hr Hne Hok Hj Hva).
         right. unfold OptionalGet. now rewrite Hvr. }
    right. exists resp, rest, token, va, vr, access, refresh.
    split; [reflexivity|]. split; [exact Hok|]. split; [exact Hj|].
    split; [exact Hva|]. split; [exact Hvr|].
    split; [exact Hta|]. split; [exact Htr|].
    now apply (refresh_success resp rest w r token va vr).
Qed.

(** One turn of [getCurrentUser] under a stored access token. *)
Lemma getCurrentUser_step (fuel : nat) (script : list FetchOutcome)
  (w : World) (a : jsstring) :
  storage_get TOKEN_KEY w = Some a -> a <> [] ->
  run (getCurrentUser (S fuel)) script w =
  match answer script with
  | (Rejected e, s1) => (Thrown e, s1, send (me_request a) w)
  | (Resolved resp, s1) =>
      if ok resp then
        match json resp with
        | Some u => (Returned u, s1, send (me_request a) w)
        | None => (Thrown SyntaxError, s1, send (me_request a) w)
        end
      else if status resp =? 401 then
        match run refreshAccessToken s1 (send (me_request a) w) with
        | (Returned true, s2, w2) => run (getCurrentUser fuel) s2 w2
        | (Returned false, s2, w2) =>
            (Thrown (Error "Failed to fetch user"), s2, w2)
        | (Thrown e, s2, w2) => (Thrown e, s2, w2)
        | (Diverged, s2, w2) => (Diverged, s2, w2)
        end
      else (Thrown (Error "Failed to fetch user"), s1, send (me_request a) w)
  end.
Proof.
  intros Ha Hne. cbn [getCurrentUser]. unfold getToken. cbn [bind run].
  rewrite Ha, (present_some a Hne). cbn [negb].
  rewrite run_bind. cbn [fetch run].
  change (send _ w) with (send (me_request a) w).
  destruct (answer script) as [[resp|e] s1]; cbn [run]; [|reflexivity].
  destruct (ok resp); cbn [negb].
  - cbn [response_json run]. destruct (json resp); reflexivity.
  - destruct (status resp =? 401); [|reflexivity].
    rewrite run_bind, run_await.
    destruct (run refreshAccessToken s1 (send (me_request a) w))
      as [[[[|]|e|] s2] w2]; try reflexivity.
    apply run_await.
Qed.

Lemma getCurrentUser_no_token (fuel : nat) (script : list FetchOutcome)
  (w : World) :
  present (storage_get TOKEN_KEY w) = false ->
  run (getCurrentUser (S fuel)) script w =
  (Thrown (Error "No authentication token"), script, w).
Proof.
  intros Hp. cbn [getCurrentUser]. unfold getToken. cbn [bind run].
  now rewrite Hp.
Qed.

Lemma present_cases (t : option jsstring) :
  present t = false \/ exists a, t = Some a /\ a <> [].
Proof.
  destruct t as [[|c a]|]; [now left| |now left].
  right. now exists (c :: a).
Qed.

(** The shape of every run: the requests added alternate between the two
    endpoints, with one more to [/auth/me] when the call returns, and no
    key besides the two credentials changes. *)
Lemma getCurrentUser_shape (fuel : nat) (script : list FetchOutcome) (w : World) :
  exists more,
    requests (snd (run (getCurrentUser fuel) script w)) = requests w ++ more /\
    alternating true more = true /\
    (returned (fst (fst (run (getCurrentUser fuel) script w))) = true ->
     Nat.Odd (length more)) /\
    (forall key, key <> TOKEN_KEY -> key <> REFRESH_TOKEN_KEY ->
       localStorage (snd (run (getCurrentUser fuel) script w)) !! key =
       localStorage w !! key).
Proof.
  revert script w. induction fuel as [|fuel IH]; intros script w.
  { exists []. cbn. rewrite app_nil_r. repeat split; auto; try discriminate. }
  destruct (present_cases (storage_get TOKEN_KEY w)) as [Hp|(a & Ha & Hne)].
  { rewrite (getCurrentUser_no_token fuel script w Hp).
    exists []. cbn. rewrite app_nil_r. repeat split; auto; try discriminate. }
  rewrite (getCurrentUser_step fuel script w a Ha Hne).
  assert (Hme : is_me (me_request a) = true) by reflexivity.
  assert (H1 : Nat.Odd 1) by (exists 0%nat; reflexivity).
  destruct (answer script) as [[resp|e] s1].
  2: { exists [me_request a]. cbn [snd fst requests send localStorage returned].
       cbn [alternating]. rewrite Hme. repeat split; auto; try discriminate. }
  destruct (ok resp).
  { destruct (json resp); exists [me_request a];
      cbn [snd fst requests send localStorage returned alternating];
      rewrite Hme; repeat split; auto; try discriminate. }
  destruct (status resp =? 401).
  2: { exists [me_request a]. cbn [snd fst requests send localStorage returned].
       cbn [alternating]. rewrite Hme. repeat split; auto; try discriminate. }
  destruct (refresh_effect s1 (send (me_request a) w))
    as [[_ E]|(r & Hr & Hrne &
          [E|(resp2 & rest & token & va & vr & access & refresh
              & -> & _ & _ & _ & _ & _ & _ & E)])];
    rewrite E.
  - exists [me_request a]. cbn [snd fst requests send localStorage returned].
    cbn [alternating]. rewrite Hme. repeat split; auto; try discriminate.
  - exists [me_request a; refresh_request r].
    cbn [snd fst requests send localStorage returned].
    rewrite <- app_assoc. repeat split; auto; try discriminate.
    intros key H1' H2'. unfold signed_out. cbn [localStorage].
    rewrite lookup_delete_ne by congruence.
    now rewrite lookup_delete_ne by congruence.
  - match goal with |- context [run (getCurrentUser fuel) rest ?w2] =>
      destruct (IH rest w2) as (more & Hreq & Halt & Hodd & Hframe) end.
    exists (me_request a :: refresh_request r :: more).
    split.
    { rewrite Hreq. unfold send. cbn [requests]. now rewrite <- !app_assoc. }
    split.
    { cbn [alternating negb]. rewrite Hme, Halt. reflexivity. }
    split.
    + intros Hret. destruct (Hodd Hret) as [k Hk]. exists (S k).
      cbn [length]. lia.
    + intros key H1' H2'. rewrite (Hframe key H1' H2').
      unfold signed_in, send. cbn [localStorage].
      rewrite lookup_insert_ne by congruence.
      now rewrite lookup_insert_ne by congruence.
Qed.

End Guard.

Section GuardEdges.
Import JS AuthService SessionTrace.
Context `{HostNumber}.

(** X1. Without a stored access token, or with an empty one,
    [getCurrentUser] and [updateUser] fail with [No authentication token]
    before anything is sent: no request, no answer of the server used,
    the store as it was. *)
Theorem no_request_without_access_token (fuel : nat)
  (script : list FetchOutcome) (w : World) (userData : JSValue) :
  present (storage_get TOKEN_KEY w) = false ->
  run (getCurrentUser (S fuel)) script w =
    (Thrown (Error "No authentication token"), script, w) /\
  run (Account.updateUser userData) script w =
    (Thrown (Error "No authentication token"), script, w).
Proof.
  intros Hp. split; [now apply getCurrentUser_no_token|].
  unfold Account.updateUser, getToken. cbn [bind run]. now rewrite Hp.
Qed.

(** X2. Only a 401 leads to a refresh. When the request of
    [getCurrentUser] is rejected, the rejection is thrown as it is; when it
    is answered with another status that is not a success, the call fails
    with [Failed to fetch user]. In both cases one request was sent, no
    refresh, and the store is as it was. *)
Theorem other_failures_are_not_refreshed (fuel : nat) (w : World)
  (a : jsstring) (resp : Response) (e : Exception) (rest : list FetchOutcome) :
  storage_get TOKEN_KEY w = Some a -> a <> [] ->
  ok resp = false -> status resp <> 401 ->
  run (getCurrentUser (S fuel)) (Resolved resp :: rest) w =
    (Thrown (Error "Failed to fetch user"), rest, send (me_request a) w) /\
  run (getCurrentUser (S fuel)) (Rejected e :: rest) w =
    (Thrown e, rest, send (me_request a) w).
Proof.
  intros Ha Hne Hok Hs. rewrite !(getCurrentUser_step fuel _ w a Ha Hne).
  cbn [answer]. rewrite Hok.
  apply Z.eqb_neq in Hs. rewrite Hs. split; reflexivity.
Qed.

(** X3. A 401 while no refresh token is stored (or an empty one) fails
    with [Failed to fetch user] without a refresh call, and without
    touching the store: the access token that was just refused stays
    stored. *)
Theorem refusal_without_refresh_token_keeps_the_store (fuel : nat) (w : World)
  (a : jsstring) (resp : Response) (rest : list FetchOutcome) :
  storage_get TOKEN_KEY w = Some a -> a <> [] ->
  present (storage_get REFRESH_TOKEN_KEY w) = false ->
  status resp = 401 ->
  run (getCurrentUser (S fuel)) (Resolved resp :: rest) w =
    (Thrown (Error "Failed to fetch user"), rest, send (me_request a) w) /\
  storage_get TOKEN_KEY (send (me_request a) w) = Some a.
Proof.
  intros Ha Hne Hp Hs. split; [|exact Ha].
  rewrite (getCurrentUser_step fuel _ w a Ha Hne). cbn [answer].
  rewrite (status_401_not_ok resp Hs), Hs. cbn [Z.eqb Pos.eqb].
  now rewrite (refresh_without_token rest (send (me_request a) w) Hp).
Qed.

(** X4. In every run of [getCurrentUser] the requests go to [/auth/me]
    and [/auth/refresh] in turn, starting with [/auth/me]: never two
    refreshes in a row, never the request sent again without a refresh in
    between. A call that returns a user has ended on a request to
    [/auth/me], so it sent an odd number of requests. *)
Theorem requests_alternate (fuel : nat) (script : list FetchOutcome) (w : World) :
  exists more,
    requests (snd (run (getCurrentUser fuel) script w)) = requests w ++ more /\
    alternating true more = true /\
    (returned (fst (fst (run (getCurrentUser fuel) script w))) = true ->
     Nat.Odd (length more)).
Proof.
  destruct (getCurrentUser_shape fuel script w) as (more & E & Ha & Ho & _).
  exists more. auto.
Qed.

(** X5. Whatever the server answers, [getCurrentUser] and the refreshes it
    triggers change no key of [localStorage] besides [access_token] and
    [refresh_token]. *)
Theorem only_the_credentials_are_written (fuel : nat)
  (script : list FetchOutcome) (w : World) (key : string) :
  key <> TOKEN_KEY -> key <> REFRESH_TOKEN_KEY ->
  localStorage (snd (run (getCurrentUser fuel) script w)) !! key =
  localStorage w !! key.
Proof.
  destruct (getCurrentUser_shape fuel script w) as (more & _ & _ & _ & Hf).
  apply Hf.
Qed.

(** X6. The recursion of [getCurrentUser] is bounded by the answers of the
    server: each turn uses up two of them. On a script of [n] answers any
    depth above [n / 2] is enough for the call to return or throw, and
    the result is the same at every greater depth. *)
Theorem getCurrentUser_settles_on_a_finite_script (fuel fuel' : nat)
  (script : list FetchOutcome) (w : World) :
  (length script < 2 * fuel)%nat -> (fuel <= fuel')%nat ->
  fst (fst (run (getCurrentUser fuel) script w)) <> Diverged /\
  run (getCurrentUser fuel') script w = run (getCurrentUser fuel) script w.
Proof.
  intros Hlen Hle.
  pose proof (getCurrentUser_terminates fuel script w Hlen) as Hd.
  split; [exact Hd|].
  induction Hle as [|fuel' Hle IH]; [reflexivity|].
  rewrite getCurrentUser_more_fuel; [exact IH|]. now rewrite IH.
Qed.

(** X7. [refreshAccessToken] never throws: whatever happens to its request
    or to the body of the answer it returns a boolean. It returns [true]
    only after one request, with both credentials stored; when it returns
    [false] it has either sent nothing and left the store alone, or sent
    one request and removed both credentials. *)
Theorem refreshAccessToken_never_throws (script : list FetchOutcome) (w : World) :
  exists b script' w',
    run refreshAccessToken script w = (Returned b, script', w') /\
    (b = true ->
       length (requests w') = S (length (requests w)) /\
       is_Some (localStorage w' !! TOKEN_KEY) /\
       is_Some (localStorage w' !! REFRESH_TOKEN_KEY)) /\
    (b = false ->
       w' = w \/
       (length (requests w') = S (length (requests w)) /\
        localStorage w' !! TOKEN_KEY = None /\
        localStorage w' !! REFRESH_TOKEN_KEY = None)).
Proof.
  destruct (refresh_effect script w)
    as [[_ E]|(r & Hr & Hrne &
          [E|(resp & rest & token & va & vr & access & refresh
              & -> & _ & _ & _ & _ & _ & _ & E)])];
    rewrite E; do 3 eexists; (split; [reflexivity|]); split;
    try discriminate; intros _.
  - now left.
  - right. cbn [requests localStorage]. rewrite length_app. cbn [length].
    split; [lia|]. unfold signed_out. split.
    + rewrite lookup_delete_ne by discriminate. apply lookup_delete_eq.
    + apply lookup_delete_eq.
  - cbn [requests localStorage]. rewrite length_app. cbn [length].
    split; [lia|]. unfold signed_in. split.
    + rewrite lookup_insert_ne by discriminate. rewrite lookup_insert_eq. eauto.
    + rewrite lookup_insert_eq. eauto.
Qed.

(** X8. A refresh answered with a success whose body has an
    [access_token] that can be converted to a string but no
    [refresh_token] stores the text [undefined] as the refresh token and
    returns [true]. That text counts as a stored refresh token: the next
    refresh sends it to the endpoint. *)
Theorem missing_refresh_token_is_stored_as_undefined (w : World) (r : jsstring)
  (resp : Response) (properties : list (jsstring * JSValue)) (va : JSValue)
  (access : jsstring) (rest script' : list FetchOutcome) :
  storage_get REFRESH_TOKEN_KEY w = Some r -> r <> [] ->
  ok resp = true -> json resp = Some (VObject properties) ->
  own_property properties (js "access_token") = Some va ->
  ToString va = Some access ->
  own_property properties (js "refresh_token") = None ->
  let w' := mkWorld (signed_in access (js "undefined") w)
              (requests w ++ [refresh_request r]) in
  run refreshAccessToken (Resolved resp :: rest) w = (Returned true, rest, w') /\
  storage_get REFRESH_TOKEN_KEY w' = Some (js "undefined") /\
  exists more,
    requests (snd (run refreshAccessToken script' w')) =
    requests w' ++ refresh_request (js "undefined") :: more.
Proof.
  intros Hr Hne Hok Hj Hva Hta Hvr w'. split; [|split].
  - apply (refresh_success resp rest w r (VObject properties) va VUndefined);
      auto; cbn [Get]; [now rewrite Hva|now rewrite Hvr].
  - apply storage_get_signed_in_refresh.
  - apply refresh_sends; [apply storage_get_signed_in_refresh|].
    vm_compute. discriminate.
Qed.

(** X9. [setTokens] writes the access token first and the refresh token
    second, and can stop in between. On [null] or [undefined], and on an
    access token that cannot be converted to a string, it throws a
    [TypeError] before anything is written. On a refresh token that
    cannot be converted it throws after the access token was written:
    the store then holds the new access token next to the old refresh
    token. Otherwise it stores both, and [getToken] and [getRefreshToken]
    read back exactly what was stored. *)
Theorem setTokens_writes_in_order (token : JSValue)
  (script : list FetchOutcome) (w : World) :
  match Get token (js "access_token") with
  | None => run (setTokens token) script w = (Thrown TypeError, script, w)
  | Some va =>
      match ToString va, ToString (OptionalGet token (js "refresh_token")) with
      | None, _ => run (setTokens token) script w = (Thrown TypeError, script, w)
      | Some access, None =>
          exists w',
            run (setTokens token) script w = (Thrown TypeError, script, w') /\
            requests w' = requests w /\
            storage_get TOKEN_KEY w' = Some access /\
            forall key, key <> TOKEN_KEY ->
                        storage_get key w' = storage_get key w
      | Some access, Some refresh =>
          exists w',
            run (setTokens token) script w = (Returned tt, script, w') /\
            w' = mkWorld (signed_in access refresh w) (requests w) /\
            sync getToken w' = Some (Some access) /\
            sync getRefreshToken w' = Some (Some refresh)
      end
  end.
Proof.
  rewrite run_setTokens.
  destruct (Get token (js "access_token")) as [va|]; [|reflexivity].
  destruct (ToString va) as [access|]; [|reflexivity].
  destruct (ToString (OptionalGet token (js "refresh_token"))) as [refresh|].
  - eexists. split; [reflexivity|]. split; [reflexivity|]. split.
    + unfold sync, getToken. cbn [advance].
      now rewrite storage_get_signed_in_token.
    + unfold sync, getRefreshToken. cbn [advance].
      now rewrite storage_get_signed_in_refresh.
  - eexists. split; [reflexivity|]. split; [reflexivity|]. split.
    + unfold storage_get, storage_set. cbn. apply lookup_insert_eq.
    + intros key Hk. unfold storage_get, storage_set. cbn.
      now rewrite lookup_insert_ne by congruence.
Qed.

(** X25. Credentials that cannot be stored. When the refresh endpoint
    answers with a success whose access token or refresh token cannot be
    converted to a string, the exception of [setTokens] is caught by the
    refresh: both credentials are removed, the refresh returns [false],
    and [getCurrentUser] fails with [Failed to fetch user] after its two
    requests, without sending the request again. *)
Theorem unstorable_refresh_clears_the_store (fuel : nat) (w : World)
  (a r : jsstring) (resp refresh_resp : Response) (token va : JSValue)
  (rest : list FetchOutcome) :
  storage_get TOKEN_KEY w = Some a -> a <> [] ->
  storage_get REFRESH_TOKEN_KEY w = Some r -> r <> [] ->
  status resp = 401 ->
  ok refresh_resp = true -> json refresh_resp = Some token ->
  Get token (js "access_token") = Some va ->
  ToString va = None \/
  ToString (OptionalGet token (js "refresh_token")) = None ->
  run refreshAccessToken (Resolved refresh_resp :: rest) w =
    (Returned false, rest,
     mkWorld (signed_out w) (requests w ++ [refresh_request r])) /\
  run (getCurrentUser (S fuel)) (Resolved resp :: Resolved refresh_resp :: rest) w =
    (Thrown (Error "Failed to fetch user"), rest,
     mkWorld (signed_out w)
       (requests w ++ [me_request a; refresh_request r])).
Proof.
  intros Ha Hane Hr Hrne Hs Hok Hj Hva Hbad. split.
  - now apply (refresh_unstorable refresh_resp rest w r token va).
  - rewrite (me_unauthorized fuel resp _ w a Ha Hane Hs).
    rewrite (refresh_unstorable refresh_resp rest (send (me_request a) w) r
               token va Hr Hrne Hok Hj Hva Hbad).
    unfold send, signed_out. cbn [requests localStorage].
    now rewrite <- app_assoc.
Qed.

End GuardEdges.

(* ===================================================================== *)
(** * The account methods and the provider *)
(* ===================================================================== *)

Section AccountMethods.
Import JS AuthService.
Context `{HostNumber}.

Lemma run_detail_or (error : JSValue) (fallback : string)
  (script : list FetchOutcome) (w : World) :
  run (Account.detail_or error fallback) script w =
  (match Get error (js "detail") with
   | Some detail =>
       if ToBoolean detail then
         match ToString detail with
         | Some message => Returned message
         | None => Thrown TypeError
         end
       else Returned (js fallback)
   | None => Thrown TypeError
   end, script, w).
Proof.
  unfold Account.detail_or, get, to_string.
  destruct (Get error (js "detail")) as [detail|]; [|reflexivity].
  cbn [bind]. destruct (ToBoolean detail); [|reflexivity].
  destruct (ToString detail); reflexivity.
Qed.

(** How a method that reads the error of a response settles. *)
Lemma run_error_branch {A : Type} (resp : Response) (fallback : string)
  (script : list FetchOutcome) (w : World) :
  run (let* error := response_json resp in
       let* message := Account.detail_or error fallback in
       Ret (@Account.Failed A message)) script w =
  (match json resp with
   | None => Thrown SyntaxError
   | Some error =>
       match Get error (js "detail") with
       | None => Thrown TypeError
       | Some detail =>
           if ToBoolean detail then
             match ToString detail with
             | Some message => Returned (Account.Failed message)
             | None => Thrown TypeError
             end
           else Returned (Account.Failed (js fallback))
       end
   end, script, w).
Proof.
  rewrite run_bind. cbn [response_json run].
  destruct (json resp) as [error|]; cbn [run]; [|reflexivity].
  rewrite run_bind, run_detail_or.
  destruct (Get error (js "detail")) as [detail|]; [|reflexivity].
  destruct (ToBoolean detail); [|reflexivity].
  destruct (ToString detail); reflexivity.
Qed.

(** A login answered with a success, up to [setTokens]. *)
Lemma run_login_granted (credentials : Account.LoginRequest)
  (resp : Response) (token : JSValue) (rest : list FetchOutcome) (w : World) :
  ok resp = true -> json resp = Some token ->
  run (Account.login credentials) (Resolved resp :: rest) w =
  match run (setTokens token) rest (send (Account.login_request credentials) w) with
  | (Returned _, s, w') => (Returned (Account.Fulfilled token), s, w')
  | (Thrown e, s, w') => (Thrown e, s, w')
  | (Diverged, s, w') => (Diverged, s, w')
  end.
Proof.
  intros Hok Hj.
  unfold Account.login. rewrite run_bind. cbn [fetch run answer].
  rewrite Hok. cbn [negb]. rewrite run_bind. cbn [response_json run].
  rewrite Hj. cbn [run]. rewrite run_bind.
  destruct (run (setTokens token) rest _) as [[[u|e|] s] w']; reflexivity.
Qed.

Lemma run_login_success (credentials : Account.LoginRequest)
  (resp : Response) (token va vr : JSValue) (access refresh : jsstring)
  (rest : list FetchOutcome) (w : World) :
  ok resp = true -> json resp = Some token ->
  Get token (js "access_token") = Some va ->
  Get token (js "refresh_token") = Some vr ->
  ToString va = Some access -> ToString vr = Some refresh ->
  run (Account.login credentials) (Resolved resp :: rest) w =
    (Returned (Account.Fulfilled token), rest,
     mkWorld (signed_in access refresh w)
       (requests w ++ [Account.login_request credentials])).
Proof.
  intros Hok Hj Hva Hvr Hta Htr.
  rewrite (run_login_granted credentials resp token rest w Hok Hj).
  rewrite run_setTokens, Hva, Hta. unfold OptionalGet. rewrite Hvr, Htr.
  reflexivity.
Qed.

(** X10. A login answered with a success whose body holds a pair of
    credentials that can be stored stores the pair and is fulfilled with
    the body after a single request; from then on the service reads the
    stored access token, and is authenticated exactly when that token is
    not the empty text. *)
Theorem login_stores_the_credentials (credentials : Account.LoginRequest)
  (resp : Response) (token va vr : JSValue) (access refresh : jsstring)
  (rest : list FetchOutcome) (w : World) :
  ok resp = true -> json resp = Some token ->
  Get token (js "access_token") = Some va ->
  Get token (js "refresh_token") = Some vr ->
  ToString va = Some access -> ToString vr = Some refresh ->
  let w' := mkWorld (signed_in access refresh w)
              (requests w ++ [Account.login_request credentials]) in
  run (Account.login credentials) (Resolved resp :: rest) w =
    (Returned (Account.Fulfilled token), rest, w') /\
  sync getToken w' = Some (Some access) /\
  sync isAuthenticated w' = Some (truthy_string access).
Proof.
  intros Hok Hj Hva Hvr Hta Htr w'. split; [|split].
  - now apply (run_login_success credentials resp token va vr).
  - unfold sync, getToken. cbn [advance].
    unfold w'. now rewrite storage_get_signed_in_token.
  - unfold sync, isAuthenticated, getToken. cbn [bind advance].
    unfold w'. now rewrite storage_get_signed_in_token.
Qed.

(** X26. A login answered with a success whose credentials cannot be
    stored is rejected with the [TypeError] of [setTokens], which nothing
    catches. When the body is [null] or its access token cannot be
    converted to a string, nothing was written; when only the refresh
    token cannot be converted, the new access token is already stored,
    next to whatever refresh token was there before. *)
Theorem login_with_unstorable_credentials (credentials : Account.LoginRequest)
  (resp : Response) (token : JSValue) (rest : list FetchOutcome) (w : World) :
  ok resp = true -> json resp = Some token ->
  let sent := send (Account.login_request credentials) w in
  (Get token (js "access_token") = None \/
   (exists va, Get token (js "access_token") = Some va /\ ToString va = None) ->
   run (Account.login credentials) (Resolved resp :: rest) w =
     (Thrown TypeError, rest, sent)) /\
  (forall va access,
     Get token (js "access_token") = Some va -> ToString va = Some access ->
     ToString (OptionalGet token (js "refresh_token")) = None ->
     run (Account.login credentials) (Resolved resp :: rest) w =
       (Thrown TypeError, rest, storage_set TOKEN_KEY access sent) /\
     storage_get TOKEN_KEY (storage_set TOKEN_KEY access sent) = Some access /\
     storage_get REFRESH_TOKEN_KEY (storage_set TOKEN_KEY access sent) =
       storage_get REFRESH_TOKEN_KEY w).
Proof.
  intros Hok Hj sent. split.
  - intros Hbad.
    rewrite (run_login_granted credentials resp token rest w Hok Hj).
    rewrite run_setTokens.
    destruct Hbad as [->|(va & -> & ->)]; reflexivity.
  - intros va access Hva Hta Htr.
    rewrite (run_login_granted credentials resp token rest w Hok Hj).
    rewrite run_setTokens, Hva, Hta, Htr.
    split; [reflexivity|]. split.
    + unfold storage_get, storage_set. cbn. apply lookup_insert_eq.
    + unfold storage_get, storage_set, sent, send. cbn.
      now rewrite lookup_insert_ne by discriminate.
Qed.

(** X11. A login or a signup answered with a status that is not a success
    leaves the store as it was and sends nothing more. It is rejected with
    the [detail] of the body as message when that is truthy and can be
    converted to a string, and with the fallback message when it is
    falsy. The fallback is not used when something throws on the way:
    when the body is not JSON the call fails with the [SyntaxError] of
    [response.json()], when it is [null] with a [TypeError], and when the
    [detail] is truthy but cannot be converted, with the [TypeError] of
    [new Error]. *)
Theorem rejected_login_and_signup (credentials : Account.LoginRequest)
  (userData : JSValue) (resp : Response) (rest : list FetchOutcome) (w : World) :
  ok resp = false ->
  let settled (fallback : string) : Outcome (Account.Settled JSValue) :=
    match json resp with
    | None => Thrown SyntaxError
    | Some error =>
        match Get error (js "detail") with
        | None => Thrown TypeError
        | Some detail =>
            if ToBoolean detail then
              match ToString detail with
              | Some message => Returned (Account.Failed message)
              | None => Thrown TypeError
              end
            else Returned (Account.Failed (js fallback))
        end
    end in
  run (Account.login credentials) (Resolved resp :: rest) w =
    (settled "Login failed"%string, rest,
     send (Account.login_request credentials) w) /\
  run (Account.signup userData) (Resolved resp :: rest) w =
    (settled "Signup failed"%string, rest,
     send (Account.signup_request userData) w).
Proof.
  intros Hok settled. split.
  - unfold Account.login. rewrite run_bind. cbn [fetch run answer].
    rewrite Hok. cbn [negb]. apply run_error_branch.
  - unfold Account.signup. rewrite run_bind. cbn [fetch run answer].
    rewrite Hok. cbn [negb]. apply run_error_branch.
Qed.

(** X12. [updateUser] has no refresh of its own. Under a stored access
    token it sends one [PATCH] with that token; an answer that is not a
    success, a 401 like any other, rejects the call with the [detail] of
    the body (or [Update failed] when it is falsy), or with the exception
    met while the body is read and the message built; no refresh is sent
    and the store is as it was; a success fulfils it with the body. *)
Theorem updateUser_is_not_refreshed (userData : JSValue) (resp : Response)
  (rest : list FetchOutcome) (w : World) (a : jsstring) :
  storage_get TOKEN_KEY w = Some a -> a <> [] ->
  let request := Account.update_request (Some a) userData in
  headers request = [("Authorization"%string, js "Bearer " ++ a);
                     ("Content-Type"%string, js "application/json")] /\
  (ok resp = false ->
   run (Account.updateUser userData) (Resolved resp :: rest) w =
     (match json resp with
      | None => Thrown SyntaxError
      | Some error =>
          match Get error (js "detail") with
          | None => Thrown TypeError
          | Some detail =>
              if ToBoolean detail then
                match ToString detail with
                | Some message => Returned (Account.Failed message)
                | None => Thrown TypeError
                end
              else Returned (Account.Failed (js "Update failed"))
          end
      end, rest, send request w)) /\
  (ok resp = true ->
   run (Account.updateUser userData) (Resolved resp :: rest) w =
     (match json resp with
      | None => Thrown SyntaxError
      | Some user => Returned (Account.Fulfilled user)
      end, rest, send request w)).
Proof.
  intros Ha Hne request. split; [reflexivity|].
  assert (E : run (Account.updateUser userData) (Resolved resp :: rest) w =
    run (if negb (ok resp) then
           let* error := response_json resp in
           let* message := Account.detail_or error "Update failed" in
           Ret (Account.Failed message)
         else
           let* user := response_json resp in
           Ret (Account.Fulfilled user)) rest (send request w)).
  { unfold Account.updateUser, getToken. cbn [bind run].
    rewrite Ha, (present_some a Hne). cbn [negb].
    rewrite run_bind. reflexivity. }
  split; intros Hok; rewrite E, Hok; cbn [negb].
  - apply run_error_branch.
  - rewrite run_bind. cbn [response_json run].
    destruct (json resp); reflexivity.
Qed.

End AccountMethods.

Section Provider.
Import JS AuthService.
Context `{HostNumber}.

(** [refreshUser] turns every exception of [getCurrentUser] into a user
    that is [null]. *)
Lemma run_refreshUser (fuel : nat) (st : AuthContext.State)
  (script : list FetchOutcome) (w : World) :
  run (AuthContext.refreshUser fuel st) script w =
  match run (getCurrentUser fuel) script w with
  | (Returned u, s, w') => (Returned (AuthContext.setUser u st), s, w')
  | (Thrown _, s, w') => (Returned (AuthContext.setUser VNull st), s, w')
  | (Diverged, s, w') => (Diverged, s, w')
  end.
Proof.
  unfold AuthContext.refreshUser. rewrite run_try_catch, run_bind, run_await.
  destruct (run (getCurrentUser fuel) script w) as [[[u|e|] s] w'];
    reflexivity.
Qed.

(** X13. [initAuth] never clears the credentials itself: [refreshUser]
    catches every failure of [getCurrentUser], so the [catch] around it is
    never entered. With a stored access token the store and the requests
    after [initAuth] are those that [getCurrentUser] leaves, the user is
    its result, or [null] when it fails, and loading is over; without
    one, nothing is sent and only loading is turned off. *)
Theorem initAuth_never_clears_the_credentials (fuel : nat)
  (st : AuthContext.State) (script : list FetchOutcome) (w : World) :
  (length script < 2 * fuel)%nat ->
  run (AuthContext.initAuth fuel st) script w =
  if present (storage_get TOKEN_KEY w) then
    let '(o, s, w') := run (getCurrentUser fuel) script w in
    (Returned (AuthContext.mkState
                 (match o with Returned u => u | _ => VNull end) false),
     s, w')
  else (Returned (AuthContext.mkState (AuthContext.user st) false), script, w).
Proof.
  intros Hlen. unfold AuthContext.initAuth, isAuthenticated, getToken.
  cbn [bind run].
  destruct (present (storage_get TOKEN_KEY w)); [|reflexivity].
  rewrite run_bind, run_try_catch, run_await, run_refreshUser.
  pose proof (getCurrentUser_terminates fuel script w Hlen) as Hd.
  destruct (run (getCurrentUser fuel) script w) as [[[u|e|] s] w'];
    [reflexivity|reflexivity|]. now destruct Hd.
Qed.

(** X14. A login through the provider that succeeds (the body holds a
    pair of credentials that can be stored, the access token not empty)
    is followed by one request for the current user under the access
    token that was just stored; when that one succeeds too, the provider
    holds the user, the store holds the pair, and exactly these two
    requests were sent. *)
Theorem login_then_current_user (fuel : nat)
  (credentials : Account.LoginRequest) (st : AuthContext.State)
  (login_resp me_resp : Response) (token va vr u : JSValue)
  (access refresh : jsstring) (rest : list FetchOutcome) (w : World) :
  ok login_resp = true -> json login_resp = Some token ->
  Get token (js "access_token") = Some va ->
  Get token (js "refresh_token") = Some vr ->
  ToString va = Some access -> ToString vr = Some refresh ->
  access <> [] ->
  ok me_resp = true -> json me_resp = Some u ->
  run (AuthContext.login (S fuel) credentials st)
    (Resolved login_resp :: Resolved me_resp :: rest) w =
  (Returned (Account.Fulfilled (AuthContext.setUser u st)), rest,
   mkWorld (signed_in access refresh w)
     (requests w ++ [Account.login_request credentials; me_request access])).
Proof.
  intros Hok Hj Hva Hvr Hta Htr Hne Hmok Hmj.
  unfold AuthContext.login. rewrite run_bind, run_await.
  rewrite (run_login_success credentials login_resp token va vr access refresh
             (Resolved me_resp :: rest) w Hok Hj Hva Hvr Hta Htr).
  rewrite run_bind, run_await, run_refreshUser.
  rewrite (me_success fuel me_resp rest _ access u
             (storage_get_signed_in_token _ _ _ _) Hne Hmok Hmj).
  unfold send. cbn [run requests localStorage]. now rewrite <- app_assoc.
Qed.

End Provider.

Section SignedOut.
Import JS AuthService.
Context `{HostNumber}.

(** X15. After [logout] nothing carries the credentials any more: both
    are removed from the store, the provider has no user, the service is
    not authenticated and gives an empty header, the request of a chat
    turn has no [Authorization] header, and [getCurrentUser] fails with
    [No authentication token] without sending anything. *)
Theorem logout_signs_out (st : AuthContext.State) (fuel : nat)
  (script : list FetchOutcome) (w : World)
  (api : string) (thread content : jsstring) (settings : ChatWindow.ChatSettings) :
  let w' := mkWorld (signed_out w) (requests w) in
  run (AuthContext.logout st) script w =
    (Returned (AuthContext.setUser VNull st), script, w') /\
  AuthContext.isAuthenticated (AuthContext.setUser VNull st) = false /\
  sync isAuthenticated w' = Some false /\
  sync getAuthHeader w' = Some [] /\
  headers (ChatWindow.stream_request api thread content settings w') =
    [("Content-Type"%string, js "application/json")] /\
  run (getCurrentUser (S fuel)) script w' =
    (Thrown (Error "No authentication token"), script, w').
Proof.
  intros w'.
  assert (Ht : storage_get TOKEN_KEY w' = None)
    by apply (proj1 (storage_get_signed_out w (requests w))).
  assert (Hh : sync getAuthHeader w' = Some []).
  { unfold sync, getAuthHeader, getToken. cbn [bind advance]. now rewrite Ht. }
  repeat split.
  - unfold sync, isAuthenticated, getToken. cbn [bind advance]. now rewrite Ht.
  - exact Hh.
  - unfold ChatWindow.stream_request. cbn [headers]. now rewrite Hh.
  - apply getCurrentUser_no_token. now rewrite Ht.
Qed.

End SignedOut.

(* ===================================================================== *)
(** * The input of the chat and its settings *)
(* ===================================================================== *)

Section Trimming.
Import JS.

Lemma trimStart_head (s : jsstring) (c : jschar) (r : jsstring) :
  trimStart s = c :: r -> is_js_whitespace c = false.
Proof.
  induction s as [|d s IH]; cbn; [discriminate|].
  destruct (is_js_whitespace d) eqn:E; [exact IH|].
  intros E'. inversion E'. now subst.
Qed.

Lemma trimStart_all_whitespace (s : jsstring) :
  trimStart s = [] -> forallb is_js_whitespace s = true.
Proof.
  induction s as [|d s IH]; cbn; [reflexivity|].
  destruct (is_js_whitespace d); [exact IH|discriminate].
Qed.

Lemma trimStart_snoc (l : jsstring) (c : jschar) :
  is_js_whitespace c = false -> exists l', trimStart (l ++ [c]) = l' ++ [c].
Proof.
  intros Hc. induction l as [|d l IH]; cbn.
  - rewrite Hc. now exists [].
  - destruct (is_js_whitespace d); [exact IH|]. now exists (d :: l).
Qed.

Lemma trimEnd_cons (c : jschar) (r : jsstring) :
  is_js_whitespace c = false -> exists r', trimEnd (c :: r) = c :: r'.
Proof.
  intros Hc. unfold trimEnd. cbn [rev].
  destruct (trimStart_snoc (rev r) c Hc) as [l' ->].
  exists (rev l'). now rewrite rev_app_distr.
Qed.

Lemma trimEnd_last (s : jsstring) (c : jschar) :
  last (trimEnd s) = Some c -> is_js_whitespace c = false.
Proof.
  unfold trimEnd. destruct (trimStart (rev s)) as [|d t] eqn:E; [discriminate|].
  cbn [rev]. rewrite last_snoc. intros [= <-]. exact (trimStart_head _ _ _ E).
Qed.

Lemma trim_head (s : jsstring) (c : jschar) (r : jsstring) :
  trim s = c :: r -> is_js_whitespace c = false.
Proof.
  unfold trim. destruct (trimStart s) as [|d t] eqn:E; [discriminate|].
  pose proof (trimStart_head _ _ _ E) as Hd.
  destruct (trimEnd_cons d t Hd) as [r' ->]. intros [= <- _]. exact Hd.
Qed.

Lemma trim_nil_whitespace (s : jsstring) :
  trim s = [] -> forallb is_js_whitespace s = true.
Proof.
  unfold trim. destruct (trimStart s) as [|d t] eqn:E.
  - intros _. now apply trimStart_all_whitespace.
  - destruct (trimEnd_cons d t (trimStart_head _ _ _ E)) as [r' ->]. discriminate.
Qed.

Lemma trim_trim (s : jsstring) : trim (trim s) = trim s.
Proof.
  destruct (trim s) as [|c r] eqn:E; [reflexivity|].
  pose proof (trim_head _ _ _ E) as Hc.
  unfold trim at 1. cbn [trimStart]. rewrite Hc.
  unfold trimEnd.
  destruct (rev (c :: r)) as [|d t] eqn:Er.
  - apply (f_equal (@rev _)) in Er. rewrite rev_involutive in Er. discriminate.
  - assert (Hd : is_js_whitespace d = false).
    { apply (trimEnd_last (trimStart s)). fold (trim s). rewrite E.
      apply (f_equal (@rev _)) in Er. rewrite rev_involutive in Er.
      rewrite Er. cbn [rev]. apply last_snoc. }
    cbn [trimStart]. rewrite Hd, <- Er. apply rev_involutive.
Qed.

(** X16. The input sends nothing while it is disabled or holds only white
    space, and keeps its text then; what it sends otherwise is the text
    without the white space around it, which is not empty, begins and ends
    with a character that is no white space, and the input is emptied. *)
Theorem handleSubmit_sends_the_trimmed_text (message : jsstring) (disabled : bool) :
  match ChatInput.handleSubmit message disabled with
  | (Some sent, kept) =>
      disabled = false /\ sent = trim message /\ kept = [] /\
      sent <> [] /\ trim sent = sent /\
      forall c, hd_error sent = Some c \/ last sent = Some c ->
                is_js_whitespace c = false
  | (None, kept) =>
      kept = message /\
      (disabled = true \/ forallb is_js_whitespace message = true)
  end.
Proof.
  unfold ChatInput.handleSubmit.
  destruct (trim message) as [|c r] eqn:E; cbn [truthy_string andb].
  - split; [reflexivity|]. right. now apply trim_nil_whitespace.
  - destruct disabled; cbn [negb].
    + split; [reflexivity|]. now left.
    + repeat split; try discriminate.
      * rewrite <- E. apply trim_trim.
      * intros c' [Hh|Hl].
        -- cbn in Hh. injection Hh as <-. exact (trim_head _ _ _ E).
        -- rewrite <- E in Hl. exact (trimEnd_last _ _ Hl).
Qed.

End Trimming.

Section NumberOfResults.
Import JS JSGlobals ChatWindow ChatSettingsModal.

Lemma digit_not_whitespace (c : jschar) :
  48 <= c <= 57 -> is_js_whitespace c = false.
Proof.
  intros Hc. unfold is_js_whitespace.
  rewrite (proj2 (Z.leb_gt c 13)) by lia.
  rewrite (proj2 (Z.leb_gt 8192 c)) by lia.
  repeat match goal with
         | |- context [c =? ?k] => rewrite (proj2 (Z.eqb_neq c k)) by lia
         end.
  now rewrite andb_false_r.
Qed.

Lemma digit_of_decimal_digit (c : jschar) :
  48 <= c <= 57 -> digit_of 10 c = Some (c - 48).
Proof.
  intros Hc. unfold digit_of, hex_value, is_digit.
  rewrite (proj2 (Z.leb_le 48 c)), (proj2 (Z.leb_le c 57)) by lia.
  cbn [andb]. now rewrite (proj2 (Z.ltb_lt (c - 48) 10)) by lia.
Qed.

Lemma uint_chars_digits (d : Decimal.uint) :
  List.Forall (fun c => 48 <= c <= 57) (uint_chars d).
Proof. induction d; cbn; constructor; auto; lia. Qed.

Lemma parse_digits_uint (d : Decimal.uint) (a : nat) :
  parse_digits 10 (uint_chars d) (Z.of_nat a) true =
  Some (Z.of_nat (Nat.of_uint_acc d a)).
Proof.
  revert a. induction d; intros a; cbn [uint_chars parse_digits Nat.of_uint_acc];
    [reflexivity|..];
    (rewrite digit_of_decimal_digit by lia);
    rewrite <- IHd; do 2 f_equal; rewrite Nat.tail_mul_spec; lia.
Qed.

Lemma to_uint_not_nil (n : nat) : Nat.to_uint n <> Decimal.Nil.
Proof.
  intros E. pose proof (DecimalNat.Unsigned.of_to n) as Hn.
  rewrite E in Hn. cbn in Hn. subst n. discriminate.
Qed.

(** The digits of a number, read without sign and in radix 10. *)
Lemma parse_digits_decimal (n : nat) :
  parse_digits 10 (decimal n) 0 false = Some (Z.of_nat n).
Proof.
  unfold decimal. pose proof (to_uint_not_nil n) as Hn.
  rewrite <- (DecimalNat.Unsigned.of_to n) at 2.
  destruct (Nat.to_uint n) as [|d|d|d|d|d|d|d|d|d|d]; [now destruct Hn|..];
    cbn [uint_chars parse_digits]; (rewrite digit_of_decimal_digit by lia);
    cbn [Z.mul Z.add Z.sub Z.pos_sub Z.succ_double Z.pred_double Z.double
         Pos.pred_double];
    [exact (parse_digits_uint d 0)|exact (parse_digits_uint d 1)
    |exact (parse_digits_uint d 2)|exact (parse_digits_uint d 3)
    |exact (parse_digits_uint d 4)|exact (parse_digits_uint d 5)
    |exact (parse_digits_uint d 6)|exact (parse_digits_uint d 7)
    |exact (parse_digits_uint d 8)|exact (parse_digits_uint d 9)].
Qed.

(** No prefix of radix 16 at the head of the digits of a number. *)
Lemma decimal_radix (n : nat) :
  match decimal n with
  | z :: x :: rest =>
      if (z =? 48) && ((x =? 120) || (x =? 88)) then (16, rest)
      else (10, decimal n)
  | _ => (10, decimal n)
  end = (10, decimal n).
Proof.
  pose proof (uint_chars_digits (Nat.to_uint n)) as Hd. fold (decimal n) in Hd.
  destruct (decimal n) as [|z [|x rest]]; try reflexivity.
  inversion Hd as [|? ? _ Hd']. inversion Hd' as [|? ? Hx _]. subst.
  rewrite (proj2 (Z.eqb_neq x 120)), (proj2 (Z.eqb_neq x 88)) by lia.
  now rewrite andb_false_r.
Qed.

Lemma decimal_head (n : nat) :
  exists c r, decimal n = c :: r /\ 48 <= c <= 57.
Proof.
  pose proof (uint_chars_digits (Nat.to_uint n)) as Hd.
  pose proof (to_uint_not_nil n) as Hn. unfold decimal.
  destruct (Nat.to_uint n); [now destruct Hn|..]; cbn [uint_chars] in *;
    eexists _, _; (split; [reflexivity|lia]).
Qed.

Lemma parseInt_decimal (n : nat) : parseInt (decimal n) = Some (Z.of_nat n).
Proof.
  unfold parseInt. destruct (decimal_head n) as (c & r & E & Hc).
  assert (Ht : trimStart (decimal n) = decimal n).
  { rewrite E. cbn [trimStart]. now rewrite digit_not_whitespace. }
  rewrite Ht. rewrite E at 1.
  rewrite (proj2 (Z.eqb_neq c 45)), (proj2 (Z.eqb_neq c 43)) by lia.
  rewrite decimal_radix, parse_digits_decimal. reflexivity.
Qed.

Lemma parseInt_minus_decimal (n : nat) :
  parseInt (45 :: decimal n) = Some (- Z.of_nat n).
Proof.
  unfold parseInt. cbn [trimStart]. 
  replace (is_js_whitespace 45) with false by reflexivity.
  replace (45 =? 45) with true by reflexivity.
  rewrite decimal_radix, parse_digits_decimal. reflexivity.
Qed.

(** X17. What the field of the number of results keeps of a typed
    number: the number itself from 1 to 20, 20 for a larger one, 1 for a
    negative one, and 5 for zero, for minus zero and for a text that
    [parseInt] cannot read. *)
Theorem typed_number_of_results_is_clamped (n : nat) (value : jsstring) :
  rag_k_of (decimal n) = (if (n =? 0)%nat then 5 else Z.min 20 (Z.of_nat n)) /\
  rag_k_of (js "-" ++ decimal n) = (if (n =? 0)%nat then 5 else 1) /\
  (parseInt value = None -> rag_k_of value = 5).
Proof.
  unfold rag_k_of. split; [|split].
  - rewrite parseInt_decimal. destruct n as [|n]; [reflexivity|].
    cbn [Nat.eqb]. rewrite (proj2 (Z.eqb_neq _ 0)) by lia. lia.
  - change (js "-" ++ decimal n) with (45 :: decimal n).
    rewrite parseInt_minus_decimal. destruct n as [|n]; [reflexivity|].
    cbn [Nat.eqb]. rewrite (proj2 (Z.eqb_neq _ 0)) by lia. lia.
  - intros ->. reflexivity.
Qed.

Lemma rag_k_of_range (value : jsstring) : 1 <= rag_k_of value <= 20.
Proof. unfold rag_k_of. lia. Qed.

Lemma act_in_range (c : Component) (a : Action) :
  rag_k_in_range (chatSettings c) -> rag_k_in_range (localSettings c) ->
  rag_k_in_range (chatSettings (act c a)) /\
  rag_k_in_range (localSettings (act c a)).
Proof.
  intros Hc Hl.
  assert (H3 : rag_k_in_range (mkChatSettings true (decimal 3) (js "0.8")))
    by (exists 3%nat; split; [lia|reflexivity]).
  assert (H5 : rag_k_in_range (mkChatSettings true (decimal 5) (js "0.7")))
    by (exists 5%nat; split; [lia|reflexivity]).
  assert (H10 : rag_k_in_range (mkChatSettings true (decimal 10) (js "0.5")))
    by (exists 10%nat; split; [lia|reflexivity]).
  destruct a; unfold act; try (split; assumption);
    destruct (showSettings c); cbn [negb]; try (split; assumption);
    try destruct (use_rag (localSettings c)); cbn; try (split; assumption).
  all: split; try assumption.
  pose proof (rag_k_of_range value) as Hr.
  exists (Z.to_nat (rag_k_of value)). split; [lia|reflexivity].
Qed.

(** X18. Whatever the user does in the settings, in any order, the number
    of results stays a whole number from 1 to 20, in the settings being
    edited and in the settings in use, and that is the number the request
    of a chat turn carries as [rag_k]. *)
Theorem number_of_results_stays_in_range `{HostNumber} (actions : list Action)
  (api : string) (thread content : jsstring) (w : AuthService.World) :
  let c := fold_left act actions initial in
  rag_k_in_range (localSettings c) /\
  exists n : nat,
    (1 <= n <= 20)%nat /\
    rag_k (chatSettings c) = decimal n /\
    Get (default VUndefined
           (AuthService.body (stream_request api thread content (chatSettings c) w)))
        (js "rag_k") = Some (VNumber (decimal n)).
Proof.
  intros c.
  assert (Hinv : rag_k_in_range (chatSettings c) /\ rag_k_in_range (localSettings c)).
  { subst c.
    assert (H0 : rag_k_in_range (chatSettings initial) /\
                 rag_k_in_range (localSettings initial))
      by (split; exists 5%nat; (split; [lia|reflexivity])).
    revert H0. generalize initial.
    induction actions as [|a actions IH]; intros c0 [Hc Hl]; [now split|].
    cbn [fold_left]. apply IH. now apply act_in_range. }
  destruct Hinv as [(n & Hn & E) Hl]. split; [exact Hl|].
  exists n. repeat split; try lia; [exact E|].
  unfold stream_request. cbn [AuthService.body default]. rewrite E.
  vm_compute. reflexivity.
Qed.

End NumberOfResults.

(* ===================================================================== *)
(** * The history of the session *)
(* ===================================================================== *)

Section Identifiers.
Import JS JSGlobals ChatWindow SessionHistory.

Lemma uint_chars_inj (d d' : Decimal.uint) :
  uint_chars d = uint_chars d' -> d = d'.
Proof.
  revert d'. induction d; intros d'; destruct d'; cbn; intros E;
    try discriminate; try reflexivity;
    injection E as E; f_equal; now apply IHd.
Qed.

Lemma decimal_inj (i j : nat) : decimal i = decimal j -> i = j.
Proof.
  intros E. apply DecimalNat.Unsigned.to_uint_inj. now apply uint_chars_inj.
Qed.

(** Digits up to a hyphen are the same digits in two equal strings. *)
Lemma digits_before_hyphen (x y p q : jsstring) :
  List.Forall (fun c => 48 <= c <= 57) x ->
  List.Forall (fun c => 48 <= c <= 57) y ->
  x ++ 45 :: p = y ++ 45 :: q -> x = y.
Proof.
  intros Hx. revert y. induction Hx as [|c x Hc _ IH]; intros y Hy E;
    destruct Hy as [|c' y Hc' Hy]; cbn in E.
  - reflexivity.
  - injection E as E _. lia.
  - injection E as E _. lia.
  - injection E as -> E. f_equal. now apply IH.
Qed.

Lemma digits_after_hyphen (a b x y : jsstring) :
  List.Forall (fun c => 48 <= c <= 57) x ->
  List.Forall (fun c => 48 <= c <= 57) y ->
  a ++ 45 :: x = b ++ 45 :: y -> x = y.
Proof.
  intros Hx Hy E. apply (f_equal (@rev _)) in E.
  rewrite !rev_app_distr in E. cbn [rev] in E. rewrite <- !app_assoc in E.
  cbn [app] in E.
  apply digits_before_hyphen in E; try now apply List.Forall_rev.
  rewrite <- (rev_involutive x), <- (rev_involutive y). now f_equal.
Qed.

Lemma generated_ids_differ (g g' : jsstring) (i j : nat) :
  g ++ js "-" ++ decimal i = g' ++ js "-" ++ decimal j -> i = j.
Proof.
  change (js "-") with [45]. cbn [app]. intros E. apply decimal_inj.
  exact (digits_after_hyphen g g' _ _ (uint_chars_digits _) (uint_chars_digits _) E).
Qed.

Lemma imap_map {A B C : Type} (f : nat -> A -> B) (p : B -> C) (q : A -> C)
  (l : list A) :
  (forall i x, p (f i x) = q x) -> List.map p (imap f l) = List.map q l.
Proof.
  revert f. induction l as [|x l IH]; intros f Hf; [reflexivity|].
  cbn. rewrite Hf. f_equal. apply IH. intros i y. apply Hf.
Qed.

End Identifiers.

Section LoadedHistory.
Import JS JSGlobals ChatWindow SessionHistory.
Context `{HostNumber}.

(** X19. A history that is answered with a success replaces the
    transcript by the messages of the body, in their order and with their
    types and contents. A message that comes with an identifier keeps it;
    one that comes without gets one that is not empty, and two such
    messages never get the same, whatever [generateMessageId] returns. *)
Theorem loaded_history_has_identifiers (api thread : string)
  (generated : nat -> jsstring) (resp : SessionHistory.Response)
  (msgs : list ChatMessage) (w : AuthService.World) (st : State) :
  SessionHistory.ok resp = true ->
  data_messages resp = Some msgs ->
  let loaded :=
    messages (fst (fetchSessionHistory api thread generated
                     (SessionHistory.Resolved resp) w st)) in
  length loaded = length msgs /\
  List.map type loaded = List.map type msgs /\
  List.map content loaded = List.map content msgs /\
  (forall i m, msgs !! i = Some m -> id m <> [] -> loaded !! i = Some m) /\
  (forall i m, loaded !! i = Some m -> id m <> []) /\
  (forall i j mi mj mi' mj',
     msgs !! i = Some mi -> msgs !! j = Some mj ->
     id mi = [] -> id mj = [] -> i <> j ->
     loaded !! i = Some mi' -> loaded !! j = Some mj' -> id mi' <> id mj').
Proof.
  intros Hok Hm loaded. subst loaded. unfold fetchSessionHistory.
  rewrite Hok, Hm. cbn [fst messages setMessages].
  split; [apply length_imap|].
  split; [now apply imap_map|].
  split; [now apply imap_map|].
  split; [|split].
  - intros i [mi mt mc] Hi Hne. rewrite list_lookup_imap, Hi. cbn.
    unfold with_unique_id. cbn [id type content].
    destruct mi; [now destruct Hne|reflexivity].
  - intros i m. rewrite list_lookup_imap.
    destruct (msgs !! i) as [[mi mt mc]|]; [|discriminate].
    cbn. intros [= <-]. unfold with_unique_id. cbn [id type content].
    destruct mi as [|c mi]; cbn [truthy_string]; [|discriminate].
    change (js "-") with [45]. intros E.
    destruct (generated i); discriminate.
  - intros i j mi mj mi' mj' Hi Hj Ei Ej Hne.
    rewrite !list_lookup_imap, Hi, Hj. cbn. intros [= <-] [= <-].
    unfold with_unique_id. rewrite Ei, Ej. cbn [truthy_string id].
    intros E. apply Hne. exact (generated_ids_differ _ _ _ _ E).
Qed.

(** X20. The history is asked for once, with the header of the stored
    access token, and is not guarded by a refresh: a refusal, a rejected
    request and a body that cannot be read all leave the transcript and
    the stored credentials as they were. *)
Theorem history_is_sent_once_and_never_refreshed (api thread : string)
  (generated : nat -> jsstring) (outcome : SessionHistory.FetchOutcome)
  (w : AuthService.World) (st : State) :
  let '(st', w') := fetchSessionHistory api thread generated outcome w st in
  AuthService.localStorage w' = AuthService.localStorage w /\
  AuthService.requests w' =
    AuthService.requests w ++ [history_request api thread w] /\
  AuthService.headers (history_request api thread w) =
    match AuthService.storage_get AuthService.TOKEN_KEY w with
    | Some (c :: token) =>
        [("Authorization"%string, js "Bearer " ++ c :: token)]
    | _ => []
    end /\
  (match outcome with
   | SessionHistory.Resolved resp =>
       SessionHistory.ok resp = false \/ data_messages resp = None
   | SessionHistory.Rejected _ => True
   end -> st' = st).
Proof.
  unfold fetchSessionHistory.
  assert (Hh : AuthService.headers (history_request api thread w) =
    match AuthService.storage_get AuthService.TOKEN_KEY w with
    | Some (c :: token) =>
        [("Authorization"%string, js "Bearer " ++ c :: token)]
    | _ => []
    end).
  { unfold history_request. cbn [AuthService.headers].
    rewrite getAuthHeader_now.
    destruct (AuthService.storage_get AuthService.TOKEN_KEY w) as [[|c t]|];
      reflexivity. }
  destruct outcome as [resp|e].
  - destruct (SessionHistory.ok resp) eqn:Hok;
      [destruct (data_messages resp) as [msgs|] eqn:Hm|];
      (split; [reflexivity|split; [reflexivity|split; [exact Hh|]]]);
      try reflexivity.
    intros [?|?]; discriminate.
  - split; [reflexivity|split; [reflexivity|split; [exact Hh|reflexivity]]].
Qed.

End LoadedHistory.

(* ===================================================================== *)
(** * The edges of a streamed turn *)
(* ===================================================================== *)

Section StreamEdges.
Import JS ChatWindow.
Context `{HostNumber}.

(** X21. The texts of a stream only reach messages that carry the
    identifier of the assistant turn. On a transcript without such a
    message (one that the history has replaced in the meantime, for one)
    the lines and the whole reading loop leave the component mounted and
    every message as it is. *)
Theorem deltas_need_the_assistant_message (aid : jsstring)
  (lines : list jsstring) (values : list (list byte)) (st : State) :
  List.Forall (fun m => id m <> aid) (messages st) ->
  (exists st',
     fold_left (on_line_of_view aid) lines (Some st) = Some st' /\
     messages st' = messages st) /\
  (exists st',
     snd (read_all aid values st) = Some st' /\ messages st' = messages st).
Proof.
  intros Hno. split.
  - apply mounted_with. rewrite messages_fold_on_line.
    now apply append_values_absent.
  - apply mounted_with. rewrite messages_read_all.
    now apply append_values_absent.
Qed.

Lemma removelast_snoc_last (l : list jsstring) :
  l <> [] -> removelast l ++ [default [] (last l)] = l.
Proof.
  induction l as [|x l IH]; [now intros []|intros _].
  destruct l as [|y l]; [reflexivity|].
  rewrite removelast_cons2, last_cons_cons. cbn [app]. f_equal.
  now apply IH.
Qed.

Lemma finished_lines (text tail : jsstring) :
  ~ In LF tail ->
  removelast (split_lf (text ++ LF :: tail)) = split_lf text.
Proof.
  intros Ht. rewrite split_lf_app.
  rewrite (split_lf_line (carry text) tail (carry_no_lf text)).
  rewrite (split_lf_no_lf tail Ht).
  replace (removelast (split_lf text) ++ [carry text; tail])
    with ((removelast (split_lf text) ++ [carry text]) ++ [tail])
    by (now rewrite <- app_assoc).
  rewrite removelast_last. unfold carry.
  apply removelast_snoc_last, split_lf_not_nil.
Qed.

(** X22. Only lines that are ended by a line feed are acted upon. What
    the body holds after its last line feed stays in the buffer when the
    stream ends and never reaches the transcript: the updaters that run
    are those of the lines before it. A body without any line feed
    appends nothing, even if it is a complete event. *)
Theorem unterminated_line_is_dropped (aid : jsstring)
  (values : list (list byte)) (st : State) (text tail : jsstring) :
  ~ In LF tail ->
  (snd (decode_stream new_TextDecoder (concat values)) = text ++ LF :: tail ->
   buffer (fst (read_all aid values st)) = tail /\
   option_map messages (snd (read_all aid values st)) =
     append_values aid (omap delta_of_line (split_lf text)) (messages st)) /\
  (snd (decode_stream new_TextDecoder (concat values)) = tail ->
   buffer (fst (read_all aid values st)) = tail /\
   exists st',
     snd (read_all aid values st) = Some st' /\ messages st' = messages st).
Proof.
  intros Ht. split; intros E.
  - split.
    + unfold read_all. rewrite read_loop_text.
      destruct (decode_stream new_TextDecoder (concat values)) as [d t].
      cbn [snd] in E. subst t. cbn [fst buffer].
      unfold carry. rewrite split_lf_app.
      rewrite (split_lf_line (carry text) tail (carry_no_lf text)).
      rewrite (split_lf_no_lf tail Ht).
      rewrite last_app_cons by discriminate. reflexivity.
    + rewrite messages_read_all, deltas_text, E. now rewrite finished_lines.
  - split.
    + unfold read_all. rewrite read_loop_text.
      destruct (decode_stream new_TextDecoder (concat values)) as [d t].
      cbn [snd] in E. subst t. cbn [fst buffer].
      unfold carry. now rewrite (split_lf_no_lf tail Ht).
    + apply mounted_with. rewrite messages_read_all, deltas_text, E.
      rewrite (split_lf_no_lf tail Ht). reflexivity.
Qed.

(** X23. A payload that is JSON but no object. For [null] the reading of
    [chunk.content] throws, and the payload itself is appended as text;
    for a number, a string, a boolean or an array there is no [content],
    and nothing is appended. *)
Theorem payload_that_is_no_object (line data : jsstring) (chunk : JSValue) :
  startsWith line (js "data: ") = true ->
  trim (slice 6 line) = data ->
  data <> [] ->
  JSON_parse data = Some chunk ->
  match chunk with
  | VNull => delta_of_line line = Some (VString data)
  | VBoolean _ | VNumber _ | VString _ | VArray _ => delta_of_line line = None
  | _ => True
  end.
Proof.
  intros Hs Hd Hne Hp. unfold delta_of_line. rewrite Hs, Hd, Hp.
  destruct data as [|c data]; [now destruct Hne|]. cbn [truthy_string].
  destruct chunk; cbn; auto.
Qed.

Lemma turn_has_the_assistant_message (ms : list ChatMessage)
  (m : ChatMessage) (aid : jsstring) :
  List.Exists (fun m' => id m' = aid) (ms ++ [m; mkChatMessage aid ai []]).
Proof.
  apply List.Exists_app. right. right. left. reflexivity.
Qed.

(** X24. How a turn ends. Whenever [handleSendMessage] leaves the
    component mounted, however the request and the reading ended, the
    component is neither streaming nor waiting: the input is released.
    The component is unmounted exactly when the answer is a success with
    a body and one of the deltas of the body cannot be converted to a
    string. A reading that fails after some chunks, an abort for one,
    leaves the same state as a reading of the same chunks that
    completes. *)
Theorem turn_releases_the_input_or_unmounts (api : string)
  (uid aid thread content : jsstring) (settings : ChatSettings)
  (outcome : FetchOutcome) (w : AuthService.World) (st : State)
  (status : Z) (values : list (list byte)) (e : AuthService.Exception) :
  (forall st',
     fst (handleSendMessage api uid aid thread content settings outcome w st)
       = Some st' ->
     isStreaming st' = false /\ isWaitingForResponse st' = false) /\
  (fst (handleSendMessage api uid aid thread content settings outcome w st)
     = None <->
   exists response b,
     outcome = Resolved response /\ ok response = true /\
     body response = Some b /\ mapM ToString (deltas (chunks b)) = None) /\
  handleSendMessage api uid aid thread content settings
    (Resolved (mkResponse status (Some (mkBody values (Some e))))) w st =
  handleSendMessage api uid aid thread content settings
    (Resolved (mkResponse status (Some (mkBody values None)))) w st.
Proof.
  split; [|split].
  - unfold handleSendMessage, try_stream.
    destruct outcome as [resp|e']; [|apply release_flags].
    destruct (negb (ok resp)); [apply release_flags|].
    destruct (body resp) as [b|]; [|apply release_flags].
    destruct (read_all _ _ _) as [rd view].
    destruct (failure b); apply release_flags.
  - pose proof (messages_handleSendMessage api uid aid thread content settings
                  outcome w st) as E.
    pose proof (turn_has_the_assistant_message (messages st)
                  (mkChatMessage uid human content) aid) as Hex.
    assert (Hnil : forall ms, append_values aid [] ms <> None) by discriminate.
    split.
    + intros Hn. rewrite Hn in E. cbn [option_map] in E. symmetry in E.
      destruct outcome as [response|e']; [|now apply Hnil in E].
      destruct (ok response) eqn:Hok; [|now apply Hnil in E].
      destruct (body response) as [b|] eqn:Hb; [|now apply Hnil in E].
      exists response, b. repeat split; auto.
      destruct (mapM ToString (deltas (chunks b))) as [texts|] eqn:Et;
        [|reflexivity].
      rewrite (append_values_texts aid _ texts _ Et) in E. discriminate.
    + intros (response & b & -> & Hok & Hb & Et).
      rewrite Hok, Hb in E. rewrite (append_values_throws aid _ _ Hex Et) in E.
      destruct (fst (handleSendMessage _ _ _ _ _ _ _ _ _));
        [discriminate|reflexivity].
  - unfold handleSendMessage, try_stream. cbn [body chunks failure].
    destruct (negb _); [reflexivity|].
    destruct (read_all _ _ _) as [rd view]. reflexivity.
Qed.

End StreamEdges.

(* ===================================================================== *)
(** * Sample runs of the account, the settings and the history *)
(* ===================================================================== *)

Section VisitSamples.
Import JS AuthService ChatWindow Samples Visits.
#[local] Existing Instance literal_numbers.

Lemma no_request_without_access_token_witness :
  run (getCurrentUser 1) [AuthService.Resolved whoami] signed_out_store =
    (Thrown (Error "No authentication token"), [AuthService.Resolved whoami],
     signed_out_store) /\
  run (Account.updateUser profile) [AuthService.Resolved whoami] signed_out_store =
    (Thrown (Error "No authentication token"), [AuthService.Resolved whoami],
     signed_out_store).
Proof.
  exact (no_request_without_access_token 0 [AuthService.Resolved whoami]
           signed_out_store profile eq_refl).
Defined.

Lemma other_failures_are_not_refreshed_witness :
  run (getCurrentUser 1) [AuthService.Resolved breakdown] (stored "a0" "r0") =
    (Thrown (Error "Failed to fetch user"), [],
     send (me_request (js "a0")) (stored "a0" "r0")) /\
  run (getCurrentUser 1) [AuthService.Rejected TypeError] (stored "a0" "r0") =
    (Thrown TypeError, [], send (me_request (js "a0")) (stored "a0" "r0")).
Proof.
  refine (other_failures_are_not_refreshed 0 (stored "a0" "r0") (js "a0")
            breakdown TypeError [] eq_refl _ eq_refl _); discriminate.
Defined.

Lemma refusal_without_refresh_token_keeps_the_store_witness :
  run (getCurrentUser 1) [AuthService.Resolved refusal] access_only =
    (Thrown (Error "Failed to fetch user"), [],
     send (me_request (js "a0")) access_only) /\
  storage_get TOKEN_KEY (send (me_request (js "a0")) access_only) =
    Some (js "a0").
Proof.
  refine (refusal_without_refresh_token_keeps_the_store 0 access_only (js "a0")
            refusal [] eq_refl _ eq_refl eq_refl); discriminate.
Defined.

Lemma requests_alternate_witness :
  exists more,
    requests (snd (run (getCurrentUser 2)
                     [AuthService.Resolved refusal;
                      AuthService.Resolved (granted "a1" "r1");
                      AuthService.Resolved whoami] (stored "a0" "r0"))) =
      requests (stored "a0" "r0") ++ more /\
    SessionTrace.alternating true more = true /\
    (SessionTrace.returned
       (fst (fst (run (getCurrentUser 2)
                    [AuthService.Resolved refusal;
                     AuthService.Resolved (granted "a1" "r1");
                     AuthService.Resolved whoami] (stored "a0" "r0")))) = true ->
     Nat.Odd (length more)).
Proof.
  exact (requests_alternate 2
           [AuthService.Resolved refusal;
            AuthService.Resolved (granted "a1" "r1");
            AuthService.Resolved whoami] (stored "a0" "r0")).
Defined.

Lemma only_the_credentials_are_written_witness :
  localStorage (snd (run (getCurrentUser 2)
                       [AuthService.Resolved refusal;
                        AuthService.Resolved breakdown] (stored "a0" "r0")))
    !! "theme"%string =
  localStorage (stored "a0" "r0") !! "theme"%string.
Proof.
  refine (only_the_credentials_are_written 2
            [AuthService.Resolved refusal; AuthService.Resolved breakdown]
            (stored "a0" "r0") "theme" _ _); discriminate.
Defined.

Lemma getCurrentUser_settles_on_a_finite_script_witness :
  fst (fst (run (getCurrentUser 2)
              [AuthService.Resolved refusal;
               AuthService.Resolved (granted "a1" "r1");
               AuthService.Resolved whoami] (stored "a0" "r0"))) <> Diverged /\
  run (getCurrentUser 5)
    [AuthService.Resolved refusal; AuthService.Resolved (granted "a1" "r1");
     AuthService.Resolved whoami] (stored "a0" "r0") =
  run (getCurrentUser 2)
    [AuthService.Resolved refusal; AuthService.Resolved (granted "a1" "r1");
     AuthService.Resolved whoami] (stored "a0" "r0").
Proof.
  refine (getCurrentUser_settles_on_a_finite_script 2 5
            [AuthService.Resolved refusal;
             AuthService.Resolved (granted "a1" "r1");
             AuthService.Resolved whoami] (stored "a0" "r0") _ _); cbn; lia.
Defined.

Lemma refreshAccessToken_never_throws_witness :
  exists b script' w',
    run refreshAccessToken [AuthService.Rejected TypeError] (stored "a0" "r0") =
      (Returned b, script', w') /\
    (b = true ->
       length (requests w') = S (length (requests (stored "a0" "r0"))) /\
       is_Some (localStorage w' !! TOKEN_KEY) /\
       is_Some (localStorage w' !! REFRESH_TOKEN_KEY)) /\
    (b = false ->
       w' = stored "a0" "r0" \/
       (length (requests w') = S (length (requests (stored "a0" "r0"))) /\
        localStorage w' !! TOKEN_KEY = None /\
        localStorage w' !! REFRESH_TOKEN_KEY = None)).
Proof.
  exact (refreshAccessToken_never_throws [AuthService.Rejected TypeError]
           (stored "a0" "r0")).
Defined.

Lemma missing_refresh_token_is_stored_as_undefined_witness :
  let w' := mkWorld (signed_in (js "a1") (js "undefined") (stored "a0" "r0"))
              [refresh_request (js "r0")] in
  run refreshAccessToken [AuthService.Resolved access_granted] (stored "a0" "r0") =
    (Returned true, [], w') /\
  storage_get REFRESH_TOKEN_KEY w' = Some (js "undefined") /\
  exists more,
    requests (snd (run refreshAccessToken [AuthService.Resolved breakdown] w')) =
    requests w' ++ refresh_request (js "undefined") :: more.
Proof.
  exact (missing_refresh_token_is_stored_as_undefined (stored "a0" "r0") (js "r0")
           access_granted [(js "access_token", VString (js "a1"))]
           (VString (js "a1")) (js "a1") [] [AuthService.Resolved breakdown]
           eq_refl ltac:(discriminate) eq_refl eq_refl eq_refl eq_refl eq_refl).
Defined.

Lemma setTokens_writes_in_order_witness :
  exists w',
    run (setTokens unstorable) [] (stored "a0" "r0") =
      (Thrown TypeError, [], w') /\
    requests w' = requests (stored "a0" "r0") /\
    storage_get TOKEN_KEY w' = Some (js "a1") /\
    forall key, key <> TOKEN_KEY ->
                storage_get key w' = storage_get key (stored "a0" "r0").
Proof.
  exact (setTokens_writes_in_order unstorable [] (stored "a0" "r0")).
Defined.

Lemma unstorable_refresh_clears_the_store_witness :
  run refreshAccessToken [AuthService.Resolved unstorable_granted]
    (stored "a0" "r0") =
    (Returned false, [],
     mkWorld (signed_out (stored "a0" "r0")) [refresh_request (js "r0")]) /\
  run (getCurrentUser 1)
    [AuthService.Resolved refusal; AuthService.Resolved unstorable_granted]
    (stored "a0" "r0") =
    (Thrown (Error "Failed to fetch user"), [],
     mkWorld (signed_out (stored "a0" "r0"))
       [me_request (js "a0"); refresh_request (js "r0")]).
Proof.
  refine (unstorable_refresh_clears_the_store 0 (stored "a0" "r0")
            (js "a0") (js "r0") refusal unstorable_granted unstorable
            (VString (js "a1")) [] eq_refl _ eq_refl _ eq_refl eq_refl eq_refl
            eq_refl (or_intror eq_refl)); discriminate.
Defined.

Lemma login_with_unstorable_credentials_witness :
  run (Account.login ada) [AuthService.Resolved unstorable_granted]
    (stored "a0" "r0") =
    (Thrown TypeError, [],
     storage_set TOKEN_KEY (js "a1")
       (send (Account.login_request ada) (stored "a0" "r0"))) /\
  storage_get TOKEN_KEY
    (storage_set TOKEN_KEY (js "a1")
       (send (Account.login_request ada) (stored "a0" "r0"))) = Some (js "a1") /\
  storage_get REFRESH_TOKEN_KEY
    (storage_set TOKEN_KEY (js "a1")
       (send (Account.login_request ada) (stored "a0" "r0"))) =
    storage_get REFRESH_TOKEN_KEY (stored "a0" "r0").
Proof.
  exact (proj2 (login_with_unstorable_credentials ada unstorable_granted
                  unstorable [] (stored "a0" "r0") eq_refl eq_refl)
           (VString (js "a1")) (js "a1") eq_refl eq_refl eq_refl).
Defined.

Lemma login_stores_the_credentials_witness :
  let w' := mkWorld (signed_in (js "a1") (js "r1") signed_out_store)
              [Account.login_request ada] in
  run (Account.login ada) [AuthService.Resolved (granted "a1" "r1")]
    signed_out_store =
    (Returned (Account.Fulfilled (token_pair "a1" "r1")), [], w') /\
  sync getToken w' = Some (Some (js "a1")) /\
  sync isAuthenticated w' = Some true.
Proof.
  exact (login_stores_the_credentials ada (granted "a1" "r1")
           (token_pair "a1" "r1") (VString (js "a1")) (VString (js "r1"))
           (js "a1") (js "r1") []
           signed_out_store eq_refl eq_refl eq_refl eq_refl eq_refl eq_refl).
Defined.

Lemma rejected_login_and_signup_witness :
  run (Account.login ada) [AuthService.Resolved refusal] signed_out_store =
    (Returned (Account.Failed (js "Could not validate credentials")), [],
     send (Account.login_request ada) signed_out_store) /\
  run (Account.signup profile) [AuthService.Resolved refusal] signed_out_store =
    (Returned (Account.Failed (js "Could not validate credentials")), [],
     send (Account.signup_request profile) signed_out_store).
Proof.
  exact (rejected_login_and_signup ada profile refusal [] signed_out_store
           eq_refl).
Defined.

Lemma updateUser_is_not_refreshed_witness :
  run (Account.updateUser profile) [AuthService.Resolved refusal]
    (stored "a0" "r0") =
  (Returned (Account.Failed (js "Could not validate credentials")), [],
   send (Account.update_request (Some (js "a0")) profile) (stored "a0" "r0")).
Proof.
  refine (proj1 (proj2 (updateUser_is_not_refreshed profile refusal []
            (stored "a0" "r0") (js "a0") eq_refl _)) eq_refl); discriminate.
Defined.

Lemma initAuth_never_clears_the_credentials_witness :
  run (AuthContext.initAuth 2 (AuthContext.mkState VNull true))
    [AuthService.Resolved refusal; AuthService.Resolved breakdown]
    (stored "a0" "r0") =
  (Returned (AuthContext.mkState VNull false), [],
   mkWorld (signed_out (stored "a0" "r0"))
     [me_request (js "a0"); refresh_request (js "r0")]).
Proof.
  refine (initAuth_never_clears_the_credentials 2
            (AuthContext.mkState VNull true)
            [AuthService.Resolved refusal; AuthService.Resolved breakdown]
            (stored "a0" "r0") _); cbn; lia.
Defined.

Lemma login_then_current_user_witness :
  run (AuthContext.login 1 ada (AuthContext.mkState VNull false))
    [AuthService.Resolved (granted "a1" "r1"); AuthService.Resolved whoami]
    signed_out_store =
  (Returned (Account.Fulfilled (AuthContext.mkState profile false)), [],
   mkWorld (signed_in (js "a1") (js "r1") signed_out_store)
     [Account.login_request ada; me_request (js "a1")]).
Proof.
  refine (login_then_current_user 0 ada (AuthContext.mkState VNull false)
            (granted "a1" "r1") whoami (token_pair "a1" "r1")
            (VString (js "a1")) (VString (js "r1")) profile
            (js "a1") (js "r1") []
            signed_out_store eq_refl eq_refl eq_refl eq_refl eq_refl eq_refl _
            eq_refl eq_refl);
    discriminate.
Defined.

Lemma handleSubmit_sends_the_trimmed_text_witness :
  ChatInput.handleSubmit (js "  hi ") false = (Some (js "hi"), []) /\
  forall c, hd_error (js "hi") = Some c \/ last (js "hi") = Some c ->
            is_js_whitespace c = false.
Proof.
  split; [vm_compute; reflexivity|].
  exact (proj2 (proj2 (proj2 (proj2 (proj2
           (handleSubmit_sends_the_trimmed_text (js "  hi ") false)))))).
Defined.

Lemma typed_number_of_results_is_clamped_witness :
  ChatSettingsModal.rag_k_of (JSGlobals.decimal 25) = 20 /\
  ChatSettingsModal.rag_k_of (js "-" ++ JSGlobals.decimal 25) = 1 /\
  ChatSettingsModal.rag_k_of (js "abc") = 5.
Proof.
  pose proof (typed_number_of_results_is_clamped 25 (js "abc")) as (E1 & E2 & E3).
  split; [exact E1|split; [exact E2|]]. apply E3. vm_compute. reflexivity.
Defined.

Lemma loaded_history_has_identifiers_witness :
  let loaded :=
    messages (fst (SessionHistory.fetchSessionHistory "http://localhost:8000"
                     "t1" stuck (SessionHistory.Resolved saved)
                     (stored "a0" "r0") history)) in
  List.map id loaded = [js "m1"; js "msg-1-1"; js "msg-1-2"] /\
  (forall i m, loaded !! i = Some m -> id m <> []).
Proof.
  split; [vm_compute; reflexivity|].
  exact (proj1 (proj2 (proj2 (proj2 (proj2
           (loaded_history_has_identifiers "http://localhost:8000" "t1" stuck
              saved _ (stored "a0" "r0") history eq_refl eq_refl)))))).
Defined.

Lemma history_is_sent_once_and_never_refreshed_witness :
  let '(st', w') :=
    SessionHistory.fetchSessionHistory "http://localhost:8000" "t1" stuck
      (SessionHistory.Resolved (SessionHistory.mkResponse 401 None))
      (stored "a0" "r0") history in
  st' = history /\
  localStorage w' = localStorage (stored "a0" "r0") /\
  requests w' =
    [mkRequest "http://localhost:8000/session/t1" "GET"
       [("Authorization"%string, js "Bearer a0")] None].
Proof.
  pose proof (history_is_sent_once_and_never_refreshed "http://localhost:8000"
                "t1" stuck
                (SessionHistory.Resolved (SessionHistory.mkResponse 401 None))
                (stored "a0" "r0") history) as Hx.
  destruct (SessionHistory.fetchSessionHistory _ _ _ _ _ _) as [st' w'].
  destruct Hx as (Hs & Hr & _ & Hst).
  split; [apply Hst; now left|]. split; [exact Hs|].
  rewrite Hr. vm_compute. reflexivity.
Defined.

Lemma deltas_need_the_assistant_message_witness :
  (exists st',
     fold_left (on_line_of_view (js "a9"))
       [js "data: " ++ jq "{'content':{'toString':1}}"] (Some history)
       = Some st' /\
     messages st' = messages history) /\
  (exists st',
     snd (read_all (js "a9") [hello_stream] history) = Some st' /\
     messages st' = messages history).
Proof.
  refine (deltas_need_the_assistant_message (js "a9")
            [js "data: " ++ jq "{'content':{'toString':1}}"] [hello_stream]
            history _).
  repeat constructor; discriminate.
Defined.

Lemma unterminated_line_is_dropped_witness :
  buffer (fst (read_all (js "m2") [cut_stream] history)) =
    js "data: " ++ jq "{'content':'lo'}" /\
  option_map messages (snd (read_all (js "m2") [cut_stream] history)) =
    append_values (js "m2")
      (omap delta_of_line (split_lf (js "data: " ++ jq "{'content':'Hel'}")))
      (messages history).
Proof.
  refine (proj1 (unterminated_line_is_dropped (js "m2") [cut_stream] history
            (js "data: " ++ jq "{'content':'Hel'}")
            (js "data: " ++ jq "{'content':'lo'}") _) _).
  - intros Hin. vm_compute in Hin.
    repeat (destruct Hin as [Hin|Hin]; [discriminate|]). exact Hin.
  - vm_compute. reflexivity.
Defined.

Lemma payload_that_is_no_object_witness :
  delta_of_line (js "data: null") = Some (VString (js "null")).
Proof.
  refine (payload_that_is_no_object (js "data: null") (js "null") VNull
            _ _ _ _); try discriminate; vm_compute; reflexivity.
Defined.

Lemma turn_releases_the_input_or_unmounts_witness :
  fst (handleSendMessage "http://localhost:8000" (js "u1") (js "a1") (js "t1")
         (js "Say hello") default_settings
         (Resolved (mkResponse 200 (Some (mkBody [poisoned_stream] None))))
         (stored "a0" "r0") history) = None.
Proof.
  apply (proj2 (proj1 (proj2 (turn_releases_the_input_or_unmounts
           "http://localhost:8000" (js "u1") (js "a1") (js "t1")
           (js "Say hello") default_settings
           (Resolved (mkResponse 200 (Some (mkBody [poisoned_stream] None))))
           (stored "a0" "r0") history 200 [] AuthService.AbortError)))).
  exists (mkResponse 200 (Some (mkBody [poisoned_stream] None))),
         (mkBody [poisoned_stream] None).
  split; [reflexivity|]. split; [reflexivity|]. split; [reflexivity|].
  vm_compute. reflexivity.
Defined.

Lemma streaming_keeps_the_transcript_in_order_witness :
  on_line (js "m2") history (js "data: " ++ jq "{'content':{'toString':1}}")
    = None /\
  forall st',
    on_line (js "m2") history (js "data: " ++ jq "{'content':'Hel'}") = Some st' ->
    Forall2 (same_but_content (js "m2")) (messages history) (messages st').
Proof.
  split.
  - apply (proj2 (proj1 (proj2 (streaming_keeps_the_transcript_in_order
             "http://localhost:8000" (js "u1") (js "m2") (js "t1")
             (js "Say hello") default_settings
             (Rejected AuthService.AbortError) (stored "a0" "r0") history
             (js "data: " ++ jq "{'content':{'toString':1}}"))))).
    exists (VObject [(js "toString", VNumber (js "1"))]).
    split; [vm_compute; reflexivity|]. split; [reflexivity|].
    right. left. reflexivity.
  - exact (proj1 (streaming_keeps_the_transcript_in_order
             "http://localhost:8000" (js "u1") (js "m2") (js "t1")
             (js "Say hello") default_settings
             (Rejected AuthService.AbortError) (stored "a0" "r0") history
             (js "data: " ++ jq "{'content':'Hel'}"))).
Defined.

End VisitSamples.
